(** * mediawiki-mcp: the wiki content-retrieval pipeline

    A shallow embedding of the Go packages [internal/wiki] (TTL cache, cache
    keys, markdown clean-up, link extraction, infobox extraction) and
    [internal/tools] (page outline, section lookup, search, category
    listing), followed by the properties checked against them.

    Conventions.
    - A Go [string] is a [string] of bytes; [int] is a 64-bit integer kept in
      [Z] with its wrap-around written out where the code does arithmetic.
    - [time.Time] and [time.Duration] are counted in nanoseconds in [Z].
    - A Go map is a [gmap]; [(v, true)] / [(nil, false)] is [Some v] / [None].
    - Pointers to [wiki.Section] are addresses into an explicit heap, because
      [buildSectionsTree] keeps appending to nodes it has already linked. *)

From Stdlib Require Import ZArith Ascii String List Bool Lia DecimalString.
From Stdlib Require DecimalPos DecimalZ.
From stdpp Require Import base option list gmap strings.

Import ListNotations.
Local Open Scope Z_scope.

(** Let [simpl] compute string concatenation. *)
#[local] Arguments String.append !_ _ / : simpl nomatch.

(* ================================================================== *)
(** * Part I. Definitions                                              *)
(* ================================================================== *)

(** ** Go's [strings] package, as far as the sources use it *)

Module GoStrings.

Definition LF : ascii := ascii_of_nat 10.
Definition nl : string := String LF EmptyString.

(** [strings.HasPrefix(s, prefix)] *)
Fixpoint HasPrefix (s prefix : string) {struct prefix} : bool :=
  match prefix, s with
  | EmptyString, _ => true
  | String p ps, String c cs => if Ascii.eqb p c then HasPrefix cs ps else false
  | String _ _, EmptyString => false
  end.

(** [s[n:]] for [n <= len(s)] *)
Fixpoint drop (n : nat) (s : string) : string :=
  match n, s with
  | O, _ => s
  | S n', String _ cs => drop n' cs
  | S _, EmptyString => EmptyString
  end.

(** [s[:n]] for [n <= len(s)] *)
Fixpoint take (n : nat) (s : string) : string :=
  match n, s with
  | O, _ => EmptyString
  | S n', String c cs => String c (take n' cs)
  | S _, EmptyString => EmptyString
  end.

(** [strings.TrimPrefix(s, prefix)] *)
Definition TrimPrefix (s prefix : string) : string :=
  if HasPrefix s prefix then drop (String.length prefix) s else s.

(** [strings.Index(s, substr)]: offset of the first occurrence, if any
    (Go returns [-1] for [None]). *)
Fixpoint Index (s substr : string) : option nat :=
  if HasPrefix s substr then Some O
  else match s with
       | EmptyString => None
       | String _ cs => S <$> Index cs substr
       end.

(** [strings.Contains(s, substr)] *)
Definition Contains (s substr : string) : bool :=
  bool_decide (is_Some (Index s substr)).

(** [strings.Split(s, sep)] for a non-empty separator.  [skip] counts the
    bytes of a separator that has just been recognised and is being
    stepped over; [cur] is the field read so far. *)
Fixpoint split_go (sep : string) (s : string) (skip : nat) (cur : string)
  : list string :=
  match skip with
  | S k =>
      match s with
      | EmptyString => [cur]
      | String _ cs => split_go sep cs k cur
      end
  | O =>
      if HasPrefix s sep then
        match s with
        | EmptyString => [cur]
        | String _ cs => cur :: split_go sep cs (Nat.pred (String.length sep)) EmptyString
        end
      else
        match s with
        | EmptyString => [cur]
        | String c cs => split_go sep cs O (cur +:+ String c EmptyString)
        end
  end.

Definition Split (s sep : string) : list string := split_go sep s O EmptyString.

(** [strings.SplitN(s, sep, 2)]: cut at the first separator only. *)
Definition SplitN2 (s sep : string) : list string :=
  match Index s sep with
  | Some i => [take i s; drop (i + String.length sep) s]
  | None => [s]
  end.

(** [strings.ReplaceAll(s, old, new)] for non-empty [old]: occurrences are
    replaced left to right, without overlap. *)
Fixpoint replace_go (old new : string) (s : string) (skip : nat) : string :=
  match skip with
  | S k =>
      match s with
      | EmptyString => EmptyString
      | String _ cs => replace_go old new cs k
      end
  | O =>
      match s with
      | EmptyString => EmptyString
      | String c cs =>
          if HasPrefix s old
          then new +:+ replace_go old new cs (Nat.pred (String.length old))
          else String c (replace_go old new cs O)
      end
  end.

Definition ReplaceAll (s old new : string) : string := replace_go old new s O.

(** [strings.Join(elems, sep)] *)
Fixpoint Join (elems : list string) (sep : string) : string :=
  match elems with
  | [] => EmptyString
  | [e] => e
  | e :: rest => e +:+ sep +:+ Join rest sep
  end.

(** White space as [unicode.IsSpace] defines it, in UTF-8: the six ASCII
    characters tab, LF, VT, FF, CR and space, then U+0085, U+00A0, U+1680,
    U+2000..U+200A, U+2028, U+2029, U+202F, U+205F and U+3000. *)
Definition byte (n : nat) : ascii := ascii_of_nat n.

Definition bytes (l : list nat) : string :=
  fold_right (fun n s => String (byte n) s) EmptyString l.

Definition unicode_spaces : list string :=
  map bytes
    ([ [9%nat]; [10%nat]; [11%nat]; [12%nat]; [13%nat]; [32%nat];
       [194; 133]%nat; [194; 160]%nat; [225; 154; 128]%nat ]
     ++ map (fun k => [226; 128; 128 + k]%nat) (seq 0 11)
     ++ [ [226; 128; 168]%nat; [226; 128; 169]%nat; [226; 128; 175]%nat;
          [226; 129; 159]%nat; [227; 128; 128]%nat ]).

(** Width in bytes of the white-space character [s] starts with, if any. *)
Definition space_width (s : string) : option nat :=
  String.length <$> List.find (HasPrefix s) unicode_spaces.

Definition rev_string (s : string) : string :=
  string_of_list_ascii (rev (list_ascii_of_string s)).

(** [strings.TrimLeftFunc(s, unicode.IsSpace)].  [skip] steps over the
    rest of a multi-byte white-space character. *)
Fixpoint trim_left_go (s : string) (skip : nat) : string :=
  match skip with
  | S k =>
      match s with
      | EmptyString => EmptyString
      | String _ cs => trim_left_go cs k
      end
  | O =>
      match space_width s with
      | Some w =>
          match s with
          | EmptyString => EmptyString
          | String _ cs => trim_left_go cs (Nat.pred w)
          end
      | None => s
      end
  end.

Definition TrimLeftSpace (s : string) : string := trim_left_go s O.

(** The same from the right end: the string is read backwards against the
    reversed encodings. *)
Definition space_width_rev (r : string) : option nat :=
  String.length <$> List.find (fun sp => HasPrefix r (rev_string sp)) unicode_spaces.

Fixpoint trim_right_go (r : string) (skip : nat) : string :=
  match skip with
  | S k =>
      match r with
      | EmptyString => EmptyString
      | String _ cs => trim_right_go cs k
      end
  | O =>
      match space_width_rev r with
      | Some w =>
          match r with
          | EmptyString => EmptyString
          | String _ cs => trim_right_go cs (Nat.pred w)
          end
      | None => r
      end
  end.

Definition TrimRightSpace (s : string) : string :=
  rev_string (trim_right_go (rev_string s) O).

(** [strings.TrimSpace(s)] *)
Definition TrimSpace (s : string) : string := TrimRightSpace (TrimLeftSpace s).

(** [strings.Fields(s)]: the maximal runs of non-white-space. *)
Fixpoint fields_go (s : string) (skip : nat) (cur : string) : list string :=
  let flush := match cur with EmptyString => [] | _ => [cur] end in
  match skip with
  | S k =>
      match s with
      | EmptyString => flush
      | String _ cs => fields_go cs k cur
      end
  | O =>
      match s with
      | EmptyString => flush
      | String c cs =>
          match space_width s with
          | Some w => flush ++ fields_go cs (Nat.pred w) EmptyString
          | None => fields_go cs O (cur +:+ String c EmptyString)
          end
      end
  end.

Definition Fields (s : string) : list string := fields_go s O EmptyString.

End GoStrings.

(** ** [internal/wiki/cache.go]: the TTL cache *)

Module Cache.

(** Durations and instants, in nanoseconds. *)
Definition Nanosecond : Z := 1.
Definition Second : Z := 1000000000 * Nanosecond.
Definition Minute : Z := 60 * Second.

(** An entry; [V] stands for [interface{}], whatever the callers store. *)
Record cacheItem (V : Type) := mkItem { value : V; expiration : Z }.
Arguments mkItem {V} _ _.
Arguments value {V} _.
Arguments expiration {V} _.

(** [Cache.items]; the mutex makes every operation below atomic, so each
    is a function of the map and of the clock reading it takes. *)
Abbreviation items V := (gmap string (cacheItem V)).

Section WithValue.
Context {V : Type}.

Definition NewCache : items V := ∅.

(** [t.After(u)] *)
Definition After (t u : Z) : bool := bool_decide (u < t).

(** [Get], with [now] the value of [time.Now()] inside it. *)
Definition Get (c : items V) (key : string) (now : Z) : option V :=
  match c !! key with
  | None => None
  | Some item => if After now (expiration item) then None else Some (value item)
  end.

(** [Set]: [expiration] is [time.Now().Add(ttl)]. *)
Definition Set_ (c : items V) (key : string) (v : V) (ttl : Z) (now : Z)
  : items V :=
  <[key := {| value := v; expiration := now + ttl |}]> c.

Definition Delete (c : items V) (key : string) : items V := delete key c.

(** [cleanup]: one sweep of the background loop. *)
Definition cleanup (c : items V) (now : Z) : items V :=
  filter (fun kv => negb (After now (expiration (snd kv))) = true) c.

End WithValue.

(** [CacheKey(parts...)] *)
Fixpoint CacheKey_loop (key : string) (i : nat) (parts : list string) : string :=
  match parts with
  | [] => key
  | part :: rest =>
      let key := if (0 <? i)%nat then key +:+ ":" else key in
      CacheKey_loop (key +:+ part) (S i) rest
  end.

Definition CacheKey (parts : list string) : string :=
  CacheKey_loop EmptyString O parts.

Definition PageCacheKey (wikiURL title : string) : string :=
  CacheKey ["page"; wikiURL; title].

Definition SectionCacheKey (wikiURL title sectionIndex : string) : string :=
  CacheKey ["section"; wikiURL; title; sectionIndex].

Definition SearchCacheKey (wikiURL query : string) : string :=
  CacheKey ["search"; wikiURL; query].

Definition InfoCacheKey (wikiURL : string) : string :=
  CacheKey ["info"; wikiURL].

Definition CategoryCacheKey (wikiURL category : string) : string :=
  CacheKey ["category"; wikiURL; category].

Definition BacklinksCacheKey (wikiURL title : string) : string :=
  CacheKey ["backlinks"; wikiURL; title].

End Cache.

(** ** Go's [regexp] package, for the patterns the sources compile

    The syntax tree covers what those patterns use: literals, character
    classes, repetition of a class (greedy or lazy, with a minimal count),
    an optional group, capture groups and the start-of-text anchor.  Matching
    is by backtracking in the order of preference Go documents (leftmost
    match, then the first alternative a backtracking search finds).

    Text is matched byte by byte.  Go matches whole UTF-8 characters, which
    gives the same matches here: every class that is repeated is a set of
    ASCII characters, the complement of one, or any character, and every
    repetition is followed by an ASCII literal or ends the pattern. *)

Module Regexp.
Import GoStrings.

Inductive regex : Type :=
| Eps
| Bol
| Lit (c : ascii)
| Cls (p : ascii -> bool)
| Cat (r1 r2 : regex)
| Opt (r : regex)
| Rep (greedy : bool) (min : nat) (p : ascii -> bool)
| Grp (i : nat) (r : regex).

(** The text of each capture group that took part in the match, most
    recent first. *)
Definition captures := list (nat * string).

Fixpoint lit (s : string) : regex :=
  match s with
  | EmptyString => Eps
  | String c EmptyString => Lit c
  | String c cs => Cat (Lit c) (lit cs)
  end.

Fixpoint seq_of (rs : list regex) : regex :=
  match rs with
  | [] => Eps
  | [r] => r
  | r :: rest => Cat r (seq_of rest)
  end.

Definition chr (c : ascii) : ascii -> bool := Ascii.eqb c.
Definition none_of (cs : string) : ascii -> bool :=
  fun c => negb (existsb (Ascii.eqb c) (list_ascii_of_string cs)).
Definition any_char : ascii -> bool := fun _ => true.
(** [\d] *)
Definition digit : ascii -> bool :=
  fun c => let n := nat_of_ascii c in ((48 <=? n) && (n <=? 57))%nat.
(** [\s] is [[\t\n\f\r ]] *)
Definition perl_space : ascii -> bool :=
  fun c => existsb (Nat.eqb (nat_of_ascii c)) [9; 10; 12; 13; 32]%nat.

Section Match.
Context {A : Type}.

(** [p{min,}]: as many as possible first. *)
Fixpoint rep_greedy (p : ascii -> bool) (min pos : nat) (s : string)
    (k : nat -> string -> option A) : option A :=
  match s with
  | String c cs =>
      if p c then
        match rep_greedy p (Nat.pred min) (S pos) cs k with
        | Some x => Some x
        | None => match min with O => k pos s | S _ => None end
        end
      else match min with O => k pos s | S _ => None end
  | EmptyString => match min with O => k pos s | S _ => None end
  end.

(** [p{min,}?]: as few as possible first. *)
Fixpoint rep_lazy (p : ascii -> bool) (min pos : nat) (s : string)
    (k : nat -> string -> option A) : option A :=
  match min with
  | O =>
      match k pos s with
      | Some x => Some x
      | None =>
          match s with
          | String c cs => if p c then rep_lazy p O (S pos) cs k else None
          | EmptyString => None
          end
      end
  | S m =>
      match s with
      | String c cs => if p c then rep_lazy p m (S pos) cs k else None
      | EmptyString => None
      end
  end.

(** [rmatch r pos s caps k]: match [r] against the text [s] that starts
    at offset [pos], then hand the rest to [k]; [None] when every way of
    matching fails. *)
Fixpoint rmatch (r : regex) (pos : nat) (s : string) (caps : captures)
    (k : nat -> string -> captures -> option A) : option A :=
  match r with
  | Eps => k pos s caps
  | Bol => match pos with O => k pos s caps | S _ => None end
  | Lit c =>
      match s with
      | String c' cs => if Ascii.eqb c c' then k (S pos) cs caps else None
      | EmptyString => None
      end
  | Cls p =>
      match s with
      | String c' cs => if p c' then k (S pos) cs caps else None
      | EmptyString => None
      end
  | Cat r1 r2 =>
      rmatch r1 pos s caps (fun pos' s' caps' => rmatch r2 pos' s' caps' k)
  | Opt r1 =>
      match rmatch r1 pos s caps k with
      | Some x => Some x
      | None => k pos s caps
      end
  | Rep greedy min p =>
      (if greedy then rep_greedy else rep_lazy) p min pos s
        (fun pos' s' => k pos' s' caps)
  | Grp i r1 =>
      rmatch r1 pos s caps
        (fun pos' s' caps' => k pos' s' ((i, take (pos' - pos) s) :: caps'))
  end.
End Match.

(** A match that starts exactly at offset [pos]: where it ends, and the
    groups. *)
Definition match_here (r : regex) (pos : nat) (s : string)
  : option (nat * captures) :=
  rmatch r pos s [] (fun e _ caps => Some (e, caps)).

(** The leftmost match at or after [pos]: start, end, matched text, groups. *)
Fixpoint find_from (r : regex) (pos : nat) (s : string)
  : option (nat * nat * string * captures) :=
  match match_here r pos s with
  | Some (e, caps) => Some (pos, e, take (e - pos) s, caps)
  | None =>
      match s with
      | EmptyString => None
      | String _ cs => find_from r (S pos) cs
      end
  end.

Definition group (caps : captures) (i : nat) : string :=
  match List.find (fun ic => Nat.eqb (fst ic) i) caps with
  | Some (_, t) => t
  | None => EmptyString
  end.

(** [re.FindStringSubmatch(s)] for a pattern with [ngroups] groups: [None]
    is Go's [nil]; otherwise the matched text followed by the text of each
    group (empty for a group that did not take part). *)
Definition FindStringSubmatch (r : regex) (ngroups : nat) (s : string)
  : option (list string) :=
  match find_from r O s with
  | Some (_, _, whole, caps) => Some (whole :: map (group caps) (seq 1 ngroups))
  | None => None
  end.

(** Replacement templates: [$name] with the longest name of letters,
    digits and underscores, [${name}], and [$$]. *)
Definition is_word (c : ascii) : bool :=
  let n := nat_of_ascii c in
  (((48 <=? n) && (n <=? 57)) || ((65 <=? n) && (n <=? 90))
   || ((97 <=? n) && (n <=? 122)) || (n =? 95))%nat.

Fixpoint take_while (p : ascii -> bool) (s : string) : string :=
  match s with
  | String c cs => if p c then String c (take_while p cs) else EmptyString
  | EmptyString => EmptyString
  end.

Fixpoint number_of (name : string) (acc : nat) : option nat :=
  match name with
  | EmptyString => Some acc
  | String c cs =>
      if digit c then number_of cs (10 * acc + (nat_of_ascii c - 48))%nat else None
  end.

(** The reference after a [$]: the group it names (a name that is not a
    number, or has a leading zero, names no group of these patterns) and
    the number of template bytes it takes. *)
Definition extract (t : string) : option (option nat * nat) :=
  let brace := HasPrefix t "{" in
  let body := if brace then drop 1 t else t in
  let name := take_while is_word body in
  let n := String.length name in
  match n with
  | O => None
  | S _ =>
      let num := if HasPrefix name "0" && (1 <? n)%nat then None
                 else number_of name O in
      if brace then
        if HasPrefix (drop n body) "}" then Some (num, (n + 2)%nat) else None
      else Some (num, n)
  end.

Fixpoint expand_go (caps : captures) (t : string) (skip : nat) : string :=
  match skip with
  | S k =>
      match t with
      | EmptyString => EmptyString
      | String _ cs => expand_go caps cs k
      end
  | O =>
      match t with
      | EmptyString => EmptyString
      | String c cs =>
          if Ascii.eqb c "$" then
            if HasPrefix cs "$" then String "$" (expand_go caps cs 1)
            else match extract cs with
                 | Some (Some i, w) => group caps i +:+ expand_go caps cs w
                 | Some (None, w) => expand_go caps cs w
                 | None => String "$" (expand_go caps cs O)
                 end
          else String c (expand_go caps cs O)
      end
  end.

Definition expand (caps : captures) (template : string) : string :=
  expand_go caps template O.

(** The loop behind [ReplaceAllString] and [ReplaceAllStringFunc]: the
    text is scanned left to right and every match is replaced by
    [repl matched groups].  [skip] counts the bytes of a match still to be
    stepped over; [adj] says that the previous match ended here, where an
    empty match is not replaced again.  (None of the patterns below
    matches the empty string; past an empty match the model steps one
    byte where Go steps one UTF-8 character.) *)
Fixpoint replace_loop (r : regex) (repl : string -> captures -> string)
    (pos : nat) (s : string) (skip : nat) (adj : bool) : string :=
  match skip with
  | S k =>
      match s with
      | EmptyString => EmptyString
      | String _ cs => replace_loop r repl (S pos) cs k (Nat.eqb k O)
      end
  | O =>
      match match_here r pos s with
      | Some (e, caps) =>
          match (e - pos)%nat with
          | O =>
              (if adj then EmptyString else repl EmptyString caps) +:+
              match s with
              | EmptyString => EmptyString
              | String c cs => String c (replace_loop r repl (S pos) cs O false)
              end
          | S w =>
              repl (take (S w) s) caps +:+
              match s with
              | EmptyString => EmptyString
              | String _ cs => replace_loop r repl (S pos) cs w (Nat.eqb w O)
              end
          end
      | None =>
          match s with
          | EmptyString => EmptyString
          | String c cs => String c (replace_loop r repl (S pos) cs O false)
          end
      end
  end.

(** [re.ReplaceAllString(src, repl)] *)
Definition ReplaceAllString (r : regex) (src repl : string) : string :=
  replace_loop r (fun m caps => expand ((O, m) :: caps) repl) O src O false.

(** [re.ReplaceAllStringFunc(src, f)] *)
Definition ReplaceAllStringFunc (r : regex) (src : string)
    (f : string -> string) : string :=
  replace_loop r (fun m _ => f m) O src O false.

End Regexp.

(** ** Errors and results *)

Module Go.

(** The [error] values the packages produce. *)
Inductive error : Type :=
| errorString (msg : string)
| wrapError (prefix : string) (err : error)
| APIError (Code Message : string)
| SectionNotFoundError (SectionIndex AvailableSections : Z).

(** [(T, error)] *)
Inductive result (A : Type) : Type :=
| Ok (a : A)
| Err (e : error).
Arguments Ok {A} a.
Arguments Err {A} e.

(** [fmt.Errorf(prefix + ": %w", err)] *)
Definition Errorf_w (prefix : string) (err : error) : error := wrapError prefix err.

Definition isEmpty (s : string) : bool :=
  match s with EmptyString => true | String _ _ => false end.

(** [int] arithmetic wraps at 64 bits. *)
Definition wrap64 (z : Z) : Z := (z + 2 ^ 63) mod 2 ^ 64 - 2 ^ 63.
Definition add (a b : Z) : Z := wrap64 (a + b).

End Go.

(** ** HTML to markdown, links, word counts (package [wiki]) *)

Module Markdown.
Import GoStrings Regexp Go.

(** The two HTML libraries the package calls.
    - [ConvertString]: [converter.ConvertString] of html-to-markdown, with
      the options and the two rules [init] installs.
    - [anchor_hrefs]: goquery's [doc.Find("a")] with [Attr("href")] on each
      selected element, in document order; an element without the
      attribute gives [None]; the outer [None] is a document that could
      not be read. *)
Class HtmlLib : Type := {
  ConvertString : string -> result string;
  anchor_hrefs : string -> option (list (option string))
}.

(** [\n{3,}] *)
Definition excessiveNewlines : regex := Rep true 3 (chr LF).

Definition cleanupMarkdown (md : string) : string :=
  let md := ReplaceAllString excessiveNewlines md (nl +:+ nl) in
  TrimSpace md.

Definition HTMLToMarkdown `{HtmlLib} (html : string) : result string :=
  match ConvertString html with
  | Err err => Err err
  | Ok markdown => Ok (cleanupMarkdown markdown)
  end.

Definition decodeTitle (title : string) : string :=
  ReplaceAll title "_" " ".

(** [if idx := strings.Index(title, sep); idx != -1 { title = title[:idx] }] *)
Definition cut_at (title sep : string) : string :=
  match Index title sep with
  | Some idx => take idx title
  | None => title
  end.

Definition extractTitleFromHref (href : string) : string :=
  if HasPrefix href "/wiki/" then
    let title := TrimPrefix href "/wiki/" in
    let title := cut_at title "#" in
    decodeTitle title
  else if Contains href "title=" then
    match Split href "title=" with
    | _ :: title :: _ =>
        let title := cut_at title "&" in
        let title := cut_at title "#" in
        decodeTitle title
    | _ => EmptyString
    end
  else EmptyString.

(** One call of the closure passed to [Each]; the state is [links] and
    [seen]. *)
Definition visit_anchor (st : list string * gmap string bool)
    (a : option string) : list string * gmap string bool :=
  let '(links, seen) := st in
  match a with
  | None => st
  | Some href =>
      let title := extractTitleFromHref href in
      if isEmpty title then st
      else if default false (seen !! title) then st
      else (links ++ [title], <[title := true]> seen)
  end.

Definition ExtractLinks `{HtmlLib} (html : string) : list string :=
  match anchor_hrefs html with
  | None => []
  | Some anchors => fst (fold_left visit_anchor anchors ([], ∅))
  end.

Definition stripMarkdownFormatting (text : string) : string :=
  (* \*+ *)
  let text := ReplaceAllString (Rep true 1 (chr "*")) text EmptyString in
  (* \[([^\]]+)\]\([^\)]+\) *)
  let text :=
    ReplaceAllString
      (seq_of [Lit "["; Grp 1 (Rep true 1 (none_of "]")); Lit "]";
               Lit "("; Rep true 1 (none_of ")"); Lit ")"])
      text "$1" in
  (* ^#+\s+ *)
  let text :=
    ReplaceAllString (seq_of [Bol; Rep true 1 (chr "#"); Rep true 1 perl_space])
      text EmptyString in
  (* ```[^`]*``` *)
  let text :=
    ReplaceAllString (seq_of [lit "```"; Rep true 0 (none_of "`"); lit "```"])
      text EmptyString in
  (* `[^`]+` *)
  let text :=
    ReplaceAllString (seq_of [Lit "`"; Rep true 1 (none_of "`"); Lit "`"])
      text EmptyString in
  text.

Definition CountWords (text : string) : Z :=
  let text := stripMarkdownFormatting text in
  let words := Fields text in
  Z.of_nat (length words).

(** [maxWords] is 50 or 100 at the call sites; a negative bound, which
    would make the slice expression panic, is not modelled. *)
Definition ExtractPreview (markdown : string) (maxWords : Z) : string :=
  let text := stripMarkdownFormatting markdown in
  let words := Fields text in
  if Z.of_nat (length words) <=? maxWords then Join words " "
  else Join (firstn (Z.to_nat maxWords) words) " " +:+ "...".

End Markdown.

(** ** Infobox extraction (package [wiki]) *)

Module Infobox.
Import GoStrings Regexp Go.

(** [(?s)\{\{Infobox[^\}]*?\n(.*?)\n\}\}] *)
Definition infoboxRegex : regex :=
  seq_of [lit "{{Infobox"; Rep false 0 (none_of "}"); Lit LF;
          Grp 1 (Rep false 0 any_char); Lit LF; lit "}}"].

(** [\[\[([^\|\]]+)(?:\|([^\]]+))?\]\]] *)
Definition linkRegex : regex :=
  seq_of [lit "[["; Grp 1 (Rep true 1 (none_of "|]"));
          Opt (Cat (Lit "|") (Grp 2 (Rep true 1 (none_of "]")))); lit "]]"].

(** [\{\{<name>\|(\d+)\|(\d+)\|(\d+)[^\}]*\}\}] *)
Definition dateRegex (name : string) : regex :=
  seq_of [lit "{{"; lit name; Lit "|"; Grp 1 (Rep true 1 digit); Lit "|";
          Grp 2 (Rep true 1 digit); Lit "|"; Grp 3 (Rep true 1 digit);
          Rep true 0 (none_of "}"); lit "}}"].

(** [\{\{<name>\|[^\}]+\}\}] *)
Definition dropRegex (name : string) : regex :=
  seq_of [lit "{{"; lit name; Lit "|"; Rep true 1 (none_of "}"); lit "}}"].

(** [\{\{<name>\|([^\}]+)\}\}] *)
Definition argRegex (name : string) : regex :=
  seq_of [lit "{{"; lit name; Lit "|"; Grp 1 (Rep true 1 (none_of "}")); lit "}}"].

Definition cleanCommonTemplates (value : string) : string :=
  let birthDateRegex := dateRegex "birth date" in
  let value := ReplaceAllString birthDateRegex value "$1-$2-$3" in
  let deathDateRegex := dateRegex "death date" in
  let value := ReplaceAllString deathDateRegex value "$1-$2-$3" in
  let ageRegex := dropRegex "age" in
  let value := ReplaceAllString ageRegex value EmptyString in
  let circaRegex := argRegex "circa" in
  let value := ReplaceAllString circaRegex value "circa $1" in
  let flagRegex := argRegex "flag" in
  let value := ReplaceAllString flagRegex value "$1" in
  let coordRegex := dropRegex "coord" in
  let value := ReplaceAllString coordRegex value EmptyString in
  value.

(** In the closure, [parts] is never nil: the closure is only called on a
    text the pattern matches. *)
Definition cleanInfoboxValue (value : string) : string :=
  let value := TrimSpace value in
  let value :=
    ReplaceAllStringFunc linkRegex value (fun match_ =>
      match FindStringSubmatch linkRegex 2 match_ with
      | Some [_; p1; p2] => if isEmpty p2 then p1 else p2
      | _ => EmptyString
      end) in
  let value := cleanCommonTemplates value in
  (* \{\{[^\}]+\}\} *)
  let templateRegex := seq_of [lit "{{"; Rep true 1 (none_of "}"); lit "}}"] in
  let value := ReplaceAllString templateRegex value EmptyString in
  (* <[^>]+> *)
  let htmlRegex := seq_of [Lit "<"; Rep true 1 (none_of ">"); Lit ">"] in
  let value := ReplaceAllString htmlRegex value EmptyString in
  let value := ReplaceAll value "'''" EmptyString in
  let value := ReplaceAll value "''" EmptyString in
  let value := TrimSpace value in
  (* \s+ *)
  let value := ReplaceAllString (Rep true 1 perl_space) value " " in
  value.

(** The state of the loop over the lines: [result], [currentKey] and the
    contents of the builder [currentValue]. *)
Definition parse_state : Type := gmap string string * string * string.

(** Store the pending pair, when there is a current key. *)
Definition save (result : gmap string string) (currentKey currentValue : string)
  : gmap string string :=
  if isEmpty currentKey then result
  else <[currentKey := cleanInfoboxValue currentValue]> result.

(** Append a space and the line to the pending value, when there is a
    current key. *)
Definition continuation (st : parse_state) (line : string) : parse_state :=
  let '(result, currentKey, currentValue) := st in
  if isEmpty currentKey then st
  else (result, currentKey, currentValue +:+ " " +:+ line).

Definition parse_line (st : parse_state) (line : string) : parse_state :=
  let '(result, currentKey, currentValue) := st in
  let line := TrimSpace line in
  if isEmpty line then st
  else if HasPrefix line "|" then
    let result := save result currentKey currentValue in
    let line := TrimPrefix line "|" in
    match SplitN2 line "=" with
    | [k; v] => (result, TrimSpace k, TrimSpace v)
    | _ => continuation (result, currentKey, currentValue) line
    end
  else continuation st line.

(** [None] is the [nil] map. *)
Definition ExtractInfobox (wikitext : string) : option (gmap string string) :=
  match FindStringSubmatch infoboxRegex 1 wikitext with
  | Some (_ :: infoboxContent :: _) =>
      let lines := Split infoboxContent nl in
      let '(result, currentKey, currentValue) :=
        fold_left parse_line lines (∅, EmptyString, EmptyString) in
      let result := save result currentKey currentValue in
      if (size result =? 0)%nat then None else Some result
  | _ => None
  end.

End Infobox.

(** ** What the clean-up of markdown is meant to achieve

    These definitions do not come from the sources; they say in the words of
    the specification what [cleanupMarkdown] is compared with. *)

Module MarkdownSpec.
Import GoStrings Regexp.

(** [n] consecutive newline characters.  Between two pieces of text they
    make [n - 1] blank lines. *)
Fixpoint run (n : nat) : string :=
  match n with
  | O => EmptyString
  | S n' => String LF (run n')
  end.

(** The number of newline characters [s] begins with. *)
Fixpoint lead (s : string) : nat :=
  match s with
  | String c cs => if chr LF c then S (lead cs) else O
  | EmptyString => O
  end.

(** Every run of newlines cut down to at most two: a newline is kept when
    fewer than two newlines come directly before it ([seen] counts them). *)
Fixpoint squeeze_go (s : string) (seen : nat) : string :=
  match s with
  | EmptyString => EmptyString
  | String c cs =>
      if chr LF c then
        if (seen <? 2)%nat then String c (squeeze_go cs (S seen))
        else squeeze_go cs (S seen)
      else String c (squeeze_go cs O)
  end.

Definition squeeze_newlines (s : string) : string := squeeze_go s O.

(** No white space at either end. *)
Definition trimmed (s : string) : bool :=
  bool_decide (space_width s = None)
  && bool_decide (space_width_rev (rev_string s) = None).

(** The last byte of [s] is a newline. *)
Fixpoint ends_with_newline (s : string) : bool :=
  match s with
  | EmptyString => false
  | String c EmptyString => chr LF c
  | String _ cs => ends_with_newline cs
  end.

End MarkdownSpec.

(** ** Go's [strconv], as far as the sources use it *)

Module Strconv.
Import GoStrings Regexp.

Definition MaxInt64 : Z := 2 ^ 63 - 1.
Definition MinInt64 : Z := - 2 ^ 63.
Definition MaxUint64 : Z := 2 ^ 64 - 1.

(** What the loop of [strconv.ParseUint] ends with. *)
Inductive parsed : Type :=
| Parsed (n : Z)
| SyntaxError
| RangeError.

(** [cutoff] of [ParseUint] for base 10: the smallest [n] for which
    [n*10] no longer fits 64 bits. *)
Definition cutoff : Z := MaxUint64 / 10 + 1.

(** The loop of [strconv.ParseUint(s, 10, 64)] over the bytes of [s],
    with [n] the value read so far.  A byte that is not a digit ends it
    with a syntax error; a digit with which the value no longer fits 64
    bits ends it with a range error, whatever follows. *)
Fixpoint ParseUint_loop (s : string) (n : Z) : parsed :=
  match s with
  | EmptyString => Parsed n
  | String c cs =>
      if digit c then
        let d := Z.of_nat (nat_of_ascii c) - 48 in
        if cutoff <=? n then RangeError
        else
          let n1 := 10 * n + d in
          if MaxUint64 <? n1 then RangeError else ParseUint_loop cs n1
      else SyntaxError
  end.

(** [n, _ := strconv.Atoi(s)], the error dropped as the caller does:
    the value when [s] is an optional sign followed by decimal digits;
    the nearest end of the range of [int] when the digits do not fit
    (for [ParseUint]'s range error, and for a value of 64 bits beyond
    the range of [int]); [0] when [s] is empty, a sign alone, or has a
    byte that is not a digit before the value has left 64 bits. *)
Definition Atoi (s : string) : Z :=
  let neg := HasPrefix s "-" in
  let body := if neg || HasPrefix s "+" then drop 1 s else s in
  match body with
  | EmptyString => 0
  | String _ _ =>
      match ParseUint_loop body 0 with
      | SyntaxError => 0
      | RangeError => if neg then MinInt64 else MaxInt64
      | Parsed un =>
          if neg then Z.max MinInt64 (- un) else Z.min MaxInt64 un
      end
  end.

(** [strconv.Itoa(i)] *)
Definition Itoa (i : Z) : string := NilZero.string_of_int (Z.to_int i).

End Strconv.

(** ** The entities of package [wiki] *)

Module Wiki.
Import Go.

(** A [*Section]: the address of a section in the heap. *)
Abbreviation ptr := nat.

Module WikiSection.
(** [wiki.Section]; [Subsections] holds pointers. *)
Record t : Type := mk {
  Index : Z;
  Title : string;
  Level : Z;
  Preview : string;
  Content : string;
  Links : list string;
  WordCount : Z;
  Subsections : list ptr
}.

Definition with_Subsections (subs : list ptr) (s : t) : t :=
  {| Index := Index s; Title := Title s; Level := Level s;
     Preview := Preview s; Content := Content s; Links := Links s;
     WordCount := WordCount s; Subsections := subs |}.

(** The zero value. *)
Definition zero : t :=
  {| Index := 0; Title := EmptyString; Level := 0; Preview := EmptyString;
     Content := EmptyString; Links := []; WordCount := 0; Subsections := [] |}.
End WikiSection.

(** The sections allocated so far; the address of a section is its
    position.  Allocation appends, and nothing is ever freed. *)
Abbreviation heap := (list WikiSection.t).

(** [*p].  Every address the code follows was handed out by [alloc]; the
    zero value stands in for an address that was not. *)
Definition deref (h : heap) (p : ptr) : WikiSection.t :=
  default WikiSection.zero (h !! p).

(** [&wiki.Section{...}] *)
Definition alloc (h : heap) (s : WikiSection.t) : heap * ptr :=
  (h ++ [s], length h).

(** [p.Subsections = append(p.Subsections, child)] *)
Definition append_child (h : heap) (p child : ptr) : heap :=
  alter (fun s => WikiSection.with_Subsections (WikiSection.Subsections s ++ [child]) s)
        p h.

Module MWSection.
Record t : Type := mk {
  TocLevel : Z;
  Level : string;
  Line : string;
  Number : string;
  Index : string
}.
End MWSection.

Record MWLink : Type := { MWLink_Title : string }.
Record mwCategory : Type := { mwCategory_Title : string }.
Record mwRevision : Type := { mwRevision_Content : string }.

Module mwPage.
Record t : Type := mk {
  Revisions : list mwRevision;
  Categories : list mwCategory
}.
End mwPage.

Module mwSearchResult.
Record t : Type := mk { Title : string; Snippet : string; WordCount : Z }.
End mwSearchResult.

Module mwCategoryMember.
Record t : Type := mk { Title : string; Type_ : string }.
End mwCategoryMember.

(** [mwQuery], with the fields the operations below read.  [Pages] is a Go
    map; it is listed in the order in which the run-time happens to
    iterate over it. *)
Module mwQuery.
Record t : Type := mk {
  Search : list mwSearchResult.t;
  SearchInfo : option string;       (* [SearchInfo.Suggestion] *)
  Pages : list (string * mwPage.t);
  Categorymembers : list mwCategoryMember.t
}.
End mwQuery.

Module mwParse.
Record t : Type := mk {
  Title : string;
  Text : string;                    (* [Text.Content] *)
  Sections : list MWSection.t;
  Categories : list mwCategory;
  Links : list MWLink
}.
End mwParse.

(** [mwResponse]; a response with an [error] member never reaches the
    callers of [MakeRequest]. *)
Module mwResponse.
Record t : Type := mk {
  Query : option mwQuery.t;
  Parse : option mwParse.t
}.
End mwResponse.

Module PageOutline.
(** [wiki.PageOutline].  [Heap] is the store the pointers in [Sections]
    point into. *)
Record t : Type := mk {
  Title : string;
  Exists : bool;
  Summary : string;
  SummaryLinks : list string;
  Infobox : option (gmap string string);
  Heap : heap;
  Sections : list ptr;
  Categories : list string;
  SeeAlso : list string;
  TotalWordCount : Z
}.
End PageOutline.

(** The anonymous [struct { Index int; Title string }]. *)
Module SectionRef.
Record t : Type := mk { Index : Z; Title : string }.
End SectionRef.

Module Adjacent.
Record t : Type := mk {
  Previous : option SectionRef.t;
  Next : option SectionRef.t
}.
End Adjacent.

Module PageSection.
Record t : Type := mk {
  Title : string;
  Section_ : WikiSection.t;
  ParentSection : option SectionRef.t;
  Adjacent_ : option Adjacent.t
}.
End PageSection.

Module SearchResult.
Record t : Type := mk {
  Title : string;
  Snippet : string;
  SnippetLinks : list string;
  WordCount : Z
}.
End SearchResult.

Module SearchResponse.
Record t : Type := mk {
  Results : list SearchResult.t;
  TotalHits : Z;
  Suggestion : option string
}.
End SearchResponse.

Module CategoryMember.
Record t : Type := mk { Title : string; Type_ : string }.
End CategoryMember.

Module CategoryResponse.
Record t : Type := mk {
  Category : string;
  Members : list CategoryMember.t;
  ParentCategories : list string;
  TotalMembers : Z
}.
End CategoryResponse.

(** What the operations store in the cache behind [interface{}]. *)
Inductive cached : Type :=
| CachedOutline (o : PageOutline.t)
| CachedSection (s : PageSection.t)
| CachedSearch (r : SearchResponse.t)
| CachedCategory (c : CategoryResponse.t)
| CachedOther.    (* [*PageFull], [*WikiInfo], [*BacklinksResponse] *)

(** [url.Values], in the order of the [Set] calls. *)
Definition Values : Type := list (string * string).

End Wiki.

(** ** Package [tools]: the operations *)

Module Tools.
Import GoStrings Go Strconv Wiki Markdown Infobox Cache.

(** *** State and effects

    What an operation can change: the items of the client's cache, the
    clock, and the wiki on the other side of the network, of which the
    model keeps the list of requests made so far. *)
Record World : Type := mkWorld {
  items : gmap string (cacheItem cached);
  now : Z;
  requests : list (string * Values)
}.

(** [wiki.Client]: the two configured durations, and [respond], which
    stands for everything [MakeRequest] does between taking the parameters
    and returning the decoded response or an error (rate limiting,
    endpoint discovery, HTTP, decoding, the check for an [error] member).
    Its answer may depend on the whole state; the second component is the
    time the call takes, in nanoseconds. *)
Record Client : Type := mkClient {
  cacheTTL : Z;
  cacheTTLInfo : Z;
  respond : World -> string -> Values -> result mwResponse.t * N
}.

(** How a call ends: with a value, with an [error], or in a panic. *)
Inductive outcome (A : Type) : Type :=
| Ret (a : A)
| Fail (e : error)
| Panic (reason : string).
Arguments Ret {A} a.
Arguments Fail {A} e.
Arguments Panic {A} reason.

Definition M (A : Type) : Type := World -> outcome A * World.

Definition ret {A} (a : A) : M A := fun w => (Ret a, w).
Definition fail {A} (e : error) : M A := fun w => (Fail e, w).
Definition panic {A} (reason : string) : M A := fun w => (Panic reason, w).

Definition bind {A B} (m : M A) (k : A -> M B) : M B :=
  fun w =>
    match m w with
    | (Ret a, w') => k a w'
    | (Fail e, w') => (Fail e, w')
    | (Panic r, w') => (Panic r, w')
    end.

Notation "x <- m ;; k" := (bind m (fun x => k))
  (at level 100, m at next level, right associativity).
Notation "m ;;; k" := (bind m (fun _ => k))
  (at level 100, right associativity).

(** [v, err := f(...)]: the caller looks at the error itself. *)
Definition attempt {A} (m : M A) : M (result A) :=
  fun w =>
    match m w with
    | (Ret a, w') => (Ret (Ok a), w')
    | (Fail e, w') => (Ret (Err e), w')
    | (Panic r, w') => (Panic r, w')
    end.

(** [if err != nil { return nil, fmt.Errorf(prefix + ": %w", err) }] *)
Definition wrap {A} (prefix : string) (m : M A) : M A :=
  r <- attempt m ;;
  match r with
  | Ok a => ret a
  | Err e => fail (Errorf_w prefix e)
  end.

Definition liftR {A} (r : result A) : M A :=
  match r with
  | Ok a => ret a
  | Err e => fail e
  end.

(** [client.GetCache().Get(key)] *)
Definition cacheGet (key : string) : M (option cached) :=
  fun w => (Ret (Get (items w) key (now w)), w).

(** [client.GetCache().Set(key, value, ttl)] *)
Definition cacheSet (key : string) (value : cached) (ttl : Z) : M unit :=
  fun w =>
    (Ret tt,
     {| items := Set_ (items w) key value ttl (now w);
        now := now w; requests := requests w |}).

(** [client.MakeRequest(ctx, wikiURL, params)] *)
Definition MakeRequest (client : Client) (wikiURL : string) (params : Values)
  : M mwResponse.t :=
  fun w =>
    let '(r, elapsed) := respond client w wikiURL params in
    let w' := {| items := items w; now := now w + Z.of_N elapsed;
                 requests := requests w ++ [(wikiURL, params)] |} in
    match r with
    | Ok resp => (Ret resp, w')
    | Err e => (Fail e, w')
    end.

(** *** [outline.go] *)

Import WikiSection.

(** The loop that pops the stack.  The stack is kept top first:
    [stack[len(stack)-1]] is the head of the list. *)
Fixpoint pop_stack (h : heap) (stack : list ptr) (level : Z) : list ptr :=
  match stack with
  | [] => []
  | top :: rest =>
      if level <=? Level (deref h top) then pop_stack h rest level else stack
  end.

(** The [wiki.Section] literal in the loop over [mwSections]. *)
Definition section_of (mwSec : MWSection.t) : WikiSection.t :=
  let index := Atoi (MWSection.Index mwSec) in
  let level := MWSection.TocLevel mwSec in
  {| Index := index;
     Title := MWSection.Line mwSec;
     Level := add level 1;
     Preview := EmptyString;
     Content := EmptyString;
     Links := [];
     WordCount := 0;
     Subsections := [] |}.

(** One turn of the loop over [mwSections]; the state is the heap,
    [sections] and [stack]. *)
Definition add_section (st : heap * list ptr * list ptr) (mwSec : MWSection.t)
  : heap * list ptr * list ptr :=
  let '(h, sections, stack) := st in
  let '(h, section) := alloc h (section_of mwSec) in
  let stack := pop_stack h stack (Level (deref h section)) in
  match stack with
  | [] => (h, sections ++ [section], [section])
  | parent :: _ => (append_child h parent section, sections, section :: stack)
  end.

Definition leadSection (leadContent : string) : WikiSection.t :=
  {| Index := 0;
     Title := "Lead";
     Level := 1;
     Preview := ExtractPreview leadContent 50;
     Content := EmptyString;
     Links := [];
     WordCount := CountWords leadContent;
     Subsections := [] |}.

(** [buildSectionsTree]: the sections it allocated and the list it
    returns. *)
Definition buildSectionsTree (mwSections : list MWSection.t)
    (wikiURL title leadContent : string) : heap * list ptr :=
  match mwSections with
  | [] => ([], [])
  | _ :: _ =>
      let '(h, lead) := alloc [] (leadSection leadContent) in
      let sections := [lead] in
      let stack := [] in
      let '(h, sections, _) := fold_left add_section mwSections (h, sections, stack) in
      (h, sections)
  end.

(** [countSubsectionWords].  The recursion follows pointers, so it is
    bounded by [fuel]; [None] is a recursion deeper than that. *)
Fixpoint countSubsectionWords (fuel : nat) (h : heap) (section : ptr) : option Z :=
  match fuel with
  | O => None
  | S fuel' =>
      fold_left
        (fun count sub =>
           match count, countSubsectionWords fuel' h sub with
           | Some count, Some below =>
               Some (add (add count (WordCount (deref h sub))) below)
           | _, _ => None
           end)
        (Subsections (deref h section)) (Some 0)
  end.

Definition is_meta (title : string) : bool :=
  HasPrefix title "Category:" || HasPrefix title "File:"
  || HasPrefix title "Wikipedia:" || HasPrefix title "Template:"
  || HasPrefix title "Help:".

Fixpoint seeAlso_loop (links : list MWLink) (seeAlso : list string)
    (seen : gmap string bool) : list string :=
  match links with
  | [] => seeAlso
  | link :: rest =>
      let title := MWLink_Title link in
      if is_meta title then seeAlso_loop rest seeAlso seen
      else if default false (seen !! title) then seeAlso_loop rest seeAlso seen
      else
        let seen := <[title := true]> seen in
        let seeAlso := seeAlso ++ [title] in
        if (10 <=? length seeAlso)%nat then seeAlso
        else seeAlso_loop rest seeAlso seen
  end.

Definition extractSeeAlsoLinks (links : list MWLink) : list string :=
  seeAlso_loop links [] ∅.

(** The parameters of the requests, as the operations build them with
    [params.Set]. *)
Definition outlineParams (title : string) : Values :=
  [("action", "parse"); ("page", title); ("prop", "sections|categories|links");
   ("disableeditsection", "1")].

Definition leadParams (title : string) : Values :=
  [("action", "parse"); ("page", title); ("prop", "text"); ("section", "0");
   ("disableeditsection", "1")].

Definition wikitextParams (title : string) : Values :=
  [("action", "query"); ("titles", title); ("prop", "revisions");
   ("rvprop", "content"); ("rvslots", "main")].

Definition sectionParams (title : string) (sectionIndex : Z) : Values :=
  [("action", "parse"); ("page", title); ("section", Itoa sectionIndex);
   ("prop", "text|links"); ("disableeditsection", "1")].

Definition searchParams (query : string) (limit : Z) : Values :=
  [("action", "query"); ("list", "search"); ("srsearch", query);
   ("srlimit", Itoa limit); ("srprop", "snippet|wordcount")].

Definition categoryParams (category : string) (limit : Z) : Values :=
  [("action", "query"); ("list", "categorymembers"); ("cmtitle", category);
   ("cmlimit", Itoa limit); ("cmprop", "title|type")].

Definition parentParams (category : string) : Values :=
  [("action", "query"); ("titles", category); ("prop", "categories");
   ("cllimit", "10")].

Definition getPageWikitext (client : Client) (wikiURL title : string) : M string :=
  let params := wikitextParams title in
  resp <- MakeRequest client wikiURL params ;;
  match mwResponse.Query resp with
  | None => fail (errorString "no pages found")
  | Some query =>
      match mwQuery.Pages query with
      | [] => fail (errorString "no pages found")
      | pages =>
          match List.find (fun page => negb (length (mwPage.Revisions (snd page)) =? 0)%nat)
                          pages with
          | Some (_, page) =>
              match mwPage.Revisions page with
              | rev0 :: _ => ret (mwRevision_Content rev0)
              | [] => fail (errorString "no revisions found")
              end
          | None => fail (errorString "no revisions found")
          end
      end
  end.

(** The loop that adds up the word counts; [None] as in
    [countSubsectionWords]. *)
Definition total_words (h : heap) (sections : list ptr) (start : Z) : option Z :=
  fold_left
    (fun total section =>
       match total, countSubsectionWords (S (length h)) h section with
       | Some total, Some below =>
           Some (add (add total (WordCount (deref h section))) below)
       | _, _ => None
       end)
    sections (Some start).

Definition GetPageOutline `{HtmlLib} (client : Client) (wikiURL title : string)
  : M PageOutline.t :=
  let cacheKey := PageCacheKey wikiURL (title +:+ ":outline") in
  hit <- cacheGet cacheKey ;;
  match hit with
  | Some (CachedOutline outline) => ret outline
  | Some _ => panic "interface conversion"
  | None =>
      let params := outlineParams title in
      resp <- wrap "get page outline" (MakeRequest client wikiURL params) ;;
      match mwResponse.Parse resp with
      | None => fail (errorString "empty parse response")
      | Some parse =>
          let leadParams := leadParams title in
          leadResp <- wrap "get lead section" (MakeRequest client wikiURL leadParams) ;;
          match mwResponse.Parse leadResp with
          | None => panic "nil pointer dereference"
          | Some leadParse =>
              leadMarkdown <- wrap "convert lead to markdown"
                                (liftR (HTMLToMarkdown (mwParse.Text leadParse))) ;;
              let summaryLinks := ExtractLinks (mwParse.Text leadParse) in
              let summary := ExtractPreview leadMarkdown 100 in
              let '(h, sections) :=
                buildSectionsTree (mwParse.Sections parse) wikiURL title leadMarkdown in
              let categories :=
                map (fun cat => TrimPrefix (mwCategory_Title cat) "Category:")
                    (mwParse.Categories parse) in
              let seeAlso := extractSeeAlsoLinks (mwParse.Links parse) in
              match total_words h sections (CountWords leadMarkdown) with
              | None => panic "stack overflow"
              | Some totalWords =>
                  wikitext <- attempt (getPageWikitext client wikiURL title) ;;
                  let infobox :=
                    match wikitext with
                    | Ok wikitext => ExtractInfobox wikitext
                    | Err _ => None
                    end in
                  let outline :=
                    {| PageOutline.Title := mwParse.Title parse;
                       PageOutline.Exists := true;
                       PageOutline.Summary := summary;
                       PageOutline.SummaryLinks := summaryLinks;
                       PageOutline.Infobox := infobox;
                       PageOutline.Heap := h;
                       PageOutline.Sections := sections;
                       PageOutline.Categories := categories;
                       PageOutline.SeeAlso := seeAlso;
                       PageOutline.TotalWordCount := totalWords |} in
                  cacheSet cacheKey (CachedOutline outline) (cacheTTL client) ;;;
                  ret outline
              end
          end
      end
  end.

(** *** [section.go] *)

Fixpoint flat_mapM {A B} (f : A -> option (list B)) (l : list A)
  : option (list B) :=
  match l with
  | [] => Some []
  | x :: rest =>
      match f x, flat_mapM f rest with
      | Some a, Some b => Some (a ++ b)
      | _, _ => None
      end
  end.

(** The closure [flatten] of [flattenSections]: each section, then what
    is below it when it has subsections.  The recursion follows pointers,
    so it is bounded by [fuel]; [None] is a recursion deeper than that. *)
Fixpoint flatten (fuel : nat) (h : heap) (secs : list ptr) : option (list ptr) :=
  match fuel with
  | O => None
  | S fuel' =>
      flat_mapM
        (fun sec =>
           match Subsections (deref h sec) with
           | [] => Some [sec]
           | subs => cons sec <$> flatten fuel' h subs
           end)
        secs
  end.

(** [flattenSections]; a chain of subsections is never longer than the
    number of sections allocated, unless the pointers form a cycle. *)
Definition flattenSections (h : heap) (sections : list ptr) : option (list ptr) :=
  flatten (S (length h)) h sections.

(** The position of the first section with the requested index. *)
Fixpoint find_target (h : heap) (flatSections : list ptr) (sectionIndex : Z) (i : nat)
  : option (nat * ptr) :=
  match flatSections with
  | [] => None
  | sec :: rest =>
      if Index (deref h sec) =? sectionIndex then Some (i, sec)
      else find_target h rest sectionIndex (S i)
  end.

(** [for j := i - 1; j >= 0; j--]: the nearest section before position [i]
    whose level is lower. *)
Definition find_parent (h : heap) (flatSections : list ptr) (i : nat) (level : Z)
  : option ptr :=
  List.find (fun p => Level (deref h p) <? level) (rev (firstn i flatSections)).

Definition ref_of (h : heap) (p : ptr) : SectionRef.t :=
  {| SectionRef.Index := Index (deref h p); SectionRef.Title := Title (deref h p) |}.

Definition GetPageSection `{HtmlLib} (client : Client) (wikiURL title : string)
    (sectionIndex : Z) : M PageSection.t :=
  let cacheKey := SectionCacheKey wikiURL title (Itoa sectionIndex) in
  hit <- cacheGet cacheKey ;;
  match hit with
  | Some (CachedSection pageSection) => ret pageSection
  | Some _ => panic "interface conversion"
  | None =>
      outline <- wrap "get page outline" (GetPageOutline client wikiURL title) ;;
      let h := PageOutline.Heap outline in
      match flattenSections h (PageOutline.Sections outline) with
      | None => panic "stack overflow"
      | Some flatSections =>
          match find_target h flatSections sectionIndex O with
          | None =>
              fail (SectionNotFoundError sectionIndex
                      (Z.of_nat (length flatSections)))
          | Some (i, targetSection) =>
              let parentSection :=
                find_parent h flatSections i (Level (deref h targetSection)) in
              let prevSection :=
                if (0 <? i)%nat then flatSections !! (i - 1)%nat else None in
              let nextSection :=
                if (i <? length flatSections - 1)%nat
                then flatSections !! (i + 1)%nat else None in
              let params := sectionParams title sectionIndex in
              resp <- wrap "get section" (MakeRequest client wikiURL params) ;;
              match mwResponse.Parse resp with
              | None => fail (errorString "empty parse response")
              | Some parse =>
                  markdown <- wrap "convert to markdown"
                                (liftR (HTMLToMarkdown (mwParse.Text parse))) ;;
                  let links := map MWLink_Title (mwParse.Links parse) in
                  let section :=
                    {| Index := Index (deref h targetSection);
                       Title := Title (deref h targetSection);
                       Level := Level (deref h targetSection);
                       Preview := EmptyString;
                       Content := markdown;
                       Links := links;
                       WordCount := CountWords markdown;
                       Subsections := [] |} in
                  let pageSection :=
                    {| PageSection.Title := title;
                       PageSection.Section_ := section;
                       PageSection.ParentSection := ref_of h <$> parentSection;
                       PageSection.Adjacent_ :=
                         Some {| Adjacent.Previous := ref_of h <$> prevSection;
                                 Adjacent.Next := ref_of h <$> nextSection |} |} in
                  cacheSet cacheKey (CachedSection pageSection) (cacheTTL client) ;;;
                  ret pageSection
              end
          end
      end
  end.

(** *** [search.go] *)

Definition SearchWiki `{HtmlLib} (client : Client) (wikiURL query : string)
    (limit : Z) : M SearchResponse.t :=
  let cacheKey := SearchCacheKey wikiURL (query +:+ ":" +:+ Itoa limit) in
  hit <- cacheGet cacheKey ;;
  match hit with
  | Some (CachedSearch searchResp) => ret searchResp
  | Some _ => panic "interface conversion"
  | None =>
      let params := searchParams query limit in
      resp <- wrap "search wiki" (MakeRequest client wikiURL params) ;;
      match mwResponse.Query resp with
      | None => fail (errorString "empty query response")
      | Some q =>
          let results :=
            map (fun result =>
                   let markdown :=
                     match HTMLToMarkdown (mwSearchResult.Snippet result) with
                     | Ok markdown => markdown
                     | Err _ => mwSearchResult.Snippet result
                     end in
                   let links := ExtractLinks (mwSearchResult.Snippet result) in
                   {| SearchResult.Title := mwSearchResult.Title result;
                      SearchResult.Snippet := markdown;
                      SearchResult.SnippetLinks := links;
                      SearchResult.WordCount := mwSearchResult.WordCount result |})
                (mwQuery.Search q) in
          let searchResp :=
            {| SearchResponse.Results := results;
               SearchResponse.TotalHits := Z.of_nat (length (mwQuery.Search q));
               SearchResponse.Suggestion :=
                 match mwQuery.SearchInfo q with
                 | Some suggestion =>
                     if isEmpty suggestion then None else Some suggestion
                 | None => None
                 end |} in
          (* [Set(cacheKey, searchResp, 1*60)]: the third argument is a
             [time.Duration], an integer number of nanoseconds. *)
          cacheSet cacheKey (CachedSearch searchResp) (1 * 60) ;;;
          ret searchResp
      end
  end.

(** *** [category.go] *)

Definition getParentCategories (client : Client) (wikiURL category : string)
  : M (list string) :=
  let params := parentParams category in
  resp <- MakeRequest client wikiURL params ;;
  match mwResponse.Query resp with
  | None => ret []
  | Some q =>
      match mwQuery.Pages q with
      | [] => ret []
      | pages =>
          ret (flat_map
                 (fun page =>
                    map (fun cat => TrimPrefix (mwCategory_Title cat) "Category:")
                        (mwPage.Categories (snd page)))
                 pages)
      end
  end.

(** [if !strings.HasPrefix(category, "Category:") { category = "Category:" + category }] *)
Definition categoryTitle (category : string) : string :=
  if HasPrefix category "Category:" then category else "Category:" +:+ category.

Definition GetCategory (client : Client) (wikiURL category : string) (limit : Z)
  : M CategoryResponse.t :=
  let cacheKey := CategoryCacheKey wikiURL (category +:+ ":" +:+ Itoa limit) in
  hit <- cacheGet cacheKey ;;
  match hit with
  | Some (CachedCategory categoryResp) => ret categoryResp
  | Some _ => panic "interface conversion"
  | None =>
      let category := categoryTitle category in
      let params := categoryParams category limit in
      resp <- wrap "get category" (MakeRequest client wikiURL params) ;;
      match mwResponse.Query resp with
      | None => fail (errorString "empty query response")
      | Some q =>
          let members :=
            map (fun member =>
                   let memberType :=
                     if String.eqb (mwCategoryMember.Type_ member) "subcat"
                     then "subcat" else "page" in
                   {| CategoryMember.Title := mwCategoryMember.Title member;
                      CategoryMember.Type_ := memberType |})
                (mwQuery.Categorymembers q) in
          parents <- attempt (getParentCategories client wikiURL category) ;;
          let parentCategories :=
            match parents with
            | Ok parentCategories => parentCategories
            | Err _ => []
            end in
          let categoryResp :=
            {| CategoryResponse.Category := TrimPrefix category "Category:";
               CategoryResponse.Members := members;
               CategoryResponse.ParentCategories := parentCategories;
               CategoryResponse.TotalMembers := Z.of_nat (length members) |} in
          cacheSet cacheKey (CachedCategory categoryResp) (cacheTTL client) ;;;
          ret categoryResp
      end
  end.

End Tools.

(** ** Shapes of heaps, for the statements about section trees *)

Module TreeSpec.
Import Go Wiki Tools.
Import WikiSection.

(** The list starts with a lead section: index 0, level 1, title "Lead". *)
Definition lead_first (r : heap * list ptr) : Prop :=
  exists p rest,
    snd r = p :: rest /\
    Index (deref (fst r) p) = 0 /\
    Level (deref (fst r) p) = 1 /\
    Title (deref (fst r) p) = "Lead".

(** What a caller sees of a section. *)
Definition view (h : heap) (p : ptr) : Z * string * Z :=
  (Index (deref h p), Title (deref h p), Level (deref h p)).

(** What [buildSectionsTree] makes of an entry of the table of contents. *)
Definition view_of_entry (e : MWSection.t) : Z * string * Z :=
  (Strconv.Atoi (MWSection.Index e), MWSection.Line e, add (MWSection.TocLevel e) 1).

(** The tree below a list of addresses, read back from the heap. *)
#[warnings="-register-all"]
Inductive tree : Type :=
| Node (label : Z * string * Z) (children : list tree).

Fixpoint read_forest (fuel : nat) (h : heap) (ps : list ptr) : list tree :=
  match fuel with
  | O => []
  | S fuel' =>
      map (fun p => Node (view h p) (read_forest fuel' h (Subsections (deref h p)))) ps
  end.

(** [stack], bottom first, runs down the right edge of the forest below
    [roots]: its first element is the last root, the next one the last
    subsection of that, and so on. *)
Inductive spine (h : heap) : list ptr -> list ptr -> Prop :=
| spine_nil roots : spine h roots []
| spine_cons roots q st :
    last roots = Some q ->
    spine h (Subsections (deref h q)) st ->
    spine h roots (q :: st).

(** What holds of the heap, [sections] and [stack] after the loop of
    [buildSectionsTree] has gone through [entries]: flattening visits the
    sections in the order of allocation, the stack runs down the right
    edge, and the sections show the lead and then the entries. *)
Definition built (entries : list MWSection.t) (lead : Z * string * Z)
    (st : heap * list ptr * list ptr) : Prop :=
  let '(h, sections, stack) := st in
  flatten (length h) h sections = Some (seq 0 (length h)) /\
  spine h sections (rev stack) /\
  map (view h) (seq 0 (length h)) = lead :: map view_of_entry entries.

End TreeSpec.

(** ** Stand-ins for the network and the HTML libraries, for examples *)

Module Mock.
Import Go Wiki Markdown Tools.

(** Markdown conversion that returns its input; the anchors of a document
    are given as its lines. *)
Definition html_lines : HtmlLib :=
  {| ConvertString := fun html => Ok html;
     anchor_hrefs := fun html => Some (map Some (GoStrings.Split html GoStrings.nl)) |}.

Definition toc (level : Z) (line index : string) : MWSection.t :=
  {| MWSection.TocLevel := level; MWSection.Level := EmptyString;
     MWSection.Line := line; MWSection.Number := EmptyString;
     MWSection.Index := index |}.

(** A page with a lead and three headings, at levels 1, 2, 1 of the table
    of contents. *)
Definition page_parse : mwParse.t :=
  {| mwParse.Title := "Ada Lovelace";
     mwParse.Text := "<p>Some text</p>";
     mwParse.Sections := [toc 1 "Life" "1"; toc 2 "Childhood" "2"; toc 1 "Work" "3"];
     mwParse.Categories := [ {| mwCategory_Title := "Category:Mathematicians" |} ];
     mwParse.Links := [ {| MWLink_Title := "Charles Babbage" |} ] |}.

Definition search_query : mwQuery.t :=
  {| mwQuery.Search :=
       [ {| mwSearchResult.Title := "Ada Lovelace";
            mwSearchResult.Snippet := "/wiki/Ada_Lovelace";
            mwSearchResult.WordCount := 1200 |} ];
     mwQuery.SearchInfo := None;
     mwQuery.Pages := [];
     mwQuery.Categorymembers :=
       [ {| mwCategoryMember.Title := "Ada Lovelace";
            mwCategoryMember.Type_ := "page" |} ] |}.

Definition param (params : Values) (name : string) : string :=
  match List.find (fun kv => String.eqb (fst kv) name) params with
  | Some (_, v) => v
  | None => EmptyString
  end.

(** A wiki that answers [parse] requests with the page above, [list]
    queries with the query above, and fails every other request (the
    fetch of the wikitext and of the parent categories among them).
    Every request takes a millisecond. *)
Definition wiki_respond (w : World) (wikiURL : string) (params : Values)
  : result mwResponse.t * N :=
  if String.eqb (param params "action") "parse" then
    (Ok {| mwResponse.Query := None; mwResponse.Parse := Some page_parse |}, 1000000%N)
  else if negb (isEmpty (param params "list")) then
    (Ok {| mwResponse.Query := Some search_query; mwResponse.Parse := None |}, 1000000%N)
  else (Err (APIError "maxlag" "Waiting for a database server"), 1000000%N).

Definition client : Client :=
  {| cacheTTL := 300 * Cache.Second;
     cacheTTLInfo := 3600 * Cache.Second;
     respond := wiki_respond |}.

Definition start : World := {| items := ∅; now := 0; requests := [] |}.

(** The same state, [d] nanoseconds later. *)
Definition later (d : Z) (w : World) : World :=
  {| items := items w; now := now w + d; requests := requests w |}.

End Mock.

(** ** Inputs used in the examples *)

Module Examples.
Import GoStrings MarkdownSpec.

(** The wikitext of the infobox example in the specification. *)
Definition ada : string :=
  "{{Infobox person" +:+ nl +:+
  "| name = Ada Lovelace" +:+ nl +:+
  "| birth_date = {{birth date|1815|12|10}}" +:+ nl +:+
  "}}".


(** Two blank lines between two words: three newline characters. *)
Definition two_blank_lines : string := "a" +:+ run 3 +:+ "b".

End Examples.

(** ** The tail of a cache key, for the statements about [CacheKey]

    This definition does not come from the sources; it names what the loop
    of [CacheKey] appends. *)

Module CacheKeySpec.
Import GoStrings.

(** The text [CacheKey_loop] appends for the parts after the first. *)
Fixpoint key_tail (parts : list string) : string :=
  match parts with
  | [] => EmptyString
  | part :: rest => ":" +:+ part +:+ key_tail rest
  end.

End CacheKeySpec.

(** ** Lists without repetitions, for the statements about link lists

    These definitions do not come from the sources; they say what the loops
    that collect titles are compared with. *)

Module ListSpec.

(** The elements of [l] that are not in [seen], each at its first
    occurrence. *)
Fixpoint distinct_go (seen l : list string) : list string :=
  match l with
  | [] => []
  | x :: rest =>
      if bool_decide (x ∈ seen) then distinct_go seen rest
      else x :: distinct_go (x :: seen) rest
  end.

(** The distinct elements of [l], in the order of their first occurrence. *)
Definition distinct (l : list string) : list string := distinct_go [] l.

End ListSpec.

(** ** Runs of white space, for the statements about infobox values

    This definition does not come from the sources; it says what replacing
    [\s+] by one space is compared with. *)

Module SpaceSpec.
Import Regexp.

(** Every run of characters that [\s] matches becomes one space;
    [in_run] says that the character before was one of them. *)
Fixpoint collapse_go (s : string) (in_run : bool) : string :=
  match s with
  | EmptyString => EmptyString
  | String c cs =>
      if perl_space c then
        if in_run then collapse_go cs true else String " " (collapse_go cs true)
      else String c (collapse_go cs false)
  end.

End SpaceSpec.

(** ** What the entries of an infobox map are, for the statements about
    them *)

Module InfoboxSpec.
Import GoStrings Infobox MarkdownSpec.

(** A key: not empty, without white space at either end, without ["="]. *)
Definition good_key (k : string) : Prop :=
  k <> EmptyString /\ trimmed k = true /\ Contains k "=" = false.

(** Every entry has a good key and a cleaned value. *)
Definition good_map (result : gmap string string) : Prop :=
  forall k v, result !! k = Some v ->
    good_key k /\ exists raw, v = cleanInfoboxValue raw.

End InfoboxSpec.

(** ** Levels in the heap, for the statements about nesting *)

Module NestSpec.
Import Go Wiki Tools.
Import WikiSection.

(** The level of the section at an address. *)
Definition level_at (h : heap) (p : ptr) : Z := Level (deref h p).

(** [p] is the nearest section before [c] that has a lower level. *)
Definition nearest_lower (h : heap) (p c : ptr) : Prop :=
  (p < c)%nat /\ level_at h p < level_at h c /\
  forall j, (p < j < c)%nat -> level_at h c <= level_at h j.

(** No section after the lead and before [c] has a lower level than [c]. *)
Definition none_lower (h : heap) (c : ptr) : Prop :=
  forall j, (0 < j < c)%nat -> level_at h c <= level_at h j.

(** The stack below the section [above], top first: each element is the
    nearest section with a lower level before the one above it. *)
Fixpoint chain (h : heap) (above : ptr) (stack : list ptr) : Prop :=
  match stack with
  | [] => none_lower h above
  | q :: rest => (0 < q)%nat /\ nearest_lower h q above /\ chain h q rest
  end.

(** What holds of the heap, [sections] and [stack] in the loop of
    [buildSectionsTree]; [wc] is the word count of the lead. *)
Definition nested (wc : Z) (st : heap * list ptr * list ptr) : Prop :=
  let '(h, sections, stack) := st in
  (forall p c, c ∈ Subsections (deref h p) ->
     (0 < p)%nat /\ (c < length h)%nat /\ nearest_lower h p c) /\
  (exists tops, sections = O :: tops /\
     Forall (fun c => (0 < c < length h)%nat /\ none_lower h c) tops) /\
  match stack with
  | [] => length h = 1%nat
  | top :: rest => S top = length h /\ (0 < top)%nat /\ chain h top rest
  end /\
  WordCount (deref h O) = wc /\ level_at h O = 1 /\
  (forall p, (0 < p)%nat -> WordCount (deref h p) = 0).

End NestSpec.

(** ** [internal/mcp/errors.go]: structured error responses *)

Module Mcp.
Import GoStrings Go Strconv.

(** [err.Error()]: [fmt.Errorf] with [%w] prints the wrapped error after
    the prefix; the two error types of the packages have [Error] methods
    of their own. *)
Fixpoint Error_ (err : error) : string :=
  match err with
  | errorString msg => msg
  | wrapError prefix err => prefix +:+ ": " +:+ Error_ err
  | APIError Code Message =>
      "mediawiki api error: " +:+ Code +:+ ": " +:+ Message
  | SectionNotFoundError SectionIndex AvailableSections =>
      "section index " +:+ Itoa SectionIndex +:+ " does not exist (page has "
      +:+ Itoa AvailableSections +:+ " sections)"
  end.

(** [ErrorResponse]; the details hold integers only; [None] is the nil
    map. *)
Record ErrorResponse : Type := mkErrorResponse {
  Error : string;
  Message : string;
  Hint : string;
  Details : option (gmap string Z)
}.

Definition with_Hint (hint : string) (resp : ErrorResponse) : ErrorResponse :=
  {| Error := Error resp; Message := Message resp; Hint := hint;
     Details := Details resp |}.

Definition formatAPIError (Code Message : string) : ErrorResponse :=
  let resp := {| Error := Code; Message := Message; Hint := EmptyString;
                 Details := None |} in
  if String.eqb Code "missingtitle" then
    with_Hint "The page doesn't exist. Try using wiki_search to find the correct title." resp
  else if String.eqb Code "nosuchsection" then
    with_Hint "The section doesn't exist. Call wiki_page_outline to get fresh section indices." resp
  else if String.eqb Code "maxlag" then
    with_Hint "The wiki server is experiencing high load. Wait a moment and try again." resp
  else resp.

Definition formatSectionNotFoundError (SectionIndex AvailableSections : Z)
  : ErrorResponse :=
  {| Error := "section_not_found";
     Message := Error_ (SectionNotFoundError SectionIndex AvailableSections);
     Hint := "Call wiki_page_outline to get fresh section indices.";
     Details := Some (<["available_sections" := AvailableSections]>
                        (<["section_index" := SectionIndex]> ∅)) |}.

(** [FormatError]; [None] is the nil error and the nil response.  The type
    switch looks at the dynamic type of [err] itself: an error wrapped by
    [fmt.Errorf] is of neither of the two types. *)
Definition FormatError (err : option error) : option ErrorResponse :=
  match err with
  | None => None
  | Some (APIError Code Message) => Some (formatAPIError Code Message)
  | Some (SectionNotFoundError SectionIndex AvailableSections) =>
      Some (formatSectionNotFoundError SectionIndex AvailableSections)
  | Some err =>
      Some {| Error := "internal_error"; Message := Error_ err;
              Hint := EmptyString; Details := None |}
  end.

Definition FormatErrorString (code message : string) : ErrorResponse :=
  {| Error := code; Message := message; Hint := EmptyString; Details := None |}.

End Mcp.

(** ** Discovery of the API path ([client.go]) *)

Module ApiPath.
Import GoStrings Go.

(** [http.StatusOK] *)
Definition StatusOK : Z := 200.

(** The fields of [Client] that [getAPIPath] works on, with the network.
    - [apiPaths] is the map [c.apiPaths];
    - [sent] lists the URLs [c.httpClient.Do] was called with, oldest
      first;
    - [net] is the state of the servers, which decides the answers and may
      change with each request.
    The model follows one goroutine; the two locks guard single map
    operations and are left out. *)
Record PathClient (Net : Type) : Type := mkPathClient {
  apiPaths : gmap string string;
  sent : list string;
  net : Net
}.
Arguments mkPathClient {Net} _ _ _.
Arguments apiPaths {Net} _.
Arguments sent {Net} _.
Arguments net {Net} _.

(** The HTTP library.
    - [valid url]: [http.NewRequestWithContext] returns no error;
    - [Do url n]: [c.httpClient.Do(req)], [None] for an error and the
      status code of the response otherwise, with the next state. *)
Class Http (Net : Type) : Type := {
  valid : string -> bool;
  Do : string -> Net -> option Z * Net
}.

Definition paths : list string := ["/api.php"; "/w/api.php"].

Definition testURL (wikiURL path : string) : string :=
  let apiURL := wikiURL +:+ path in
  apiURL +:+ "?action=query&meta=siteinfo&format=json".

(** The loop over [paths]; [None] when it runs to its end. *)
Fixpoint try_paths `{Http Net} (wikiURL : string) (rest : list string)
    (c : PathClient Net) : option string * PathClient Net :=
  match rest with
  | [] => (None, c)
  | path :: rest =>
      if negb (valid (testURL wikiURL path)) then try_paths wikiURL rest c
      else
        let '(resp, n) := Do (testURL wikiURL path) (net c) in
        let c := {| apiPaths := apiPaths c;
                    sent := sent c ++ [testURL wikiURL path];
                    net := n |} in
        match resp with
        | None => try_paths wikiURL rest c
        | Some StatusCode =>
            if StatusCode =? StatusOK then
              (Some path,
               {| apiPaths := <[wikiURL := path]> (apiPaths c);
                  sent := sent c; net := net c |})
            else try_paths wikiURL rest c
        end
  end.

(** [fmt.Errorf("could not find valid API endpoint for %s (tried %v)",
    wikiURL, paths)]; [%v] writes a slice of strings between square
    brackets, with spaces between the elements. *)
Definition no_endpoint (wikiURL : string) : error :=
  errorString ("could not find valid API endpoint for " +:+ wikiURL +:+
               " (tried [" +:+ Join paths " " +:+ "])").

Definition getAPIPath `{Http Net} (wikiURL : string) (c : PathClient Net)
  : result string * PathClient Net :=
  match apiPaths c !! wikiURL with
  | Some path => (Ok path, c)
  | None =>
      match try_paths wikiURL paths c with
      | (Some path, c) => (Ok path, c)
      | (None, c) => (Err (no_endpoint wikiURL), c)
      end
  end.

End ApiPath.

(** A wiki that answers under [/w/api.php] only, and one that answers
    nowhere. *)
Module ApiPathExamples.
Import GoStrings Go ApiPath.

#[export] Instance counting : Http nat := {
  valid := fun _ => true;
  Do := fun url n =>
    (if String.eqb url "https://w.example/w/api.php?action=query&meta=siteinfo&format=json"
     then Some 200
     else if HasPrefix url "https://down.example" then None
     else Some 404,
     S n)
}.

Definition fresh : PathClient nat := mkPathClient ∅ [] O.

End ApiPathExamples.

(** ** The templates of a wikitext, for the statement about infoboxes

    These definitions do not come from the sources; they say what a
    template of a page is, so that a page without an infobox template can
    be told from a page in which the characters [{{Infobox] occur.  A
    template is an opening [{{] together with the [}}] that closes it; a
    [}}] closes the nearest [{{] that is still open, and a [{{] that is
    never closed is text of the page.  The name of a template is what
    stands between its [{{] and the first [|] or [}], without the white
    space around it. *)

Module WikitextSpec.
Import GoStrings Regexp.




End WikitextSpec.

(* ================================================================== *)
(** * Part II. Properties                                              *)
(* ================================================================== *)

Module GoStringsTests.
Import GoStrings.

Example Split_lines :
  Split ("a" +:+ nl +:+ "bc" +:+ nl) nl = ["a"; "bc"; EmptyString].
Proof. reflexivity. Qed.

Example SplitN2_eq : SplitN2 " a = b = c" "=" = [" a "; " b = c"].
Proof. reflexivity. Qed.

Example TrimSpace_both : TrimSpace ("  " +:+ nl +:+ "a b " +:+ nl) = "a b".
Proof. reflexivity. Qed.

Example TrimSpace_nbsp : TrimSpace (bytes [194; 160; 97; 226; 128; 168]%nat) = "a".
Proof. reflexivity. Qed.

Example Fields_words : Fields (" ab  c" +:+ nl +:+ "d ") = ["ab"; "c"; "d"].
Proof. reflexivity. Qed.

Example ReplaceAll_quotes : ReplaceAll "'''a''' ''b''" "'''" EmptyString = "a ''b''".
Proof. reflexivity. Qed.

End GoStringsTests.

(** ** The TTL cache *)

Module CacheProps.
Import Cache.

Section WithValue.
Context {V : Type}.
Implicit Types (c : items V) (key : string) (v : V).

Lemma After_true t u : After t u = true <-> u < t.
Proof. unfold After. apply bool_decide_eq_true. Qed.

Lemma After_false t u : After t u = false <-> t <= u.
Proof. unfold After. rewrite bool_decide_eq_false. lia. Qed.

Lemma Get_Set_eq c key v ttl t0 now :
  Get (Set_ c key v ttl t0) key now
  = if After now (t0 + ttl) then None else Some v.
Proof. unfold Get, Set_. by rewrite lookup_insert_eq. Qed.

Lemma Get_Set_ne c key key' v ttl t0 now :
  key <> key' -> Get (Set_ c key v ttl t0) key' now = Get c key' now.
Proof. intros Hne. unfold Get, Set_. by rewrite lookup_insert_ne. Qed.

Lemma Get_unset c key now : c !! key = None -> Get c key now = None.
Proof. intros H. unfold Get. by rewrite H. Qed.

(** A sweep never changes what a later [Get] answers: it only drops
    entries that [Get] already treats as absent. *)
Lemma Get_cleanup c key t now :
  t <= now -> Get (cleanup c t) key now = Get c key now.
Proof.
  intros Hle. unfold Get, cleanup.
  destruct (c !! key) as [item|] eqn:Hc.
  - destruct (After t (expiration item)) eqn:Hexp.
    + rewrite (proj2 (map_lookup_filter_None _ c key)).
      * apply After_true in Hexp.
        by rewrite (proj2 (After_true now (expiration item))) by lia.
      * right. intros x Hx. simpl. rewrite Hc in Hx. injection Hx as <-.
        by rewrite Hexp.
    + rewrite (map_lookup_filter_Some_2 _ c key item); [done | done |].
      simpl. by rewrite Hexp.
  - rewrite (proj2 (map_lookup_filter_None _ c key)); [done | by left].
Qed.

End WithValue.

(** C6. After [Set(key, value, T)] at instant [t0], [Get(key)] answers
    [(value, true)] at every instant strictly before [t0 + T] and
    [(nil, false)] at every instant after it, whether or not a sweep (at
    any instant up to the read) has run in between; a key that was never
    set answers [(nil, false)]. *)
Theorem C6_get_after_set (V : Type) (c : items V) (key : string) (v : V)
    (T t0 now : Z) :
  (now < t0 + T -> Get (Set_ c key v T t0) key now = Some v) /\
  (t0 + T < now -> Get (Set_ c key v T t0) key now = None) /\
  (forall sweep, sweep <= now ->
     Get (cleanup (Set_ c key v T t0) sweep) key now
     = Get (Set_ c key v T t0) key now) /\
  (c !! key = None -> Get c key now = None) /\
  Get (@NewCache V) key now = None.
Proof.
  split; [| split; [| split; [| split]]].
  - intros H. rewrite Get_Set_eq.
    by rewrite (proj2 (After_false now (t0 + T))) by lia.
  - intros H. rewrite Get_Set_eq.
    by rewrite (proj2 (After_true now (t0 + T))) by lia.
  - intros sweep H. by apply Get_cleanup.
  - apply Get_unset.
  - reflexivity.
Qed.

Lemma C6_get_after_set_witness :
  Get (Set_ (@NewCache nat) "k" 7%nat (5 * Minute) 100) "k" (100 + Minute)
    = Some 7%nat /\
  Get (Set_ (@NewCache nat) "k" 7%nat (5 * Minute) 100) "k" (101 + 5 * Minute)
    = None /\
  Get (cleanup (Set_ (@NewCache nat) "k" 7%nat (5 * Minute) 100) 50) "k" 60
    = Some 7%nat /\
  Get (@NewCache nat) "k" 0 = None.
Proof.
  pose proof (C6_get_after_set nat NewCache "k" 7%nat (5 * Minute) 100) as H.
  split; [| split; [| split]].
  - destruct (H (100 + Minute)) as (H1 & _). apply H1. vm_compute. reflexivity.
  - destruct (H (101 + 5 * Minute)) as (_ & H2 & _). apply H2.
    vm_compute. reflexivity.
  - destruct (H 60) as (H1 & _ & H3 & _).
    rewrite (H3 50) by lia. apply H1. vm_compute. reflexivity.
  - destruct (H 0) as (_ & _ & _ & H4 & _). apply H4. reflexivity.
Defined.

(** C10. [CacheKey] joins its parts with [":"] and escapes nothing, so it
    is not injective: the one-part sequence ["a:b"] and the two-part
    sequence ["a"; "b"] give the same key, and two different requests (here
    different (wiki URL, title) pairs, different section requests and
    different searches) share a cache entry.  So do the outline of the page
    ["Go"], stored under the title followed by [":outline"], and anything
    stored for a page that is called ["Go:outline"]. *)
Theorem C10_CacheKey_not_injective :
  CacheKey ["a:b"] = CacheKey ["a"; "b"] /\
  ["a:b"] <> ["a"; "b"] /\
  ~ (forall p q : list string, CacheKey p = CacheKey q -> p = q) /\
  (exists w1 t1 w2 t2,
      (w1, t1) <> (w2, t2) /\ PageCacheKey w1 t1 = PageCacheKey w2 t2) /\
  (exists w1 t1 i1 w2 t2 i2,
      (w1, t1, i1) <> (w2, t2, i2) /\
      SectionCacheKey w1 t1 i1 = SectionCacheKey w2 t2 i2) /\
  (exists w1 q1 w2 q2,
      (w1, q1) <> (w2, q2) /\ SearchCacheKey w1 q1 = SearchCacheKey w2 q2) /\
  PageCacheKey "https://en.wikipedia.org" ("Go" +:+ ":outline")
  = PageCacheKey "https://en.wikipedia.org" "Go:outline".
Proof.
  split; [reflexivity |]. split; [discriminate |]. split.
  - intros Hinj. specialize (Hinj ["a:b"] ["a"; "b"] eq_refl). discriminate.
  - split; [| split; [| split]].
    + exists "https://w", "Help:Contents", "https://w:Help", "Contents".
      split; [discriminate | reflexivity].
    + exists "w", "Talk:X", "3", "w:Talk", "X", "3".
      split; [discriminate | reflexivity].
    + exists "w", "a:b", "w:a", "b".
      split; [discriminate | reflexivity].
    + reflexivity.
Qed.

End CacheProps.

Module RegexpTests.
Import GoStrings Regexp.

Example expand_dates :
  expand [(3, "10"); (2, "12"); (1, "1815")]%nat "$1-$2-$3" = "1815-12-10".
Proof. reflexivity. Qed.

(** [$1x] names the group [1x], which does not exist. *)
Example expand_longest_name : expand [(1, "a")]%nat "$1x-${1}x-$$" = "-ax-$".
Proof. reflexivity. Qed.

Example lazy_then_greedy :
  FindStringSubmatch
    (seq_of [Lit "a"; Grp 1 (Rep false 0 any_char); Lit "b"; Grp 2 (Rep true 0 any_char); Lit "b"])
    2 "xaXbYbZb" = Some ["aXbYbZb"; "X"; "YbZ"].
Proof. reflexivity. Qed.

Example replace_runs :
  ReplaceAllString (Rep true 2 (chr "a")) "baaab aa a" "<$0>" = "b<aaa>b <aa> a".
Proof. reflexivity. Qed.

End RegexpTests.

Module InfoboxTests.
Import GoStrings Regexp Go Infobox.

Example link_alias :
  cleanInfoboxValue "[[London|the city]], [[England]]" = "the city, England".
Proof. vm_compute. reflexivity. Qed.

Example circa_flag :
  cleanInfoboxValue "{{circa|1900}} in {{flag|USA}} {{age|1|2|3}}<br/>'''x'''"
  = "circa 1900 in USA x".
Proof. vm_compute. reflexivity. Qed.

End InfoboxTests.

Module MarkdownTests.
Import GoStrings Regexp Go Markdown.

Example cleanup_two_blank_lines :
  cleanupMarkdown (" a" +:+ nl +:+ nl +:+ nl +:+ "b" +:+ nl)
  = "a" +:+ nl +:+ nl +:+ "b".
Proof. vm_compute. reflexivity. Qed.

Example href_wiki :
  extractTitleFromHref "/wiki/Go_(programming_language)#History"
  = "Go (programming language)".
Proof. vm_compute. reflexivity. Qed.

Example href_query :
  extractTitleFromHref "/w/index.php?title=Ada_Lovelace&action=edit#top"
  = "Ada Lovelace".
Proof. vm_compute. reflexivity. Qed.

Example count_words :
  CountWords "# A **bold** [link](http://x) and `code` here" = 5.
Proof. vm_compute. reflexivity. Qed.

Example preview_cut : ExtractPreview "one two three four" 3 = "one two three...".
Proof. vm_compute. reflexivity. Qed.

End MarkdownTests.

(** ** Facts about strings *)

Module StringFacts.
Import GoStrings.

Lemma app_nil_r (s : string) : s +:+ EmptyString = s.
Proof. induction s as [|c s IH]; simpl; congruence. Qed.

Lemma app_assoc (a b c : string) : (a +:+ b) +:+ c = a +:+ (b +:+ c).
Proof. induction a as [|x a IH]; simpl; congruence. Qed.

Lemma length_app (a b : string) :
  String.length (a +:+ b) = (String.length a + String.length b)%nat.
Proof. induction a as [|x a IH]; simpl; congruence. Qed.

Lemma take_drop (n : nat) (s : string) : take n s +:+ drop n s = s.
Proof.
  revert s. induction n as [|n IH]; intros [|c s]; simpl; try reflexivity.
  by rewrite IH.
Qed.

Lemma drop_app_length (a b : string) : drop (String.length a) (a +:+ b) = b.
Proof. induction a as [|x a IH]; simpl; auto. Qed.

Lemma take_app_length (a b : string) : take (String.length a) (a +:+ b) = a.
Proof. induction a as [|x a IH]; simpl; congruence. Qed.

Lemma HasPrefix_app (p b : string) : HasPrefix (p +:+ b) p = true.
Proof. induction p as [|c p IH]; simpl; [done|]. by rewrite Ascii.eqb_refl. Qed.

Lemma HasPrefix_inv (s p : string) :
  HasPrefix s p = true -> s = p +:+ drop (String.length p) s.
Proof.
  revert s. induction p as [|c p IH]; intros s H; simpl in *; [done|].
  destruct s as [|c' s]; [done|].
  destruct (Ascii.eqb c c') eqn:E; [|done].
  apply Ascii.eqb_eq in E. subst c'. simpl. f_equal. by apply IH.
Qed.

Lemma HasPrefix_iff (s p : string) :
  HasPrefix s p = true <-> exists b, s = p +:+ b.
Proof.
  split.
  - intros H. eexists. by apply HasPrefix_inv.
  - intros [b ->]. apply HasPrefix_app.
Qed.

(** No occurrence at all, as [strings.Index] reports with [-1]. *)
Lemma Index_None_iff (s p : string) :
  Index s p = None <-> forall a b, s <> a +:+ p +:+ b.
Proof.
  induction s as [|c s IH].
  - simpl. destruct (HasPrefix EmptyString p) eqn:E.
    + split; [done|]. intros H. exfalso.
      apply HasPrefix_iff in E as [b Hb]. apply (H EmptyString b). exact Hb.
    + split; [|done]. intros _ a b Hab.
      destruct a; simpl in Hab; [|done].
      assert (HasPrefix EmptyString p = true) by (rewrite Hab; apply HasPrefix_app).
      congruence.
  - simpl. destruct (HasPrefix (String c s) p) eqn:E.
    + split; [done|]. intros H. exfalso.
      apply HasPrefix_iff in E as [b Hb]. apply (H EmptyString b). exact Hb.
    + destruct (Index s p) as [i|] eqn:Hi; simpl.
      * split; [done|]. intros H. exfalso.
        assert (Some i = None) as Hcontra; [|done].
        apply IH. intros a b Hab. apply (H (String c a) b). simpl. by rewrite Hab.
      * split; [|done]. intros _ a b Hab.
        destruct a as [|x a]; simpl in Hab.
        -- assert (HasPrefix (String c s) p = true)
             by (rewrite Hab; apply HasPrefix_app).
           congruence.
        -- injection Hab as -> Hs. by apply (proj1 IH eq_refl a b).
Qed.

Lemma Contains_false_iff (s p : string) :
  Contains s p = false <-> forall a b, s <> a +:+ p +:+ b.
Proof.
  unfold Contains. rewrite bool_decide_eq_false, <- Index_None_iff.
  destruct (Index s p); split; intros H; try done.
  exfalso. apply H. by eexists.
Qed.

End StringFacts.

(** ** The regular-expression matcher *)

Module RegexpFacts.
Import GoStrings Regexp StringFacts.



End RegexpFacts.

(** ** Infobox extraction *)

Module InfoboxProps.
Import GoStrings Regexp Go Infobox Examples StringFacts RegexpFacts.



Import WikitextSpec.


End InfoboxProps.

(** ** Markdown clean-up: the regular expression against the squeeze *)

Module SqueezeFacts.
Import GoStrings Regexp Go Markdown MarkdownSpec StringFacts.

Lemma rep_greedy_accept {A} (p : ascii -> bool) (f : nat -> A) (s : string) :
  forall min pos,
    rep_greedy p min pos s (fun e _ => Some (f e))
    = if (min <=? String.length (take_while p s))%nat
      then Some (f (pos + String.length (take_while p s))%nat)
      else None.
Proof.
  induction s as [|c s IH]; intros min pos.
  - simpl. destruct min; simpl; [by rewrite Nat.add_0_r | done].
  - cbn [rep_greedy take_while]. destruct (p c) eqn:Hp.
    + rewrite IH. cbn [String.length].
      destruct min as [|m]; cbn [Nat.pred].
      * simpl. by rewrite Nat.add_succ_r.
      * change (S m <=? S (String.length (take_while p s)))%nat
          with (m <=? String.length (take_while p s))%nat.
        destruct (m <=? String.length (take_while p s))%nat; [|done].
        by rewrite Nat.add_succ_r.
    + destruct min; simpl; [by rewrite Nat.add_0_r | done].
Qed.

Lemma lead_take_while (s : string) :
  String.length (take_while (chr LF) s) = lead s.
Proof.
  induction s as [|c s IH]; [done|]. cbn [take_while lead].
  destruct (chr LF c); cbn [String.length]; congruence.
Qed.

Lemma match_here_newlines (pos : nat) (s : string) :
  match_here excessiveNewlines pos s
  = if (3 <=? lead s)%nat then Some ((pos + lead s)%nat, []) else None.
Proof.
  unfold match_here, excessiveNewlines. cbn [rmatch].
  rewrite (rep_greedy_accept (chr LF) (fun e => (e, @nil (nat * string)))).
  by rewrite lead_take_while.
Qed.

Lemma squeeze_go_ge2 (s : string) :
  forall seen, (2 <= seen)%nat -> squeeze_go s seen = squeeze_go s 2.
Proof.
  induction s as [|c s IH]; intros seen H; [done|].
  cbn [squeeze_go]. destruct (chr LF c); [|done].
  destruct (Nat.ltb_spec seen 2); [lia|]. cbn.
  rewrite (IH (S seen)) by lia. by rewrite (IH 3%nat) by lia.
Qed.

Lemma squeeze_go_short (s : string) :
  forall seen, (seen + lead s <= 2)%nat -> squeeze_go s seen = squeeze_go s 0.
Proof.
  induction s as [|c s IH]; intros seen H; [done|].
  cbn [squeeze_go lead] in *. destruct (chr LF c); [|done].
  destruct (Nat.ltb_spec seen 2); [|lia]. cbn.
  rewrite (IH (S seen)) by lia. by rewrite (IH 1%nat) by lia.
Qed.

Lemma squeeze_go_lead0 (s : string) (a b : nat) :
  lead s = O -> squeeze_go s a = squeeze_go s b.
Proof.
  destruct s as [|c s]; [done|]. cbn [squeeze_go lead].
  by destruct (chr LF c).
Qed.

Local Abbreviation newline_repl :=
  (fun (m : string) (caps : captures) => expand ((O, m) :: caps) (nl +:+ nl)).

Lemma replace_loop_squeeze (s : string) :
  forall pos adj,
    replace_loop excessiveNewlines newline_repl pos s O adj = squeeze_go s 0 /\
    (forall seen, (2 <= seen)%nat ->
       replace_loop excessiveNewlines newline_repl pos s (lead s) adj
       = squeeze_go s seen).
Proof.
  induction s as [|c s IH]; intros pos adj.
  - split; [|intros seen _]; cbn [lead replace_loop];
      rewrite match_here_newlines; reflexivity.
  - assert (replace_loop excessiveNewlines newline_repl pos (String c s) 0 adj
            = squeeze_go (String c s) 0) as Hpart1.
    { cbn [replace_loop]. rewrite match_here_newlines.
      cbn [lead squeeze_go]. destruct (chr LF c) eqn:Hc.
      - destruct (Nat.leb_spec 3 (S (lead s))) as [Hge|Hlt].
        + replace (pos + S (lead s) - pos)%nat with (S (lead s)) by lia.
          destruct (IH (S pos) (lead s =? 0)%nat) as [_ IH2].
          rewrite (IH2 2%nat) by lia.
          destruct s as [|c2 s]; [simpl in Hge; lia|].
          cbn [lead] in Hge. cbn [squeeze_go].
          destruct (chr LF c2) eqn:Hc2; [|lia].
          apply Ascii.eqb_eq in Hc, Hc2. subst c c2.
          cbn. by rewrite (squeeze_go_ge2 s 3) by lia.
        + destruct (IH (S pos) false) as [IH1 _]. rewrite IH1.
          cbn. by rewrite (squeeze_go_short s 1) by lia.
      - cbn [Nat.leb]. destruct (IH (S pos) false) as [IH1 _]. by rewrite IH1. }
    split; [exact Hpart1|]. intros seen Hseen.
    cbn [lead]. destruct (chr LF c) eqn:Hc.
    + cbn [replace_loop squeeze_go]. rewrite Hc.
      destruct (Nat.ltb_spec seen 2); [lia|].
      destruct (IH (S pos) (lead s =? 0)%nat) as [_ IH2].
      by rewrite (IH2 (S seen)) by lia.
    + rewrite Hpart1. apply squeeze_go_lead0. cbn [lead]. by rewrite Hc.
Qed.

(** The regular-expression replacement is the squeeze. *)
Lemma ReplaceAllString_newlines (md : string) :
  ReplaceAllString excessiveNewlines md (nl +:+ nl) = squeeze_newlines md.
Proof. apply (replace_loop_squeeze md O false). Qed.

End SqueezeFacts.

(** ** Trimming white space *)

Module TrimFacts.
Import GoStrings MarkdownSpec StringFacts.

Lemma list_of_drop (n : nat) (s : string) :
  list_ascii_of_string (drop n s) = skipn n (list_ascii_of_string s).
Proof. revert s. induction n as [|n IH]; intros [|c s]; simpl; auto. Qed.

Lemma take_of_list (n : nat) (l : list ascii) :
  string_of_list_ascii (firstn n l) = take n (string_of_list_ascii l).
Proof. revert l. induction n as [|n IH]; intros [|c l]; simpl; auto. by rewrite IH. Qed.

Lemma rev_string_involutive (s : string) : rev_string (rev_string s) = s.
Proof.
  unfold rev_string. rewrite list_ascii_of_string_of_list_ascii.
  rewrite rev_involutive. apply string_of_list_ascii_of_string.
Qed.

(** Dropping from a reversed string is taking from the string. *)
Lemma rev_drop_rev (n : nat) (s : string) :
  exists m, rev_string (drop n (rev_string s)) = take m s.
Proof.
  exists (String.length s - n)%nat. unfold rev_string at 1.
  rewrite list_of_drop. unfold rev_string.
  rewrite list_ascii_of_string_of_list_ascii, skipn_rev, rev_involutive.
  rewrite take_of_list, string_of_list_ascii_of_string.
  f_equal. f_equal. clear. induction s; simpl; auto.
Qed.

Lemma trim_left_go_drop (s : string) :
  forall skip, exists n, trim_left_go s skip = drop n s.
Proof.
  induction s as [|c s IH]; intros skip.
  - exists O. destruct skip; simpl; [|done]. by destruct (space_width EmptyString).
  - destruct skip as [|k].
    + cbn [trim_left_go]. destruct (space_width (String c s)) as [w|].
      * destruct (IH (Nat.pred w)) as [n Hn]. exists (S n). exact Hn.
      * by exists O.
    + destruct (IH k) as [n Hn]. exists (S n). exact Hn.
Qed.

Lemma trim_right_go_drop (r : string) :
  forall skip, exists n, trim_right_go r skip = drop n r.
Proof.
  induction r as [|c r IH]; intros skip.
  - exists O. destruct skip; simpl; [|done]. by destruct (space_width_rev EmptyString).
  - destruct skip as [|k].
    + cbn [trim_right_go]. destruct (space_width_rev (String c r)) as [w|].
      * destruct (IH (Nat.pred w)) as [n Hn]. exists (S n). exact Hn.
      * by exists O.
    + destruct (IH k) as [n Hn]. exists (S n). exact Hn.
Qed.

Lemma trim_left_go_done (s : string) :
  forall skip, space_width (trim_left_go s skip) = None.
Proof.
  induction s as [|c s IH]; intros skip.
  - destruct skip; [|done]. cbn [trim_left_go].
    by destruct (space_width EmptyString) eqn:E.
  - destruct skip as [|k]; [|apply IH].
    cbn [trim_left_go]. destruct (space_width (String c s)) eqn:E; [apply IH | exact E].
Qed.

Lemma trim_right_go_done (r : string) :
  forall skip, space_width_rev (trim_right_go r skip) = None.
Proof.
  induction r as [|c r IH]; intros skip.
  - destruct skip; [|done]. cbn [trim_right_go].
    by destruct (space_width_rev EmptyString) eqn:E.
  - destruct skip as [|k]; [|apply IH].
    cbn [trim_right_go].
    destruct (space_width_rev (String c r)) eqn:E; [apply IH | exact E].
Qed.

Lemma find_None_mono {A} (f g : A -> bool) (l : list A) :
  (forall x, f x = true -> g x = true) ->
  List.find g l = None -> List.find f l = None.
Proof.
  intros Hfg. induction l as [|x l IH]; simpl; [done|].
  destruct (g x) eqn:Hg; [done|]. intros H.
  destruct (f x) eqn:Hf; [|auto]. apply Hfg in Hf. congruence.
Qed.

Lemma HasPrefix_take (n : nat) (s p : string) :
  HasPrefix (take n s) p = true -> HasPrefix s p = true.
Proof.
  revert n s. induction p as [|c p IH]; intros n s H; [done|].
  destruct n as [|n], s as [|c' s]; simpl in *; try done.
  destruct (Ascii.eqb c c'); [|done]. by apply (IH n).
Qed.

(** A string that starts with no white space has no prefix that does. *)
Lemma space_width_take (n : nat) (s : string) :
  space_width s = None -> space_width (take n s) = None.
Proof.
  unfold space_width. intros H.
  destruct (List.find (HasPrefix s) unicode_spaces) eqn:E; [done|].
  rewrite (find_None_mono (HasPrefix (take n s)) (HasPrefix s)); [done| |exact E].
  intros x. apply HasPrefix_take.
Qed.

Lemma TrimSpace_trimmed (s : string) : trimmed (TrimSpace s) = true.
Proof.
  unfold trimmed, TrimSpace, TrimRightSpace.
  apply andb_true_iff. split; apply bool_decide_eq_true.
  - destruct (trim_right_go_drop (rev_string (TrimLeftSpace s)) O) as [n ->].
    destruct (rev_drop_rev n (TrimLeftSpace s)) as [m ->].
    apply space_width_take, trim_left_go_done.
  - rewrite rev_string_involutive. apply trim_right_go_done.
Qed.

Lemma trim_left_go_id (s : string) : space_width s = None -> trim_left_go s O = s.
Proof. intros H. destruct s; cbn [trim_left_go]; by rewrite H. Qed.

Lemma trim_right_go_id (r : string) :
  space_width_rev r = None -> trim_right_go r O = r.
Proof. intros H. destruct r; cbn [trim_right_go]; by rewrite H. Qed.

Lemma TrimSpace_id (s : string) : trimmed s = true -> TrimSpace s = s.
Proof.
  unfold trimmed. intros [Hl Hr]%andb_true_iff.
  apply bool_decide_eq_true in Hl, Hr.
  unfold TrimSpace, TrimRightSpace, TrimLeftSpace.
  rewrite (trim_left_go_id s Hl), (trim_right_go_id _ Hr).
  apply rev_string_involutive.
Qed.

(** What [TrimSpace] returns is a slice of its argument. *)
Lemma TrimSpace_slice (s : string) : exists a b, s = a +:+ TrimSpace s +:+ b.
Proof.
  unfold TrimSpace, TrimRightSpace, TrimLeftSpace.
  destruct (trim_left_go_drop s O) as [n Hn]. rewrite Hn.
  destruct (trim_right_go_drop (rev_string (drop n s)) O) as [k ->].
  destruct (rev_drop_rev k (drop n s)) as [m ->].
  exists (take n s), (drop m (drop n s)).
  by rewrite take_drop, take_drop.
Qed.

Lemma Contains_slice (s a t b p : string) :
  s = a +:+ t +:+ b -> Contains s p = false -> Contains t p = false.
Proof.
  intros -> H. apply Contains_false_iff. intros x y ->.
  apply (proj1 (Contains_false_iff _ _) H (a +:+ x) (y +:+ b)).
  by rewrite !app_assoc.
Qed.

End TrimFacts.

(** ** The squeeze *)

Module SqueezeProps.
Import GoStrings Regexp MarkdownSpec StringFacts SqueezeFacts.

Lemma squeeze_lead_bound (s : string) :
  forall seen, (lead (squeeze_go s seen) + Nat.min seen 2 <= 2)%nat.
Proof.
  induction s as [|c s IH]; intros seen; [simpl; lia|].
  cbn [squeeze_go]. destruct (chr LF c) eqn:Hc.
  - specialize (IH (S seen)). destruct (Nat.ltb_spec seen 2).
    + cbn [lead]. rewrite Hc. lia.
    + lia.
  - cbn [lead]. rewrite Hc. lia.
Qed.

Lemma squeeze_no_triple (s : string) :
  forall seen a b, squeeze_go s seen <> a +:+ run 3 +:+ b.
Proof.
  induction s as [|c s IH]; intros seen a b.
  - destruct a; discriminate.
  - cbn [squeeze_go]. destruct (chr LF c) eqn:Hc.
    + destruct (Nat.ltb_spec seen 2); [|apply IH].
      destruct a as [|x a]; simpl.
      * intros [= -> H1]. pose proof (squeeze_lead_bound s (S seen)) as Hb.
        rewrite H1 in Hb. simpl in Hb. lia.
      * intros [= -> H1]. by apply IH in H1.
    + destruct a as [|x a]; simpl.
      * intros [= -> _]. discriminate.
      * intros [= -> H1]. by apply IH in H1.
Qed.

Lemma run_snoc (n : nat) (s : string) : run (S n) +:+ s = run n +:+ String LF s.
Proof. induction n as [|n IH]; [done|]. simpl in *. by rewrite IH. Qed.

Lemma squeeze_go_id (s : string) :
  forall seen, (seen <= 2)%nat ->
    (forall a b, run seen +:+ s <> a +:+ run 3 +:+ b) ->
    squeeze_go s seen = s.
Proof.
  induction s as [|c s IH]; intros seen Hle Hfree; [done|].
  cbn [squeeze_go]. destruct (chr LF c) eqn:Hc.
  - apply Ascii.eqb_eq in Hc. subst c.
    destruct (Nat.ltb_spec seen 2).
    + f_equal. apply IH; [lia|]. intros a b. rewrite run_snoc. apply Hfree.
    + exfalso. replace seen with 2%nat in Hfree by lia.
      by apply (Hfree EmptyString s).
  - f_equal. apply IH; [lia|]. intros a b Hab. simpl in Hab.
    apply (Hfree (run seen +:+ String c a) b).
    rewrite Hab. by rewrite app_assoc.
Qed.

Lemma squeeze_run (k : nat) (b : string) :
  forall seen, lead b = O ->
    squeeze_go (run k +:+ b) seen = run (Nat.min k (2 - seen)) +:+ squeeze_go b 0.
Proof.
  induction k as [|k IH]; intros seen Hb.
  - simpl. by apply squeeze_go_lead0.
  - cbn [run String.append squeeze_go]. change (chr LF LF) with true. cbn iota.
    destruct (Nat.ltb_spec seen 2).
    + rewrite IH by done. destruct seen as [|[|?]]; [| |lia].
      * destruct k as [|[|k]]; reflexivity.
      * destruct k; reflexivity.
    + rewrite IH by done.
      replace (2 - seen)%nat with O by lia. replace (2 - S seen)%nat with O by lia.
      by rewrite !Nat.min_0_r.
Qed.

End SqueezeProps.

(** ** [cleanupMarkdown] *)

Module MarkdownProps.
Import GoStrings Regexp Go Markdown MarkdownSpec Examples.
Import StringFacts SqueezeFacts TrimFacts SqueezeProps.

Lemma ends_with_newline_cons (c : ascii) (a : string) :
  ends_with_newline (String c a) = false ->
  ends_with_newline a = false /\ (a = EmptyString -> chr LF c = false).
Proof. destruct a; simpl; intros H; split; auto; discriminate. Qed.

(** A run of three or more newlines between [a] and [b] comes out as two. *)
Lemma squeeze_collapse (k : nat) (b : string) :
  (3 <= k)%nat -> lead b = O ->
  forall a seen,
    (a = EmptyString -> seen = O) -> ends_with_newline a = false ->
    squeeze_go (a +:+ run k +:+ b) seen
    = squeeze_go a seen +:+ run 2 +:+ squeeze_go b 0.
Proof.
  intros Hk Hb. induction a as [|c a IH]; intros seen Hs He.
  - rewrite (Hs eq_refl). cbn [String.append squeeze_go].
    rewrite squeeze_run by done. by replace (Nat.min k (2 - 0)) with 2%nat by lia.
  - apply ends_with_newline_cons in He as [He Hlast].
    cbn [String.append squeeze_go]. destruct (chr LF c) eqn:Hc.
    + assert (a <> EmptyString) as Hne by (intros E; specialize (Hlast E); done).
      destruct (Nat.ltb_spec seen 2); cbn [String.append];
        rewrite (IH (S seen)); done.
    + cbn [String.append]. rewrite (IH O); done.
Qed.

(** C7 (as amended).  [cleanupMarkdown] cuts every run of three or more
    consecutive newline characters, that is of two or more consecutive
    blank lines, down to exactly two newlines, one blank line, and then
    trims the white space at both ends:
    - it is the trimmed squeeze of its argument;
    - a run of [k >= 3] newlines between a text that does not end in a
      newline and a text that does not begin with one becomes two;
    - the result has no three consecutive newlines and no white space at
      either end;
    - a string with no three consecutive newlines and no white space at
      either end is returned as it is. *)
Theorem C7_cleanupMarkdown (md : string) :
  cleanupMarkdown md = TrimSpace (squeeze_newlines md) /\
  (forall a b k,
      (3 <= k)%nat -> ends_with_newline a = false -> lead b = O ->
      squeeze_newlines (a +:+ run k +:+ b)
      = squeeze_newlines a +:+ run 2 +:+ squeeze_newlines b) /\
  Contains (cleanupMarkdown md) (run 3) = false /\
  trimmed (cleanupMarkdown md) = true /\
  (Contains md (run 3) = false -> trimmed md = true -> cleanupMarkdown md = md).
Proof.
  assert (cleanupMarkdown md = TrimSpace (squeeze_newlines md)) as Hdef.
  { unfold cleanupMarkdown. by rewrite ReplaceAllString_newlines. }
  split; [exact Hdef|]. split; [|split; [|split]].
  - intros a b k Hk Ha Hb. by apply squeeze_collapse.
  - rewrite Hdef.
    destruct (TrimSpace_slice (squeeze_newlines md)) as (a & b & Hab).
    apply (Contains_slice _ _ _ _ _ Hab).
    apply Contains_false_iff. apply squeeze_no_triple.
  - rewrite Hdef. apply TrimSpace_trimmed.
  - intros Hfree Htrim. rewrite Hdef. unfold squeeze_newlines.
    rewrite squeeze_go_id; [by apply TrimSpace_id | lia |].
    by apply Contains_false_iff.
Qed.

Lemma C7_cleanupMarkdown_witness :
  squeeze_newlines ("a" +:+ run 5 +:+ "b") = "a" +:+ run 2 +:+ "b" /\
  cleanupMarkdown ("a" +:+ run 2 +:+ "b") = "a" +:+ run 2 +:+ "b".
Proof.
  destruct (C7_cleanupMarkdown ("a" +:+ run 2 +:+ "b")) as (_ & Hrun & _ & _ & Hid).
  split.
  - apply (Hrun "a" "b" 5%nat); [lia | reflexivity | reflexivity].
  - apply Hid; vm_compute; reflexivity.
Defined.

(** C7 as stated: runs of three or more blank lines (four or more
    newlines) are collapsed and text is otherwise unchanged, so a trimmed
    string without such a run would come back unchanged.  It does not:
    two blank lines are collapsed to one as well. *)
Lemma C7_counterexample :
  Contains two_blank_lines (run 4) = false /\
  trimmed two_blank_lines = true /\
  cleanupMarkdown two_blank_lines = "a" +:+ run 2 +:+ "b" /\
  cleanupMarkdown two_blank_lines <> two_blank_lines.
Proof.
  split; [vm_compute; reflexivity|].
  split; [vm_compute; reflexivity|].
  split; [vm_compute; reflexivity|].
  vm_compute. discriminate.
Qed.

End MarkdownProps.

(** ** Section trees in the heap *)

Module TreeFacts.
Import Go Wiki Tools TreeSpec.
Import WikiSection.

Lemma deref_old (h : heap) (s : WikiSection.t) (p : ptr) :
  (p < length h)%nat -> deref (h ++ [s]) p = deref h p.
Proof. intros H. unfold deref. by rewrite lookup_app_l. Qed.

Lemma deref_new (h : heap) (s : WikiSection.t) : deref (h ++ [s]) (length h) = s.
Proof. unfold deref. by rewrite list_lookup_middle. Qed.

Lemma deref_append_child_ne (h : heap) (q c p : ptr) :
  p <> q -> deref (append_child h q c) p = deref h p.
Proof. intros H. unfold deref, append_child. by rewrite list_lookup_alter_ne. Qed.

Lemma Subsections_append_child (h : heap) (q c : ptr) :
  (q < length h)%nat ->
  Subsections (deref (append_child h q c) q) = Subsections (deref h q) ++ [c].
Proof.
  intros H. unfold deref, append_child. rewrite list_lookup_alter_eq.
  destruct (lookup_lt_is_Some_2 h q H) as [s ->]. reflexivity.
Qed.

Lemma length_append_child (h : heap) (q c : ptr) :
  length (append_child h q c) = length h.
Proof. apply length_alter. Qed.

(** Linking a subsection changes nothing a caller sees of a section. *)
Lemma view_append_child (h : heap) (q c p : ptr) :
  view (append_child h q c) p = view h p.
Proof.
  destruct (decide (p = q)) as [->|Hne].
  - unfold view, deref, append_child. rewrite list_lookup_alter_eq.
    by destruct (h !! q).
  - unfold view. by rewrite deref_append_child_ne.
Qed.

(** Popping leaves a final segment of the stack. *)
Lemma pop_stack_suffix (h : heap) (stack : list ptr) (level : Z) :
  exists popped, stack = popped ++ pop_stack h stack level.
Proof.
  induction stack as [|top rest IH]; [by exists []|].
  cbn [pop_stack]. destruct (level <=? Level (deref h top)).
  - destruct IH as [popped IH]. exists (top :: popped). simpl. by f_equal.
  - by exists [].
Qed.

(** One turn of the loop, spelled out. *)
Lemma add_section_unfold (h : heap) (sections stack : list ptr) (e : MWSection.t) :
  add_section (h, sections, stack) e
  = match pop_stack (h ++ [section_of e]) stack (Level (section_of e)) with
    | [] => (h ++ [section_of e], sections ++ [length h], [length h])
    | parent :: rest =>
        (append_child (h ++ [section_of e]) parent (length h), sections,
         length h :: parent :: rest)
    end.
Proof.
  unfold add_section, alloc. cbv beta iota zeta. rewrite deref_new.
  by destruct (pop_stack _ _ _).
Qed.

(** *** [flat_mapM] and [flatten] *)

Lemma flat_mapM_app {A B} (f : A -> option (list B)) (a b : list A) :
  flat_mapM f (a ++ b)
  = match flat_mapM f a, flat_mapM f b with
    | Some x, Some y => Some (x ++ y)
    | _, _ => None
    end.
Proof.
  induction a as [|x a IH]; simpl.
  - by destruct (flat_mapM f b).
  - rewrite IH. destruct (f x), (flat_mapM f a), (flat_mapM f b); try done.
    by rewrite app_assoc.
Qed.

(** [g] does on [l] what [f] does, as long as it agrees with [f] wherever
    all outputs satisfy [P]. *)
Lemma flat_mapM_transfer {A B} (P : B -> Prop) (f g : A -> option (list B))
    (l : list A) (out : list B) :
  (forall x lx, f x = Some lx -> Forall P lx -> g x = Some lx) ->
  flat_mapM f l = Some out -> Forall P out -> flat_mapM g l = Some out.
Proof.
  intros Hfg. revert out. induction l as [|x l IH]; intros out; simpl; [done|].
  destruct (f x) as [lx|] eqn:Hx; [|done].
  destruct (flat_mapM f l) as [lr|] eqn:Hr; [|done].
  intros [= <-] [Hlx Hlr]%Forall_app.
  by rewrite (Hfg x lx Hx Hlx), (IH lr eq_refl Hlr).
Qed.

Lemma flatten_S (fuel : nat) (h : heap) (secs : list ptr) :
  flatten (S fuel) h secs
  = flat_mapM
      (fun sec =>
         match Subsections (deref h sec) with
         | [] => Some [sec]
         | subs => cons sec <$> flatten fuel h subs
         end)
      secs.
Proof. reflexivity. Qed.

Lemma flatten_mono (h : heap) (fuel : nat) :
  forall secs out,
    flatten fuel h secs = Some out -> flatten (S fuel) h secs = Some out.
Proof.
  induction fuel as [|fuel IH]; intros secs out H; [done|].
  rewrite flatten_S in H. rewrite flatten_S.
  eapply flat_mapM_transfer with (P := fun _ => True);
    [| exact H | by apply Forall_true].
  intros x lx Hx _. cbv beta in *.
  destruct (Subsections (deref h x)) as [|c subs]; [done|].
  destruct (flatten fuel h (c :: subs)) as [b|] eqn:Hb; [|done].
  by rewrite (IH _ _ Hb).
Qed.

Lemma flatten_mono_le (h : heap) (fuel fuel' : nat) (secs out : list ptr) :
  (fuel <= fuel')%nat ->
  flatten fuel h secs = Some out -> flatten fuel' h secs = Some out.
Proof. induction 1; [done|]. intros Hf. by apply flatten_mono, IHle. Qed.

Lemma flatten_nil (fuel : nat) (h : heap) : flatten (S fuel) h [] = Some [].
Proof. reflexivity. Qed.

(** What one section contributes: itself, then the flattening of its
    subsections. *)
Lemma flatten_node (fuel : nat) (h : heap) (sec : ptr) (out : list ptr) :
  match Subsections (deref h sec) with
  | [] => Some [sec]
  | subs => cons sec <$> flatten fuel h subs
  end = Some out ->
  exists below, out = sec :: below /\
    flatten (S fuel) h (Subsections (deref h sec)) = Some below /\
    (Subsections (deref h sec) <> [] ->
     flatten fuel h (Subsections (deref h sec)) = Some below).
Proof.
  destruct (Subsections (deref h sec)) as [|c subs] eqn:E.
  - intros [= <-]. by exists [].
  - intros H. destruct (flatten fuel h (c :: subs)) as [below|] eqn:Hb; [|done].
    injection H as <-. exists below. split; [done|]. split; [|done].
    by apply flatten_mono.
Qed.

Lemma flatten_node_inv (fuel : nat) (h : heap) (sec : ptr) (subs below : list ptr) :
  subs <> [] ->
  flatten fuel h subs = Some below ->
  match subs with
  | [] => Some [sec]
  | c :: rest => cons sec <$> flatten fuel h (c :: rest)
  end = Some (sec :: below).
Proof. destruct subs as [|c subs]; [done|]. intros _ ->. reflexivity. Qed.

(** The heap is read only at the sections that come out. *)
Lemma flatten_frame (h h' : heap) (fuel : nat) :
  forall secs out,
    flatten fuel h secs = Some out ->
    Forall (fun p => deref h' p = deref h p) out ->
    flatten fuel h' secs = Some out.
Proof.
  induction fuel as [|fuel IH]; intros secs out H Hsame; [done|].
  rewrite flatten_S in H. rewrite flatten_S.
  eapply flat_mapM_transfer with (P := fun p => deref h' p = deref h p);
    [| exact H | exact Hsame].
  intros x lx Hx Hlx. cbv beta in *.
  destruct (Subsections (deref h x)) as [|c subs] eqn:E.
  - injection Hx as <-. apply Forall_cons in Hlx as [-> _]. by rewrite E.
  - destruct (flatten fuel h (c :: subs)) as [b|] eqn:Hb; [|done].
    injection Hx as <-. apply Forall_cons in Hlx as [-> Hb'].
    rewrite E. by rewrite (IH _ _ Hb Hb').
Qed.

(** Every section of the list comes out. *)
Lemma flatten_roots (fuel : nat) (h : heap) (secs out : list ptr) (x : ptr) :
  flatten fuel h secs = Some out -> x ∈ secs -> x ∈ out.
Proof.
  destruct fuel as [|fuel]; [done|]. rewrite flatten_S.
  revert out. induction secs as [|y secs IH]; intros out H Hx.
  - by apply not_elem_of_nil in Hx.
  - cbn [flat_mapM] in H.
    destruct (match Subsections (deref h y) with
              | [] => Some [y]
              | subs => cons y <$> flatten fuel h subs
              end) as [ly|] eqn:Hy; [|done].
    destruct (flat_mapM _ secs) as [lr|] eqn:Hr; [|done].
    injection H as <-. apply flatten_node in Hy as (below & -> & _ & _).
    apply elem_of_cons in Hx as [->|Hx].
    + apply elem_of_app. left. apply elem_of_cons. by left.
    + apply elem_of_app. right. by apply IH.
Qed.

(** Splitting off the last root. *)
Lemma flatten_snoc (fuel : nat) (h : heap) (pre : list ptr) (r : ptr)
    (out : list ptr) :
  flatten fuel h (pre ++ [r]) = Some out ->
  exists f lpre below,
    fuel = S f /\ out = lpre ++ r :: below /\
    flatten (S f) h pre = Some lpre /\
    flatten (S f) h (Subsections (deref h r)) = Some below /\
    (Subsections (deref h r) <> [] ->
     flatten f h (Subsections (deref h r)) = Some below).
Proof.
  destruct fuel as [|f]; [done|]. rewrite flatten_S, flat_mapM_app.
  destruct (flat_mapM _ pre) as [lpre|] eqn:Hpre; [|done].
  cbn [flat_mapM].
  destruct (match Subsections (deref h r) with
            | [] => Some [r]
            | subs => cons r <$> flatten f h subs
            end) as [lr|] eqn:Hr; [|done].
  intros [= <-]. apply flatten_node in Hr as (below & -> & Hbelow & Hexact).
  exists f, lpre, below. rewrite app_nil_r. by repeat split.
Qed.

Lemma flatten_snoc_intro (f : nat) (h : heap) (pre : list ptr) (r : ptr)
    (lpre below : list ptr) :
  flatten (S f) h pre = Some lpre ->
  (match Subsections (deref h r) with
   | [] => Some [r]
   | subs => cons r <$> flatten f h subs
   end = Some (r :: below)) ->
  flatten (S f) h (pre ++ [r]) = Some (lpre ++ r :: below).
Proof.
  intros Hpre Hr. rewrite flatten_S, flat_mapM_app.
  rewrite flatten_S in Hpre. rewrite Hpre. cbn [flat_mapM]. rewrite Hr.
  by rewrite app_nil_r.
Qed.

(** *** The right edge of the forest *)

Lemma spine_prefix (h : heap) (st st2 : list ptr) :
  forall roots, spine h roots (st ++ st2) -> spine h roots st.
Proof.
  induction st as [|r st IH]; intros roots H; [constructor|].
  inversion H; subst. constructor; auto.
Qed.

Lemma spine_in (h : heap) (q : ptr) (st : list ptr) :
  forall roots fuel out,
    spine h roots (st ++ [q]) -> flatten fuel h roots = Some out -> q ∈ out.
Proof.
  induction st as [|r st IH]; intros roots fuel out Hsp Hfl.
  - inversion Hsp as [|? ? ? Hlast _]; subst.
    apply last_Some in Hlast as [pre ->].
    apply (flatten_roots _ _ _ _ _ Hfl). apply elem_of_app. right. by left.
  - inversion Hsp as [|? ? ? Hlast Hsub]; subst.
    apply last_Some in Hlast as [pre ->].
    apply flatten_snoc in Hfl as (f & lpre & below & -> & -> & _ & Hbelow & _).
    apply elem_of_app. right. right. by apply (IH _ _ _ Hsub Hbelow).
Qed.

Section Link.
Variables (h : heap) (new : WikiSection.t) (q : ptr).
Hypothesis new_leaf : Subsections new = [].

Let p : ptr := length h.
Let h' : heap := append_child (h ++ [new]) q p.

Lemma link_other (x : ptr) : (x < length h)%nat -> x <> q -> deref h' x = deref h x.
Proof.
  intros Hx Hne. unfold h'. by rewrite deref_append_child_ne, deref_old.
Qed.

Lemma link_parent :
  (q < length h)%nat ->
  Subsections (deref h' q) = Subsections (deref h q) ++ [p].
Proof.
  intros Hq. unfold h'. rewrite Subsections_append_child.
  - by rewrite deref_old.
  - rewrite length_app. simpl. lia.
Qed.

Lemma link_child : (q < length h)%nat -> deref h' p = new.
Proof.
  intros Hq. unfold h', p. rewrite deref_append_child_ne by lia. apply deref_new.
Qed.

Lemma link_frame (fuel : nat) (xs out : list ptr) :
  flatten fuel h xs = Some out ->
  Forall (fun x => (x < length h)%nat) out -> q ∉ out ->
  flatten fuel h' xs = Some out.
Proof.
  intros Hfl Hin Hq. apply (flatten_frame h h' _ _ _ Hfl).
  apply Forall_forall. intros x Hx. apply link_other.
  - by apply (proj1 (Forall_forall _ _) Hin).
  - intros ->. by apply Hq.
Qed.

(** Linking a fresh leaf below the last section of the right edge puts it
    at the very end of the flattening, and at the end of the right edge. *)
Lemma spine_link (st : list ptr) :
  forall roots fuel out,
    spine h roots (st ++ [q]) ->
    flatten fuel h roots = Some out ->
    NoDup out -> Forall (fun x => (x < length h)%nat) out ->
    flatten (S fuel) h' roots = Some (out ++ [p]) /\
    spine h' roots (st ++ [q; p]).
Proof.
  induction st as [|r st IH]; intros roots fuel out Hsp Hfl Hnd Hin.
  - inversion Hsp as [|? ? ? Hlast _]; subst.
    apply last_Some in Hlast as [pre ->].
    apply flatten_snoc in Hfl as (f & lpre & below & -> & -> & Hpre & Hbelow & _).
    apply NoDup_app in Hnd as (_ & Hdisj & [Hqb _]%NoDup_cons).
    apply Forall_app in Hin as [Hin_pre [Hq Hin_below]%Forall_cons].
    assert (q ∉ lpre) as Hqpre.
    { intros Hq'. apply (Hdisj _ Hq'). by left. }
    split.
    + rewrite <- app_assoc. cbn [app].
      apply flatten_snoc_intro.
      * apply link_frame; [by apply flatten_mono | done | done].
      * apply flatten_node_inv; rewrite link_parent by done.
        -- by destruct (Subsections (deref h q)).
        -- apply flatten_snoc_intro; [by apply link_frame|].
           by rewrite link_child, new_leaf.
    + constructor; [by rewrite last_snoc|].
      rewrite link_parent by done. constructor; [by rewrite last_snoc|].
      constructor.
  - inversion Hsp as [|? ? ? Hlast Hsub]; subst.
    assert (Subsections (deref h r) <> []) as Hne.
    { intros E. rewrite E in Hsub. destruct st; inversion Hsub; subst; done. }
    apply last_Some in Hlast as [pre ->].
    apply flatten_snoc in Hfl as (f & lpre & below & -> & -> & Hpre & _ & Hbelow).
    specialize (Hbelow Hne).
    pose proof (spine_in _ _ _ _ _ _ Hsub Hbelow) as Hqb.
    apply NoDup_app in Hnd as (_ & Hdisj & [Hrb Hndb]%NoDup_cons).
    apply Forall_app in Hin as [Hin_pre [Hr Hin_below]%Forall_cons].
    assert (r <> q) as Hrq by (intros ->; done).
    assert (q ∉ lpre) as Hqpre.
    { intros Hq'. apply (Hdisj _ Hq'). by right. }
    destruct (IH _ _ _ Hsub Hbelow Hndb Hin_below) as [IHfl IHsp].
    split.
    + rewrite <- app_assoc. cbn [app].
      apply flatten_snoc_intro.
      * apply link_frame; [by apply flatten_mono | done | done].
      * apply flatten_node_inv; rewrite link_other by done; done.
    + constructor; [by rewrite last_snoc|].
      by rewrite link_other.
Qed.

End Link.

(** *** The loop of [buildSectionsTree] *)

Lemma Forall_seq_lt (n : nat) : Forall (fun x => (x < n)%nat) (seq 0 n).
Proof. apply Forall_forall. intros x Hx. apply elem_of_seq in Hx. lia. Qed.

Lemma view_new (h : heap) (e : MWSection.t) :
  view (h ++ [section_of e]) (length h) = view_of_entry e.
Proof. unfold view. by rewrite deref_new. Qed.

Lemma views_snoc (h h1 : heap) (e : MWSection.t) (lead : Z * string * Z)
    (entries : list MWSection.t) :
  length h1 = S (length h) ->
  (forall x, (x < length h)%nat -> view h1 x = view h x) ->
  view h1 (length h) = view_of_entry e ->
  map (view h) (seq 0 (length h)) = lead :: map view_of_entry entries ->
  map (view h1) (seq 0 (length h1)) = lead :: map view_of_entry (entries ++ [e]).
Proof.
  intros -> Hold Hnew Hviews.
  rewrite seq_S, !map_app. cbn [map Nat.add]. rewrite Hnew.
  transitivity ((lead :: map view_of_entry entries) ++ [view_of_entry e]); [|done].
  rewrite <- Hviews. f_equal.
  apply map_ext_in. intros x Hx. apply Hold. apply in_seq in Hx. lia.
Qed.

Lemma add_section_built (entries : list MWSection.t) (lead : Z * string * Z)
    (st : heap * list ptr * list ptr) (e : MWSection.t) :
  built entries lead st -> built (entries ++ [e]) lead (add_section st e).
Proof.
  destruct st as [[h sections] stack]. intros (Hfl & Hsp & Hviews).
  rewrite add_section_unfold.
  destruct (pop_stack_suffix (h ++ [section_of e]) stack (Level (section_of e)))
    as [popped Hpop].
  destruct (pop_stack _ stack _) as [|q rest].
  - assert (length (h ++ [section_of e]) = S (length h)) as Hlen
      by (rewrite length_app; simpl; lia).
    split; [|split].
    + rewrite Hlen, seq_S. cbn [Nat.add].
      apply flatten_snoc_intro.
      * apply (flatten_frame h); [by apply flatten_mono|].
        apply Forall_forall. intros x Hx. apply deref_old.
        apply elem_of_seq in Hx. lia.
      * by rewrite deref_new.
    + cbn [rev app]. constructor; [by rewrite last_snoc|]. constructor.
    + apply (views_snoc h); [done| |apply view_new|done].
      intros x Hx. unfold view. by rewrite deref_old.
  - assert (length (append_child (h ++ [section_of e]) q (length h)) = S (length h))
      as Hlen by (rewrite length_append_child, length_app; simpl; lia).
    assert (spine h sections (rev rest ++ [q])) as Hsp'.
    { rewrite Hpop, rev_app_distr in Hsp. cbn [rev] in Hsp.
      by apply spine_prefix in Hsp. }
    destruct (spine_link h (section_of e) q eq_refl (rev rest) sections
                (length h) (seq 0 (length h)) Hsp' Hfl
                (NoDup_seq 0 (length h)) (Forall_seq_lt (length h)))
      as [Hfl' Hsp''].
    split; [|split].
    + by rewrite Hlen, seq_S.
    + cbn [rev]. by rewrite <- app_assoc.
    + apply (views_snoc h); [done| | |done].
      * intros x Hx. rewrite view_append_child. unfold view. by rewrite deref_old.
      * rewrite view_append_child. apply view_new.
Qed.

Lemma fold_add_section_built (rest : list MWSection.t) :
  forall entries lead st,
    built entries lead st ->
    built (entries ++ rest) lead (fold_left add_section rest st).
Proof.
  induction rest as [|e rest IH]; intros entries lead st H.
  - by rewrite app_nil_r.
  - cbn [fold_left]. replace (entries ++ e :: rest) with ((entries ++ [e]) ++ rest)
      by (by rewrite <- app_assoc).
    apply IH. by apply add_section_built.
Qed.

(** For every table of contents that is not empty, flattening what
    [buildSectionsTree] returns visits the sections in the order in which
    they were allocated, and what they show is the lead followed by the
    entries of the table in their order. *)
Theorem flatten_buildSectionsTree (mwSections : list MWSection.t)
    (wikiURL title leadContent : string) :
  mwSections <> [] ->
  let r := buildSectionsTree mwSections wikiURL title leadContent in
  flattenSections (fst r) (snd r) = Some (seq 0 (length (fst r))) /\
  map (view (fst r)) (seq 0 (length (fst r)))
  = (0, "Lead", 1) :: map view_of_entry mwSections.
Proof.
  intros Hne r. subst r. unfold buildSectionsTree.
  destruct mwSections as [|e0 rest]; [done|].
  unfold alloc. cbn [app length].
  assert (built [] (0, "Lead", 1) ([leadSection leadContent], [O], [])) as H0.
  { split; [|split]; [reflexivity | constructor | reflexivity]. }
  apply (fold_add_section_built (e0 :: rest)) in H0.
  destruct (fold_left add_section (e0 :: rest) _) as [[h sections] stack].
  destruct H0 as (Hfl & _ & Hviews). cbn [fst snd]. split; [|done].
  unfold flattenSections. by apply flatten_mono.
Qed.

End TreeFacts.

(** ** [buildSectionsTree] and [flattenSections] *)

Module SectionTreeProps.
Import Go Strconv Wiki Markdown Tools TreeSpec TreeFacts.
Import WikiSection.

Lemma flatten_head (fuel : nat) (h : heap) (secs out : list ptr) (x : ptr) :
  flatten fuel h secs = Some (x :: out) -> exists rest, secs = x :: rest.
Proof.
  destruct fuel as [|fuel]; [done|]. rewrite flatten_S.
  destruct secs as [|y rest]; [done|]. cbn [flat_mapM].
  destruct (match Subsections (deref h y) with
            | [] => Some [y]
            | subs => cons y <$> flatten fuel h subs
            end) as [ly|] eqn:Hy; [|done].
  destruct (flat_mapM _ rest); [|done].
  apply flatten_node in Hy as (below & -> & _). intros [= -> _]. by exists rest.
Qed.

(** C3 (as amended).  For every table of contents that is not empty, the
    list [buildSectionsTree] returns starts with the lead section: index 0,
    level 1, title "Lead". *)
Theorem C3_lead_first (mwSections : list MWSection.t)
    (wikiURL title leadContent : string) :
  mwSections <> [] ->
  lead_first (buildSectionsTree mwSections wikiURL title leadContent).
Proof.
  intros Hne.
  destruct (flatten_buildSectionsTree mwSections wikiURL title leadContent Hne)
    as [Hfl Hviews].
  destruct (buildSectionsTree mwSections wikiURL title leadContent) as [h secs].
  cbn [fst snd] in *. destruct (length h) as [|n]; [done|].
  cbn [seq map] in Hviews. unfold view at 1 in Hviews.
  injection Hviews as H1 H2 H3 _.
  unfold flattenSections in Hfl. cbn [seq] in Hfl.
  apply flatten_head in Hfl as [rest ->].
  exists O, rest. by repeat split.
Qed.

Lemma C3_lead_first_witness :
  lead_first (buildSectionsTree [Mock.toc 1 "Life" "1"] "https://en.wikipedia.org"
                "Ada Lovelace" "Countess of Lovelace").
Proof. apply C3_lead_first. discriminate. Defined.

(** C3 as stated includes the empty table of contents, for which the
    function returns the empty list: no lead section. *)
Lemma C3_counterexample :
  ~ lead_first (buildSectionsTree [] "https://en.wikipedia.org" "Stub"
                  "A page without headings.").
Proof. intros (p & rest & H & _). discriminate H. Qed.

(** C1.  For every table of contents with levels 1, 2, 3, 2, 1, whatever
    its lines and indices: the list returned holds the lead and exactly two
    more sections; the first of these has two subsections, of which the
    first has one subsection of its own and the second none, and the second
    top-level section has none; and flattening gives the lead followed by
    the five entries in their order. *)
Theorem C1_tree_and_flatten (entries : list MWSection.t)
    (wikiURL title leadContent : string) :
  map MWSection.TocLevel entries = [1; 2; 3; 2; 1] ->
  let r := buildSectionsTree entries wikiURL title leadContent in
  exists e1 e2 e3 e4 e5 flat,
    entries = [e1; e2; e3; e4; e5] /\
    length (snd r) = 3%nat /\
    read_forest (length (fst r)) (fst r) (snd r)
    = [ Node (0, "Lead", 1) [];
        Node (view_of_entry e1)
          [ Node (view_of_entry e2) [ Node (view_of_entry e3) [] ];
            Node (view_of_entry e4) [] ];
        Node (view_of_entry e5) [] ] /\
    flattenSections (fst r) (snd r) = Some flat /\
    map (view (fst r)) flat = (0, "Lead", 1) :: map view_of_entry entries.
Proof.
  intros Hlevels r.
  destruct entries as [|e1 [|e2 [|e3 [|e4 [|e5 [|]]]]]]; try discriminate.
  exists e1, e2, e3, e4, e5.
  destruct (flatten_buildSectionsTree [e1; e2; e3; e4; e5] wikiURL title leadContent
              ltac:(discriminate)) as [Hfl Hviews].
  fold r in Hfl, Hviews.
  exists (seq 0 (length (fst r))).
  split; [done|]. split; [|split; [|by split]].
  - clear Hfl Hviews. subst r. destruct e1, e2, e3, e4, e5. cbn [map MWSection.TocLevel] in Hlevels.
    injection Hlevels as -> -> -> -> ->. reflexivity.
  - clear Hfl Hviews. subst r.
    destruct e1, e2, e3, e4, e5. cbn [map MWSection.TocLevel] in Hlevels.
    injection Hlevels as -> -> -> -> ->.
    unfold view_of_entry. cbn [MWSection.Index MWSection.Line MWSection.TocLevel].
    unfold buildSectionsTree, leadSection.
    generalize (ExtractPreview leadContent 50) (CountWords leadContent).
    intros. vm_compute. reflexivity.
Qed.

Lemma C1_tree_and_flatten_witness :
  exists e1 e2 e3 e4 e5 flat,
    let entries := [Mock.toc 1 "History" "1"; Mock.toc 2 "Origins" "2";
                    Mock.toc 3 "Early years" "3"; Mock.toc 2 "Later" "4";
                    Mock.toc 1 "Legacy" "5"] in
    let r := buildSectionsTree entries "https://en.wikipedia.org" "Go" "Go is." in
    entries = [e1; e2; e3; e4; e5] /\
    length (snd r) = 3%nat /\
    read_forest (length (fst r)) (fst r) (snd r)
    = [ Node (0, "Lead", 1) [];
        Node (view_of_entry e1)
          [ Node (view_of_entry e2) [ Node (view_of_entry e3) [] ];
            Node (view_of_entry e4) [] ];
        Node (view_of_entry e5) [] ] /\
    flattenSections (fst r) (snd r) = Some flat /\
    map (view (fst r)) flat = (0, "Lead", 1) :: map view_of_entry entries.
Proof.
  apply (C1_tree_and_flatten
           [Mock.toc 1 "History" "1"; Mock.toc 2 "Origins" "2";
            Mock.toc 3 "Early years" "3"; Mock.toc 2 "Later" "4";
            Mock.toc 1 "Legacy" "5"]).
  reflexivity.
Defined.

End SectionTreeProps.

(** ** The operations of package [tools] *)

Module ToolsProps.
Import GoStrings Go Strconv Wiki Markdown Infobox Cache Tools TreeSpec TreeFacts.
Import WikiSection.

(** *** Running a computation step by step *)

Lemma bind_Ret {A B} (m : M A) (k : A -> M B) (w w1 : World) (a : A) :
  m w = (Ret a, w1) -> bind m k w = k a w1.
Proof. intros H. unfold bind. by rewrite H. Qed.

Lemma bind_Fail {A B} (m : M A) (k : A -> M B) (w w1 : World) (e : error) :
  m w = (Fail e, w1) -> bind m k w = (Fail e, w1).
Proof. intros H. unfold bind. by rewrite H. Qed.

Lemma cacheGet_run (key : string) (w : World) :
  cacheGet key w = (Ret (Get (items w) key (now w)), w).
Proof. reflexivity. Qed.

Lemma wrap_Ret {A} (prefix : string) (m : M A) (w w1 : World) (a : A) :
  m w = (Ret a, w1) -> wrap prefix m w = (Ret a, w1).
Proof. intros H. unfold wrap, attempt, bind. by rewrite H. Qed.

Lemma wrap_Fail {A} (prefix : string) (m : M A) (w w1 : World) (e : error) :
  m w = (Fail e, w1) -> wrap prefix m w = (Fail (Errorf_w prefix e), w1).
Proof. intros H. unfold wrap, attempt, bind. by rewrite H. Qed.

Lemma attempt_Ret {A} (m : M A) (w w1 : World) (a : A) :
  m w = (Ret a, w1) -> attempt m w = (Ret (Ok a), w1).
Proof. intros H. unfold attempt. by rewrite H. Qed.

Lemma attempt_Fail {A} (m : M A) (w w1 : World) (e : error) :
  m w = (Fail e, w1) -> attempt m w = (Ret (Err e), w1).
Proof. intros H. unfold attempt. by rewrite H. Qed.

Lemma wrap_inv {A} (prefix : string) (m : M A) (w w1 : World) (a : A) :
  wrap prefix m w = (Ret a, w1) -> m w = (Ret a, w1).
Proof.
  unfold wrap, attempt, bind, ret, fail.
  destruct (m w) as [[x|e|r] w2]; simpl; congruence.
Qed.

(** *** Search *)

(** C4, what the code does.  A search that misses the cache and succeeds
    stores its response with an expiration 60 nanoseconds after the
    instant of the [Set]: the third argument of [Set] is a [time.Duration],
    and [1*60] is sixty of its units.  One second later, well inside the
    minute the comment next to the call announces, the entry is expired. *)
Theorem C4_SearchWiki_ttl `{HtmlLib} (client : Client) (wikiURL query : string)
    (limit : Z) (w w' : World) (r : SearchResponse.t) :
  let key := SearchCacheKey wikiURL (query +:+ ":" +:+ Itoa limit) in
  Get (items w) key (now w) = None ->
  SearchWiki client wikiURL query limit w = (Ret r, w') ->
  items w' !! key = Some {| value := CachedSearch r; expiration := now w' + 60 * Nanosecond |} /\
  Get (items w') key (now w' + Second) = None /\
  now w' + Second < now w' + Minute.
Proof.
  intros key Hmiss Hrun. unfold SearchWiki in Hrun. fold key in Hrun.
  rewrite (bind_Ret _ _ _ _ _ (cacheGet_run key w)), Hmiss in Hrun.
  unfold bind at 1 in Hrun.
  destruct (wrap _ _ w) as [[resp|e|p] w1]; [|done|done].
  destruct (mwResponse.Query resp) as [q|]; [|done].
  unfold bind, cacheSet, ret in Hrun. injection Hrun as <- <-.
  cbn [items now]. split; [|split].
  - unfold Set_. by rewrite lookup_insert_eq.
  - unfold Get, Set_. rewrite lookup_insert_eq. cbn [expiration].
    unfold After. rewrite bool_decide_eq_true_2; [done|]. unfold Second, Nanosecond. lia.
  - unfold Minute, Second, Nanosecond. lia.
Qed.

Lemma C4_SearchWiki_ttl_witness :
  exists r w',
    @SearchWiki Mock.html_lines Mock.client "https://en.wikipedia.org" "ada" 10 Mock.start
    = (Ret r, w') /\
    Get (items w') (SearchCacheKey "https://en.wikipedia.org" "ada:10") (now w' + Second)
    = None.
Proof.
  destruct (@SearchWiki Mock.html_lines Mock.client "https://en.wikipedia.org" "ada" 10
              Mock.start) as [[r|e|p] w'] eqn:E;
    [|vm_compute in E; discriminate|vm_compute in E; discriminate].
  exists r, w'. split; [reflexivity|].
  apply (C4_SearchWiki_ttl (H := Mock.html_lines) Mock.client
           "https://en.wikipedia.org" "ada" 10 Mock.start w' r);
    [vm_compute; reflexivity | exact E].
Defined.

(** The same search again 30 nanoseconds after the first is answered from
    the cache; one second after the first it goes to the wiki again. *)
Example search_again :
  let search := @SearchWiki Mock.html_lines Mock.client "https://en.wikipedia.org" "ada" 10 in
  let w1 := snd (search Mock.start) in
  length (requests w1) = 1%nat /\
  length (requests (snd (search (Mock.later 30 w1)))) = 1%nat /\
  length (requests (snd (search (Mock.later Second w1)))) = 2%nat.
Proof. vm_compute. repeat split. Qed.

(** *** Word counts never run out of fuel on a built tree *)

Lemma flat_mapM_each {A B} (f : A -> option (list B)) (l : list A) (out : list B) :
  flat_mapM f l = Some out -> forall x, x ∈ l -> is_Some (f x).
Proof.
  revert out. induction l as [|y l IH]; intros out H x Hx.
  - by apply not_elem_of_nil in Hx.
  - cbn [flat_mapM] in H. destruct (f y) as [ly|] eqn:Hy; [|done].
    destruct (flat_mapM f l) as [lr|] eqn:Hr; [|done].
    apply elem_of_cons in Hx as [->|Hx]; [by rewrite Hy | by apply (IH lr)].
Qed.

Lemma count_fold_Some (g : ptr -> option Z) (wc : ptr -> Z) (l : list ptr) :
  (forall x, x ∈ l -> is_Some (g x)) ->
  forall acc,
    is_Some (fold_left
               (fun count sub =>
                  match count, g sub with
                  | Some count, Some below => Some (add (add count (wc sub)) below)
                  | _, _ => None
                  end)
               l (Some acc)).
Proof.
  induction l as [|y l IH]; intros Hg acc; [done|].
  cbn [fold_left]. destruct (Hg y ltac:(by left)) as [b ->].
  apply IH. intros x Hx. apply Hg. by right.
Qed.

Lemma countSubsectionWords_total (h : heap) (fuel : nat) :
  forall secs out,
    flatten fuel h secs = Some out ->
    forall x, x ∈ secs -> is_Some (countSubsectionWords fuel h x).
Proof.
  induction fuel as [|fuel IH]; intros secs out H x Hx; [done|].
  rewrite flatten_S in H.
  destruct (flat_mapM_each _ _ _ H x Hx) as [lx Hlx]. cbv beta in Hlx.
  cbn [countSubsectionWords].
  destruct (Subsections (deref h x)) as [|c subs] eqn:E; [done|].
  destruct (flatten fuel h (c :: subs)) as [below|] eqn:Hb; [|done].
  apply count_fold_Some. intros y Hy. by apply (IH _ _ Hb).
Qed.

Lemma total_words_built (mwSections : list MWSection.t)
    (wikiURL title leadContent : string) (start : Z) :
  let r := buildSectionsTree mwSections wikiURL title leadContent in
  is_Some (total_words (fst r) (snd r) start).
Proof.
  intros r. destruct mwSections as [|e rest] eqn:E; [done|].
  destruct (flatten_buildSectionsTree (e :: rest) wikiURL title leadContent
              ltac:(discriminate)) as [Hfl _].
  fold r in Hfl. unfold total_words. apply count_fold_Some.
  intros x Hx. by apply (countSubsectionWords_total _ _ _ _ Hfl).
Qed.

(** *** Enrichments fail open *)

(** C9.  When the fetch of the category members succeeds and the fetch of
    the parent categories fails, [GetCategory] returns a response, with an
    empty list of parent categories.  When the two fetches of
    [GetPageOutline] and the conversion of the lead succeed and the fetch of
    the wikitext fails, [GetPageOutline] returns an outline, without an
    infobox. *)
Theorem C9_fail_open `{HtmlLib} (client : Client) (wikiURL : string) :
  (forall category limit w resp q w1 e w2,
      Get (items w) (CategoryCacheKey wikiURL (category +:+ ":" +:+ Itoa limit)) (now w)
      = None ->
      MakeRequest client wikiURL (categoryParams (categoryTitle category) limit) w
      = (Ret resp, w1) ->
      mwResponse.Query resp = Some q ->
      getParentCategories client wikiURL (categoryTitle category) w1 = (Fail e, w2) ->
      exists categoryResp w3,
        GetCategory client wikiURL category limit w = (Ret categoryResp, w3) /\
        CategoryResponse.ParentCategories categoryResp = [] /\
        map CategoryMember.Title (CategoryResponse.Members categoryResp)
        = map mwCategoryMember.Title (mwQuery.Categorymembers q)) /\
  (forall title w resp parse w1 leadResp leadParse w2 md e w3,
      Get (items w) (PageCacheKey wikiURL (title +:+ ":outline")) (now w) = None ->
      MakeRequest client wikiURL (outlineParams title) w = (Ret resp, w1) ->
      mwResponse.Parse resp = Some parse ->
      MakeRequest client wikiURL (leadParams title) w1 = (Ret leadResp, w2) ->
      mwResponse.Parse leadResp = Some leadParse ->
      ConvertString (mwParse.Text leadParse) = Ok md ->
      getPageWikitext client wikiURL title w2 = (Fail e, w3) ->
      exists outline w4,
        GetPageOutline client wikiURL title w = (Ret outline, w4) /\
        PageOutline.Infobox outline = None /\
        PageOutline.Title outline = mwParse.Title parse).
Proof.
  split.
  - intros category limit w resp q w1 e w2 Hmiss Hmain Hq Hparents.
    unfold GetCategory.
    rewrite (bind_Ret _ _ _ _ _ (cacheGet_run _ w)), Hmiss.
    rewrite (bind_Ret _ _ _ _ _ (wrap_Ret _ _ _ _ _ Hmain)), Hq.
    rewrite (bind_Ret _ _ _ _ _ (attempt_Fail _ _ _ _ Hparents)).
    unfold bind, cacheSet, ret. eexists _, _. split; [reflexivity|].
    cbn [CategoryResponse.ParentCategories CategoryResponse.Members].
    split; [done|]. rewrite map_map. by apply map_ext.
  - intros title w resp parse w1 leadResp leadParse w2 md e w3
      Hmiss Hmain Hparse Hlead HleadParse Hmd Hwikitext.
    unfold GetPageOutline.
    rewrite (bind_Ret _ _ _ _ _ (cacheGet_run _ w)), Hmiss.
    rewrite (bind_Ret _ _ _ _ _ (wrap_Ret _ _ _ _ _ Hmain)), Hparse.
    rewrite (bind_Ret _ _ _ _ _ (wrap_Ret _ _ _ _ _ Hlead)), HleadParse.
    unfold HTMLToMarkdown. rewrite Hmd.
    rewrite (bind_Ret _ _ w2 w2 (cleanupMarkdown md) eq_refl).
    pose proof (total_words_built (mwParse.Sections parse) wikiURL title
                  (cleanupMarkdown md) (CountWords (cleanupMarkdown md))) as Htotal.
    destruct (buildSectionsTree (mwParse.Sections parse) wikiURL title
                (cleanupMarkdown md)) as [h sections].
    cbn [fst snd] in Htotal. destruct Htotal as [totalWords ->].
    rewrite (bind_Ret _ _ _ _ _ (attempt_Fail _ _ _ _ Hwikitext)).
    unfold bind, cacheSet, ret. eexists _, _. split; [reflexivity|]. by split.
Qed.

Lemma C9_fail_open_witness :
  (exists categoryResp w3,
      GetCategory Mock.client "https://en.wikipedia.org" "Mathematicians" 5 Mock.start
      = (Ret categoryResp, w3) /\
      CategoryResponse.ParentCategories categoryResp = []) /\
  (exists outline w4,
      @GetPageOutline Mock.html_lines Mock.client "https://en.wikipedia.org"
        "Ada Lovelace" Mock.start = (Ret outline, w4) /\
      PageOutline.Infobox outline = None).
Proof.
  destruct (C9_fail_open (H := Mock.html_lines) Mock.client "https://en.wikipedia.org")
    as [Hcat Hout].
  split.
  - edestruct (Hcat "Mathematicians" 5 Mock.start) as (c & w3 & Hrun & Hparents & _);
      [vm_compute; reflexivity | vm_compute; reflexivity | reflexivity
      | vm_compute; reflexivity |].
    exists c, w3. by split.
  - edestruct (Hout "Ada Lovelace" Mock.start) as (o & w4 & Hrun & Hinfobox & _);
      [vm_compute; reflexivity | vm_compute; reflexivity | reflexivity
      | vm_compute; reflexivity | reflexivity | reflexivity
      | vm_compute; reflexivity |].
    exists o, w4. by split.
Defined.

(** An outline that [GetPageOutline] has just built flattens without
    running out of fuel, to the sections in the order of the table of
    contents. *)
Lemma GetPageOutline_flattens `{HtmlLib} (client : Client) (wikiURL title : string)
    (w w1 : World) (outline : PageOutline.t) :
  Get (items w) (PageCacheKey wikiURL (title +:+ ":outline")) (now w) = None ->
  GetPageOutline client wikiURL title w = (Ret outline, w1) ->
  flattenSections (PageOutline.Heap outline) (PageOutline.Sections outline)
  = Some (seq 0 (length (PageOutline.Heap outline))).
Proof.
  intros Hmiss Hrun. unfold GetPageOutline in Hrun.
  rewrite (bind_Ret _ _ _ _ _ (cacheGet_run _ w)), Hmiss in Hrun.
  unfold bind at 1 in Hrun.
  destruct (wrap _ _ w) as [[resp|e|p] wa]; [|done|done].
  destruct (mwResponse.Parse resp) as [parse|]; [|done].
  unfold bind at 1 in Hrun.
  destruct (wrap _ _ wa) as [[leadResp|e|p] wb]; [|done|done].
  destruct (mwResponse.Parse leadResp) as [leadParse|]; [|done].
  unfold bind at 1 in Hrun.
  destruct (wrap _ _ wb) as [[leadMarkdown|e|p] wc]; [|done|done].
  pose proof (flatten_buildSectionsTree (mwParse.Sections parse) wikiURL title
                leadMarkdown) as Hbuilt.
  destruct (buildSectionsTree (mwParse.Sections parse) wikiURL title leadMarkdown)
    as [h sections] eqn:Hb.
  destruct (total_words h sections _) as [totalWords|]; [|done].
  unfold bind at 1 in Hrun.
  destruct (attempt _ wc) as [[wikitext|e|p] wd]; [|done|done].
  unfold bind, cacheSet, ret in Hrun. injection Hrun as <- <-.
  cbn [PageOutline.Heap PageOutline.Sections].
  destruct (mwParse.Sections parse) as [|e0 rest].
  - by injection Hb as <- <-.
  - by destruct (Hbuilt ltac:(discriminate)) as [Hfl _].
Qed.

(** *** Section lookup *)



End ToolsProps.

(** ** Link extraction *)

Module LinksProps.
Import GoStrings Go Markdown.

Lemma visit_anchor_NoDup (anchors : list (option string)) :
  forall links seen,
    NoDup links ->
    (forall t, t ∈ links -> seen !! t = Some true) ->
    NoDup (fst (fold_left visit_anchor anchors (links, seen))).
Proof.
  induction anchors as [|a anchors IH]; intros links seen Hnd Hseen; [done|].
  cbn [fold_left]. unfold visit_anchor at 2.
  destruct a as [href|]; [|by apply IH].
  destruct (isEmpty (extractTitleFromHref href)); [by apply IH|].
  destruct (seen !! extractTitleFromHref href) as [[|]|] eqn:E; cbn [default];
    try (by apply IH).
  - apply IH.
    + apply NoDup_app. repeat split; [done| |apply NoDup_singleton].
      intros t Ht ->%list_elem_of_singleton. apply Hseen in Ht. congruence.
    + intros t [Ht| ->%list_elem_of_singleton]%elem_of_app.
      * destruct (decide (extractTitleFromHref href = t)) as [->|Hne].
        -- apply lookup_insert_eq.
        -- rewrite lookup_insert_ne by done. by apply Hseen.
      * apply lookup_insert_eq.
  - apply IH.
    + apply NoDup_app. repeat split; [done| |apply NoDup_singleton].
      intros t Ht ->%list_elem_of_singleton. apply Hseen in Ht. congruence.
    + intros t [Ht| ->%list_elem_of_singleton]%elem_of_app.
      * destruct (decide (extractTitleFromHref href = t)) as [->|Hne].
        -- apply lookup_insert_eq.
        -- rewrite lookup_insert_ne by done. by apply Hseen.
      * apply lookup_insert_eq.
Qed.

(** No title is extracted twice. *)
Lemma ExtractLinks_NoDup `{HtmlLib} (html : string) : NoDup (ExtractLinks html).
Proof.
  unfold ExtractLinks. destruct (anchor_hrefs html) as [anchors|]; [|constructor].
  apply visit_anchor_NoDup; [constructor|]. intros t Ht. by apply not_elem_of_nil in Ht.
Qed.

(** Two anchors to the same page, one with a fragment, give one title. *)
Lemma ExtractLinks_same_page `{HtmlLib} (html : string) :
  anchor_hrefs html
  = Some [Some "/wiki/Go_(programming_language)";
          Some "/wiki/Go_(programming_language)#section"] ->
  ExtractLinks html = ["Go (programming language)"].
Proof. intros Hdoc. unfold ExtractLinks. rewrite Hdoc. vm_compute. reflexivity. Qed.

(** A link of neither shape gives no title. *)
Lemma extractTitleFromHref_other (href : string) :
  HasPrefix href "/wiki/" = false -> Contains href "title=" = false ->
  extractTitleFromHref href = EmptyString.
Proof. intros H1 H2. unfold extractTitleFromHref. by rewrite H1, H2. Qed.

Lemma visit_anchor_elem (anchors : list (option string)) :
  forall links seen,
    (forall t, t ∈ links <-> seen !! t = Some true) ->
    forall t,
      t ∈ fst (fold_left visit_anchor anchors (links, seen)) <->
      t ∈ links \/
      exists href, Some href ∈ anchors /\ extractTitleFromHref href = t /\
                   t <> EmptyString.
Proof.
  induction anchors as [|a anchors IH]; intros links seen Hseen t.
  - cbn [fold_left fst]. split; [by left|].
    intros [Ht|(href & Hin & _)]; [done|]. by apply not_elem_of_nil in Hin.
  - cbn [fold_left]. unfold visit_anchor at 2.
    destruct a as [href|].
    + destruct (isEmpty (extractTitleFromHref href)) eqn:Hempty.
      * rewrite (IH links seen Hseen). split; intros [Ht|(h' & Hin & Ht & Hne)].
        -- by left.
        -- right. exists h'. split; [by right|done].
        -- by left.
        -- right. exists h'. split; [|done].
           apply elem_of_cons in Hin as [[= ->]|Hin]; [|done].
           subst t. by destruct (extractTitleFromHref href).
      * assert (extractTitleFromHref href <> EmptyString) as Hne0
          by (by destruct (extractTitleFromHref href)).
        destruct (default false (seen !! extractTitleFromHref href)) eqn:Hs.
        -- assert (extractTitleFromHref href ∈ links) as Hold.
           { apply Hseen. by destruct (seen !! extractTitleFromHref href) as [[|]|]. }
           rewrite (IH links seen Hseen). split; intros [Ht|(h' & Hin & Ht & Hne)].
           ++ by left.
           ++ right. exists h'. split; [by right|done].
           ++ by left.
           ++ apply elem_of_cons in Hin as [[= ->]|Hin]; [left; by subst t|].
              right. by exists h'.
        -- rewrite (IH (links ++ [extractTitleFromHref href])
                      (<[extractTitleFromHref href := true]> seen)).
           ++ rewrite elem_of_app, list_elem_of_singleton.
              split; intros [Ht|(h' & Hin & Ht & Hne)].
              ** destruct Ht as [Ht| ->]; [by left|].
                 right. exists href. split; [by left|done].
              ** right. exists h'. split; [by right|done].
              ** left. by left.
              ** apply elem_of_cons in Hin as [[= ->]|Hin]; [left; right; by subst t|].
                 right. by exists h'.
           ++ intros t'. rewrite elem_of_app, list_elem_of_singleton.
              destruct (decide (extractTitleFromHref href = t')) as [<-|Hne].
              ** rewrite lookup_insert_eq. split; [done|]. by right.
              ** rewrite lookup_insert_ne by done. rewrite <- Hseen.
                 split; [intros [Ht|Ht]; [done|congruence] | by left].
    + rewrite (IH links seen Hseen). split; intros [Ht|(h' & Hin & Ht & Hne)].
      * by left.
      * right. exists h'. split; [by right|done].
      * by left.
      * apply elem_of_cons in Hin as [[=]|Hin]. right. by exists h'.
Qed.

(** What is extracted: the non-empty titles of the links of the document. *)
Lemma ExtractLinks_elem `{HtmlLib} (html : string) (anchors : list (option string))
    (t : string) :
  anchor_hrefs html = Some anchors ->
  t ∈ ExtractLinks html <->
  exists href, Some href ∈ anchors /\ extractTitleFromHref href = t /\
               t <> EmptyString.
Proof.
  intros Hdoc. unfold ExtractLinks. rewrite Hdoc.
  rewrite (visit_anchor_elem anchors [] ∅).
  - split; [intros [Ht|Ht]; [by apply not_elem_of_nil in Ht|done] | by right].
  - intros t'. split; [intros Ht; by apply not_elem_of_nil in Ht | done].
Qed.

(** C5, what the code does.  [decodeTitle] replaces underscores and nothing
    else: a percent-encoded title comes out with its escapes in place, from
    both shapes of link, and not as the two bytes of the letter e-acute (or
    as the two plus signs) that decoding would give. *)
Theorem C5_percent_encoding_kept :
  extractTitleFromHref "/wiki/Caf%C3%A9" = "Caf%C3%A9" /\
  extractTitleFromHref "/wiki/Caf%C3%A9" <> bytes [67; 97; 102; 195; 169]%nat /\
  extractTitleFromHref "/w/index.php?title=C%2B%2B&action=history" = "C%2B%2B" /\
  @ExtractLinks Mock.html_lines "/wiki/Caf%C3%A9" = ["Caf%C3%A9"].
Proof. repeat split; try (vm_compute; reflexivity). vm_compute. discriminate. Qed.

End LinksProps.

(** ** The TTL cache: keys, the boundary of expiry, sweeps *)

Module CacheMore.
Import Cache CacheProps.

Section WithValue.
Context {V : Type}.
Implicit Types (c : items V) (key : string) (v : V).

(** What a sweep leaves under a key. *)
Lemma lookup_cleanup c t key :
  cleanup c t !! key
  = match c !! key with
    | Some item => if After t (expiration item) then None else Some item
    | None => None
    end.
Proof.
  unfold cleanup. destruct (c !! key) as [item|] eqn:Hc.
  - destruct (After t (expiration item)) eqn:Hexp.
    + apply map_lookup_filter_None. right. intros x Hx. simpl.
      rewrite Hc in Hx. injection Hx as <-. by rewrite Hexp.
    + apply map_lookup_filter_Some. split; [done|]. simpl. by rewrite Hexp.
  - apply map_lookup_filter_None. by left.
Qed.

End WithValue.

(** X1.  [Set] and [Delete] act on one key.  A [Get] of another key is not
    affected by either; after [Delete] the key is absent at every instant;
    a second [Set] replaces value and expiration of the first, whatever its
    TTL was; [Delete] undoes [Set] as far as the key goes, and [Set] after
    [Delete] is [Set]. *)
Theorem X1_Set_Delete_one_key (V : Type) (c : items V) (key key' : string)
    (v v' : V) (ttl ttl' t0 t1 now : Z) :
  Get (Delete c key) key' now
  = (if decide (key' = key) then None else Get c key' now) /\
  Get (Set_ c key v ttl t0) key' now
  = (if decide (key' = key)
     then (if After now (t0 + ttl) then None else Some v)
     else Get c key' now) /\
  Set_ (Set_ c key v ttl t0) key v' ttl' t1 = Set_ c key v' ttl' t1 /\
  Delete (Set_ c key v ttl t0) key = Delete c key /\
  Set_ (Delete c key) key v ttl t0 = Set_ c key v ttl t0.
Proof.
  split; [|split; [|split; [|split]]].
  - unfold Get, Delete. destruct (decide (key' = key)) as [->|Hne].
    + by rewrite lookup_delete_eq.
    + by rewrite lookup_delete_ne.
  - destruct (decide (key' = key)) as [->|Hne].
    + apply Get_Set_eq.
    + by apply Get_Set_ne.
  - unfold Set_. apply insert_insert_eq.
  - unfold Set_, Delete. apply delete_insert_eq.
  - unfold Set_, Delete. apply insert_delete_eq.
Qed.

(** X2.  Expiry is strict.  At the very instant of expiration,
    [time.Now().After(item.expiration)] is still false and the value is
    returned.  So an entry stored with a TTL of zero can be read back at
    the instant it was stored, and only then; an entry stored with a
    negative TTL can never be read back. *)
Theorem X2_expiry_boundary (V : Type) (c : items V) (key : string) (v : V)
    (ttl t0 : Z) :
  Get (Set_ c key v ttl t0) key (t0 + ttl) = Some v /\
  (0 <= ttl -> Get (Set_ c key v ttl t0) key t0 = Some v) /\
  (ttl = 0 -> forall now, t0 < now -> Get (Set_ c key v ttl t0) key now = None) /\
  (ttl < 0 -> forall now, t0 <= now -> Get (Set_ c key v ttl t0) key now = None).
Proof.
  split; [|split; [|split]].
  - rewrite Get_Set_eq. by rewrite (proj2 (After_false _ _)) by lia.
  - intros H. rewrite Get_Set_eq. by rewrite (proj2 (After_false _ _)) by lia.
  - intros H now Hnow. rewrite Get_Set_eq.
    by rewrite (proj2 (After_true _ _)) by lia.
  - intros H now Hnow. rewrite Get_Set_eq.
    by rewrite (proj2 (After_true _ _)) by lia.
Qed.

Lemma X2_expiry_boundary_witness :
  Get (Set_ (@NewCache nat) "k" 7%nat 0 100) "k" 100 = Some 7%nat /\
  Get (Set_ (@NewCache nat) "k" 7%nat 0 100) "k" 101 = None /\
  Get (Set_ (@NewCache nat) "k" 7%nat (-1) 100) "k" 100 = None.
Proof.
  destruct (X2_expiry_boundary nat NewCache "k" 7%nat 0 100) as (_ & H0 & H1 & _).
  destruct (X2_expiry_boundary nat NewCache "k" 7%nat (-1) 100) as (_ & _ & _ & H2).
  split; [|split].
  - apply H0. lia.
  - apply H1; [reflexivity | lia].
  - apply H2; lia.
Defined.

(** X3.  A sweep at instant [t] keeps exactly the entries that have not
    expired at [t], unchanged, and drops the others: nothing is added, the
    map does not grow, and no entry it keeps expires before [t].  Sweeping
    at [t] and then at a later [t'] leaves what one sweep at [t'] leaves. *)
Theorem X3_cleanup_sweeps (V : Type) (c : items V) (t : Z) :
  (forall key item,
      cleanup c t !! key = Some item <->
      c !! key = Some item /\ t <= expiration item) /\
  cleanup c t ⊆ c /\
  (size (cleanup c t) <= size c)%nat /\
  cleanup (cleanup c t) t = cleanup c t /\
  (forall t', t <= t' -> cleanup (cleanup c t) t' = cleanup c t').
Proof.
  assert (forall t1 t2, t1 <= t2 -> cleanup (cleanup c t1) t2 = cleanup c t2) as Hcomp.
  { intros t1 t2 Hle. apply map_eq. intros key. rewrite !lookup_cleanup.
    destruct (c !! key) as [item|]; [|done].
    destruct (After t1 (expiration item)) eqn:H1; [|done].
    apply After_true in H1. by rewrite (proj2 (After_true t2 _)) by lia. }
  split; [|split; [|split; [|split]]].
  - intros key item. rewrite lookup_cleanup.
    destruct (c !! key) as [item'|]; [|by split; [|intros []]].
    destruct (After t (expiration item')) eqn:H1.
    + apply After_true in H1. split; [done|]. intros [[= ->] H]. lia.
    + apply After_false in H1. split; [by intros [= ->] | by intros [H _]].
  - apply map_filter_subseteq.
  - apply map_subseteq_size, map_filter_subseteq.
  - apply Hcomp. lia.
  - exact (Hcomp t).
Qed.

Lemma X3_cleanup_sweeps_witness :
  cleanup (cleanup (Set_ (Set_ (@NewCache nat) "a" 1%nat 10 0) "b" 2%nat 30 0) 20) 25
  = cleanup (Set_ (Set_ (@NewCache nat) "a" 1%nat 10 0) "b" 2%nat 30 0) 25.
Proof.
  apply (X3_cleanup_sweeps nat (Set_ (Set_ NewCache "a" 1%nat 10 0) "b" 2%nat 30 0) 20).
  lia.
Defined.

End CacheMore.

(** ** Cache keys *)

Module CacheKeyProps.
Import GoStrings Cache StringFacts CacheKeySpec.

Lemma CacheKey_loop_S (parts : list string) :
  forall key i, CacheKey_loop key (S i) parts = key +:+ key_tail parts.
Proof.
  induction parts as [|part rest IH]; intros key i.
  - simpl. by rewrite app_nil_r.
  - cbn [CacheKey_loop key_tail]. change (0 <? S i)%nat with true. cbv iota.
    rewrite IH. by rewrite !app_assoc.
Qed.

Lemma CacheKey_cons (part : string) (rest : list string) :
  CacheKey (part :: rest) = part +:+ key_tail rest.
Proof. unfold CacheKey. cbn [CacheKey_loop]. apply CacheKey_loop_S. Qed.

Lemma Join_cons (part : string) (rest : list string) :
  Join (part :: rest) ":" = part +:+ key_tail rest.
Proof.
  revert part. induction rest as [|q rest IH]; intros part.
  - simpl. by rewrite app_nil_r.
  - change (Join (part :: q :: rest) ":") with (part +:+ ":" +:+ Join (q :: rest) ":").
    rewrite IH. reflexivity.
Qed.

Lemma Contains_colon_cons (c : ascii) (p : string) :
  Contains (String c p) ":" = false -> c <> ":"%char /\ Contains p ":" = false.
Proof.
  intros H. pose proof (proj1 (Contains_false_iff _ _) H) as Hno. split.
  - intros ->. by apply (Hno EmptyString p).
  - apply Contains_false_iff. intros a b ->. by apply (Hno (String c a) b).
Qed.

Lemma split_colon_free (p : string) :
  Contains p ":" = false ->
  forall rest cur,
    split_go ":" (p +:+ rest) O cur = split_go ":" rest O (cur +:+ p).
Proof.
  induction p as [|c p IH]; intros Hp rest cur.
  - simpl. by rewrite app_nil_r.
  - apply Contains_colon_cons in Hp as [Hc Hp].
    cbn [String.append split_go HasPrefix].
    destruct (Ascii.eqb ":" c) eqn:E; [apply Ascii.eqb_eq in E; congruence|].
    rewrite IH by done. f_equal. rewrite app_assoc. reflexivity.
Qed.

Lemma split_key_tail (parts : list string) :
  Forall (fun p => Contains p ":" = false) parts ->
  forall cur, split_go ":" (key_tail parts) O cur = cur :: parts.
Proof.
  induction 1 as [|p parts Hp _ IH]; intros cur; [reflexivity|].
  cbn [key_tail]. change (":" +:+ p +:+ key_tail parts)
    with (String ":" (p +:+ key_tail parts)).
  cbn [split_go HasPrefix]. change (Ascii.eqb ":" ":") with true. cbv iota.
  cbn [String.length Nat.pred]. rewrite split_colon_free by done.
  rewrite IH. reflexivity.
Qed.

Lemma Split_CacheKey (parts : list string) :
  parts <> [] -> Forall (fun p => Contains p ":" = false) parts ->
  Split (CacheKey parts) ":" = parts.
Proof.
  destruct parts as [|p rest]; [done|]. intros _ [Hp Hrest]%Forall_cons.
  rewrite CacheKey_cons. unfold Split. rewrite split_colon_free by done.
  by rewrite split_key_tail.
Qed.

(** X4.  [CacheKey] is [strings.Join] with [":"].  When no part contains a
    colon, the parts can be read back from the key with [strings.Split], so
    two sequences of colon-free parts with the same key are the same
    sequence: keys collide only through colons inside the parts. *)
Theorem X4_CacheKey_round_trip (parts : list string) :
  CacheKey parts = Join parts ":" /\
  (parts <> [] -> Forall (fun p => Contains p ":" = false) parts ->
   Split (CacheKey parts) ":" = parts /\
   forall parts',
     parts' <> [] -> Forall (fun p => Contains p ":" = false) parts' ->
     CacheKey parts = CacheKey parts' -> parts = parts').
Proof.
  split.
  - destruct parts as [|p rest]; [reflexivity|].
    by rewrite CacheKey_cons, Join_cons.
  - intros Hne Hfree. split; [by apply Split_CacheKey|].
    intros parts' Hne' Hfree' Heq.
    rewrite <- (Split_CacheKey parts Hne Hfree), Heq.
    by apply Split_CacheKey.
Qed.

Lemma X4_CacheKey_round_trip_witness :
  Split (CacheKey ["section"; "wiki.example.org"; "Ada Lovelace"; "3"]) ":"
  = ["section"; "wiki.example.org"; "Ada Lovelace"; "3"].
Proof.
  destruct (X4_CacheKey_round_trip ["section"; "wiki.example.org"; "Ada Lovelace"; "3"])
    as [_ H].
  destruct H as [H _]; [discriminate | | exact H].
  repeat (constructor; [vm_compute; reflexivity|]). constructor.
Defined.

(** X5.  The six kinds of key never collide with each other, whatever the
    wiki URLs, titles, queries and indices are: each helper starts its key
    with the name of its kind and a colon. *)
Theorem X5_key_kinds_disjoint (u1 t1 u2 t2 i2 u3 q3 u4 u5 c5 u6 t6 : string) :
  NoDup [ PageCacheKey u1 t1; SectionCacheKey u2 t2 i2; SearchCacheKey u3 q3;
          InfoCacheKey u4; CategoryCacheKey u5 c5; BacklinksCacheKey u6 t6 ].
Proof.
  unfold PageCacheKey, SectionCacheKey, SearchCacheKey, InfoCacheKey,
    CategoryCacheKey, BacklinksCacheKey.
  rewrite !CacheKey_cons. cbn [String.append].
  repeat (apply NoDup_cons; split;
          [ rewrite ?elem_of_cons, elem_of_nil; intros H;
            repeat (destruct H as [H|H]; [discriminate H|]); exact H |]).
  apply NoDup_nil_2.
Qed.

End CacheKeyProps.

(** ** Single characters in strings *)

Module CharFacts.
Import GoStrings StringFacts TrimFacts ListSpec.

Lemma Contains_char_cons (c x : ascii) (s : string) :
  Contains (String x s) (String c EmptyString) = false <->
  x <> c /\ Contains s (String c EmptyString) = false.
Proof.
  split.
  - intros H. pose proof (proj1 (Contains_false_iff _ _) H) as Hno. split.
    + intros ->. by apply (Hno EmptyString s).
    + apply Contains_false_iff. intros a b ->. by apply (Hno (String x a) b).
  - intros [Hx Hs]. apply Contains_false_iff. intros a b Hab.
    destruct a as [|y a]; simpl in Hab.
    + injection Hab as -> _. done.
    + injection Hab as _ ->.
      by apply (proj1 (Contains_false_iff _ _) Hs a b).
Qed.

Lemma Contains_empty (p : ascii) : Contains EmptyString (String p EmptyString) = false.
Proof. reflexivity. Qed.

Lemma Contains_take (n : nat) (s p : string) :
  Contains s p = false -> Contains (take n s) p = false.
Proof.
  intros H. apply (Contains_slice s EmptyString (take n s) (drop n s)); [|done].
  simpl. by rewrite take_drop.
Qed.

Lemma Contains_drop (n : nat) (s p : string) :
  Contains s p = false -> Contains (drop n s) p = false.
Proof.
  intros H. apply (Contains_slice s (take n s) (drop n s) EmptyString); [|done].
  by rewrite app_nil_r, take_drop.
Qed.

(** The text before the first occurrence of a character does not contain
    it. *)
Lemma Index_char_take (c : ascii) (t : string) :
  forall i, Index t (String c EmptyString) = Some i ->
    Contains (take i t) (String c EmptyString) = false.
Proof.
  induction t as [|x t IH]; intros i; [done|].
  cbn [Index HasPrefix]. destruct (Ascii.eqb c x) eqn:E.
  - intros [= <-]. reflexivity.
  - destruct (Index t (String c EmptyString)) as [j|]; [|done].
    intros [= <-]. cbn [take]. apply Contains_char_cons. split; [|by apply IH].
    intros ->. by rewrite Ascii.eqb_refl in E.
Qed.

Lemma HasPrefix_char (c x : ascii) (s : string) :
  HasPrefix (String x s) (String c EmptyString) = Ascii.eqb c x.
Proof. cbn [HasPrefix]. by destruct (Ascii.eqb c x). Qed.

(** A character that does not occur in a text does not start any of its
    final segments. *)
Lemma Contains_char_drop (c : ascii) (s : string) :
  Contains s (String c EmptyString) = false ->
  forall k, HasPrefix (drop k s) (String c EmptyString) = false.
Proof.
  induction s as [|x s IH]; intros H k.
  - by destruct k.
  - apply Contains_char_cons in H as [Hx Hs]. destruct k as [|k]; cbn [drop].
    + rewrite HasPrefix_char. apply Ascii.eqb_neq. congruence.
    + by apply IH.
Qed.

End CharFacts.

(** ** Titles of links *)

Module TitleProps.
Import GoStrings Go Markdown StringFacts TrimFacts CharFacts.

Lemma cut_at_char (t : string) (c : ascii) :
  Contains (cut_at t (String c EmptyString)) (String c EmptyString) = false.
Proof.
  unfold cut_at. destruct (Index t (String c EmptyString)) as [i|] eqn:E.
  - by apply Index_char_take.
  - unfold Contains. rewrite E. apply bool_decide_eq_false. by intros [? ?].
Qed.

Lemma cut_at_keeps (t sep p : string) :
  Contains t p = false -> Contains (cut_at t sep) p = false.
Proof. intros H. unfold cut_at. destruct (Index t sep); [by apply Contains_take | done]. Qed.

Lemma replace_underscore (t : string) :
  Contains (replace_go "_" " " t O) "_" = false /\
  (forall c : ascii, c <> " "%char ->
     Contains t (String c EmptyString) = false ->
     Contains (replace_go "_" " " t O) (String c EmptyString) = false).
Proof.
  induction t as [|x t [IH1 IH2]]; [by split|].
  cbn [replace_go]. rewrite HasPrefix_char. cbn [String.length Nat.pred].
  destruct (Ascii.eqb "_" x) eqn:E.
  - change (" " +:+ replace_go "_" " " t 0) with (String " " (replace_go "_" " " t 0)).
    split.
    + apply Contains_char_cons. by split.
    + intros c Hc [_ Ht]%Contains_char_cons. apply Contains_char_cons.
      split; [congruence | by apply IH2].
  - split.
    + apply Contains_char_cons. split; [|done].
      intros ->. by rewrite Ascii.eqb_refl in E.
    + intros c Hc [Hx Ht]%Contains_char_cons. apply Contains_char_cons.
      split; [done | by apply IH2].
Qed.

Lemma decodeTitle_clean (t : string) :
  Contains (decodeTitle t) "_" = false /\
  (Contains t "#" = false -> Contains (decodeTitle t) "#" = false).
Proof.
  unfold decodeTitle, ReplaceAll. destruct (replace_underscore t) as [H1 H2].
  split; [done|]. by apply H2.
Qed.

(** X6.  The title [extractTitleFromHref] gives for a link never contains
    an underscore, and never the mark of a fragment: what follows the first
    ["#"] is cut off and every underscore becomes a space, for both shapes
    of link; a link of neither shape gives the empty title. *)
Theorem X6_title_clean (href : string) :
  Contains (extractTitleFromHref href) "_" = false /\
  Contains (extractTitleFromHref href) "#" = false.
Proof.
  unfold extractTitleFromHref.
  destruct (HasPrefix href "/wiki/").
  - destruct (decodeTitle_clean (cut_at (TrimPrefix href "/wiki/") "#")) as [H1 H2].
    split; [done|]. apply H2, cut_at_char.
  - destruct (Contains href "title="); [|by split].
    destruct (Split href "title=") as [|x [|title rest]]; [by split | by split |].
    destruct (decodeTitle_clean (cut_at (cut_at title "&") "#")) as [H1 H2].
    split; [done|]. apply H2, cut_at_char.
Qed.

End TitleProps.

(** ** Lists of distinct titles *)

Module DistinctFacts.
Import ListSpec.

Lemma distinct_go_ext (l : list string) :
  forall seen seen',
    (forall t, t ∈ seen <-> t ∈ seen') -> distinct_go seen l = distinct_go seen' l.
Proof.
  induction l as [|x l IH]; intros seen seen' Hsame; [done|].
  cbn [distinct_go].
  rewrite (bool_decide_ext (x ∈ seen) (x ∈ seen')) by apply Hsame.
  destruct (bool_decide (x ∈ seen')); [by apply IH|].
  f_equal. apply IH. intros t. rewrite !elem_of_cons. by rewrite Hsame.
Qed.

Lemma distinct_go_fresh (l : list string) :
  forall seen t, t ∈ distinct_go seen l -> (t ∉ seen) /\ (t ∈ l).
Proof.
  induction l as [|x l IH]; intros seen t Ht.
  - by apply not_elem_of_nil in Ht.
  - cbn [distinct_go] in Ht. destruct (bool_decide (x ∈ seen)) eqn:E.
    + apply IH in Ht as [H1 H2]. split; [done | by right].
    + apply bool_decide_eq_false in E.
      apply elem_of_cons in Ht as [->|Ht]; [split; [done | by left]|].
      apply IH in Ht as [H1 H2]. split; [|by right].
      intros Hin. apply H1. by right.
Qed.

Lemma distinct_go_NoDup (l : list string) :
  forall seen, NoDup (distinct_go seen l).
Proof.
  induction l as [|x l IH]; intros seen; [constructor|].
  cbn [distinct_go]. destruct (bool_decide (x ∈ seen)); [apply IH|].
  constructor; [|apply IH].
  intros Hin. apply distinct_go_fresh in Hin as [Hin _]. apply Hin. by left.
Qed.

Lemma distinct_go_sublist (l : list string) :
  forall seen, (distinct_go seen l) `sublist_of` l.
Proof.
  induction l as [|x l IH]; intros seen; [constructor|].
  cbn [distinct_go]. destruct (bool_decide (x ∈ seen)).
  - by apply sublist_cons.
  - by apply sublist_skip.
Qed.

(** Every element of the list is kept once, unless it was seen before. *)
Lemma distinct_go_complete (l : list string) :
  forall seen t, t ∈ l -> t ∉ seen -> t ∈ distinct_go seen l.
Proof.
  induction l as [|x l IH]; intros seen t Ht Hseen.
  - by apply not_elem_of_nil in Ht.
  - cbn [distinct_go]. destruct (bool_decide (x ∈ seen)) eqn:E.
    + apply bool_decide_eq_true in E.
      apply elem_of_cons in Ht as [->|Ht]; [done | by apply IH].
    + destruct (decide (t = x)) as [->|Hne]; [by left|].
      right. apply elem_of_cons in Ht as [->|Ht]; [done|].
      apply IH; [done|]. intros [->|Hin]%elem_of_cons; done.
Qed.

End DistinctFacts.

(** ** Links of a document, and the links of a page *)

Module LinkListProps.
Import GoStrings Go Wiki Markdown Tools ListSpec DistinctFacts.

(** The titles of the anchors that have an [href] and give a title. *)
Lemma ExtractLinks_fold (anchors : list (option string)) :
  forall links seen,
    (forall t, t ∈ links <-> seen !! t = Some true) ->
    fst (fold_left visit_anchor anchors (links, seen))
    = links ++ distinct_go links
                 (List.filter (fun t => negb (isEmpty t))
                    (map extractTitleFromHref (omap id anchors))).
Proof.
  induction anchors as [|a anchors IH]; intros links seen Hseen.
  - simpl. by rewrite app_nil_r.
  - cbn [fold_left]. unfold visit_anchor at 2. destruct a as [href|].
    + change (omap id (Some href :: anchors)) with (href :: omap id anchors).
      cbn [map List.filter].
      destruct (isEmpty (extractTitleFromHref href)) eqn:Hempty; cbn [negb].
      * by apply IH.
      * cbn [distinct_go].
        destruct (default false (seen !! extractTitleFromHref href)) eqn:Hs.
        -- rewrite bool_decide_eq_true_2; [by apply IH|].
           apply Hseen. by destruct (seen !! extractTitleFromHref href) as [[|]|].
        -- rewrite bool_decide_eq_false_2
             by (intros Hin; apply Hseen in Hin; by rewrite Hin in Hs).
           rewrite (IH (links ++ [extractTitleFromHref href])
                      (<[extractTitleFromHref href := true]> seen)).
           ++ rewrite <- app_assoc. cbn [app]. do 2 f_equal.
              apply distinct_go_ext. intros t.
              rewrite elem_of_app, list_elem_of_singleton, elem_of_cons. tauto.
           ++ intros t. rewrite elem_of_app, list_elem_of_singleton.
              destruct (decide (extractTitleFromHref href = t)) as [<-|Hne].
              ** rewrite lookup_insert_eq. split; [done | by right].
              ** rewrite lookup_insert_ne by done. rewrite <- Hseen.
                 split; [intros [Ht|Ht]; [done|congruence] | by left].
    + change (omap id (None :: anchors)) with (omap id anchors). by apply IH.
Qed.

(** X7.  [ExtractLinks] returns the non-empty titles of the anchors that
    have an [href], each once, in the order in which they first appear in
    the document; for a document that cannot be read it returns nothing. *)
Theorem X7_ExtractLinks_first_appearance `{HtmlLib} (html : string) :
  ExtractLinks html
  = match anchor_hrefs html with
    | Some anchors =>
        distinct (List.filter (fun t => negb (isEmpty t))
                    (map extractTitleFromHref (omap id anchors)))
    | None => []
    end.
Proof.
  unfold ExtractLinks. destruct (anchor_hrefs html) as [anchors|]; [|done].
  rewrite (ExtractLinks_fold anchors [] ∅); [done|].
  intros t. split; [intros Ht; by apply not_elem_of_nil in Ht | done].
Qed.

Lemma seeAlso_loop_spec (links : list MWLink) :
  forall seeAlso seen,
    (length seeAlso < 10)%nat ->
    (forall t, t ∈ seeAlso <-> seen !! t = Some true) ->
    seeAlso_loop links seeAlso seen
    = firstn 10 (seeAlso ++ distinct_go seeAlso
                            (List.filter (fun t => negb (is_meta t))
                               (map MWLink_Title links))).
Proof.
  induction links as [|link links IH]; intros seeAlso seen Hlen Hseen.
  - simpl. rewrite app_nil_r. symmetry. apply take_ge. lia.
  - cbn [seeAlso_loop map List.filter].
    destruct (is_meta (MWLink_Title link)) eqn:Hmeta; cbn [negb]; [by apply IH|].
    cbn [distinct_go].
    assert (forall t : string, seen !! t <> Some true ->
              forall t', t' ∈ seeAlso ++ [t] <-> <[t := true]> seen !! t' = Some true)
      as Hseen'.
    { intros t Ht t'. rewrite elem_of_app, list_elem_of_singleton.
      destruct (decide (t = t')) as [<-|Hne].
      - rewrite lookup_insert_eq. split; [done | by right].
      - rewrite lookup_insert_ne by done. rewrite <- Hseen.
        split; [intros [H|H]; [done|congruence] | by left]. }
    assert (forall t : string,
              (seeAlso ++ t :: distinct_go (t :: seeAlso)
                 (List.filter (fun t => negb (is_meta t)) (map MWLink_Title links))
               = (seeAlso ++ [t]) ++ distinct_go (seeAlso ++ [t])
                   (List.filter (fun t => negb (is_meta t)) (map MWLink_Title links)))%list)
      as Hshift.
    { intros t. rewrite <- app_assoc. cbn [app]. do 2 f_equal.
      apply distinct_go_ext. intros t'.
      rewrite elem_of_app, list_elem_of_singleton, elem_of_cons. tauto. }
    destruct (default false (seen !! MWLink_Title link)) eqn:Hs.
    + rewrite bool_decide_eq_true_2; [by apply IH|].
      apply Hseen. by destruct (seen !! MWLink_Title link) as [[|]|].
    + rewrite bool_decide_eq_false_2
        by (intros Hin; apply Hseen in Hin; by rewrite Hin in Hs).
      rewrite Hshift.
      destruct (Nat.leb_spec 10 (length (seeAlso ++ [MWLink_Title link]))) as [Hge|Hlt].
      * symmetry. apply take_app_length'. rewrite length_app in *. simpl in *. lia.
      * apply IH; [done|]. apply Hseen'. intros E. by rewrite E in Hs.
Qed.

(** X8.  [extractSeeAlsoLinks] returns the first ten distinct titles among
    the links of the page that do not start with [Category:], [File:],
    [Wikipedia:], [Template:] or [Help:], in the order in which they first
    appear.  So the list never has more than ten entries, has no entry
    twice, has no entry with one of these prefixes, and is taken from the
    titles of the links in their order. *)
Theorem X8_extractSeeAlsoLinks (links : list MWLink) :
  extractSeeAlsoLinks links
  = firstn 10 (distinct (List.filter (fun t => negb (is_meta t))
                         (map MWLink_Title links))) /\
  (length (extractSeeAlsoLinks links) <= 10)%nat /\
  NoDup (extractSeeAlsoLinks links) /\
  Forall (fun t => is_meta t = false) (extractSeeAlsoLinks links) /\
  extractSeeAlsoLinks links `sublist_of` map MWLink_Title links.
Proof.
  assert (extractSeeAlsoLinks links
          = firstn 10 (distinct (List.filter (fun t => negb (is_meta t))
                                 (map MWLink_Title links)))) as Heq.
  { unfold extractSeeAlsoLinks. rewrite (seeAlso_loop_spec links [] ∅); [done|simpl; lia|].
    intros t. split; [intros Ht; by apply not_elem_of_nil in Ht | done]. }
  split; [exact Heq|]. rewrite Heq. unfold distinct.
  split; [|split; [|split]].
  - rewrite length_take. lia.
  - eapply sublist_NoDup; [apply distinct_go_NoDup | apply sublist_take].
  - apply Forall_take, Forall_forall. intros t [_ Ht]%distinct_go_fresh.
    apply list_elem_of_In, filter_In in Ht as [_ Ht]. by destruct (is_meta t).
  - etrans; [apply sublist_take|]. etrans; [apply distinct_go_sublist|].
    generalize (map MWLink_Title links). intros l.
    induction l as [|x l IH]; [constructor|]. cbn [List.filter].
    destruct (negb (is_meta x)); [by apply sublist_skip | by apply sublist_cons].
Qed.

End LinkListProps.

(** ** Replacement where nothing matches, and plain text *)

Module PlainTextProps.
Import GoStrings Regexp Go Markdown StringFacts RegexpFacts SqueezeFacts CharFacts.

(** Where the pattern matches at no offset, the text comes back as it
    is. *)
Lemma replace_loop_none (r : regex) (repl : string -> captures -> string)
    (s : string) :
  forall pos adj,
    (forall k, match_here r (pos + k) (drop k s) = None) ->
    replace_loop r repl pos s O adj = s.
Proof.
  induction s as [|c s IH]; intros pos adj Hno.
  - cbn [replace_loop]. pose proof (Hno O) as H0. cbn [drop] in H0.
    rewrite Nat.add_0_r in H0. by rewrite H0.
  - cbn [replace_loop]. pose proof (Hno O) as H0. cbn [drop] in H0.
    rewrite Nat.add_0_r in H0. rewrite H0. f_equal. apply IH.
    intros k. specialize (Hno (S k)). cbn [drop] in Hno.
    by rewrite Nat.add_succ_r in Hno.
Qed.

Lemma ReplaceAllString_none (r : regex) (s repl : string) :
  (forall k, match_here r k (drop k s) = None) ->
  ReplaceAllString r s repl = s.
Proof. intros H. unfold ReplaceAllString. by apply replace_loop_none. Qed.

(** A pattern that starts with a character matches only where the text
    starts with it. *)
Lemma match_here_Lit (c : ascii) (r : regex) (pos : nat) (s : string) :
  HasPrefix s (String c EmptyString) = false ->
  match_here (Cat (Lit c) r) pos s = None.
Proof.
  intros H. unfold match_here. cbn [rmatch]. destruct s as [|x s]; [done|].
  rewrite HasPrefix_char in H. by rewrite H.
Qed.

Lemma match_here_Lit2 (c : ascii) (r1 r2 : regex) (pos : nat) (s : string) :
  HasPrefix s (String c EmptyString) = false ->
  match_here (Cat (Cat (Lit c) r1) r2) pos s = None.
Proof.
  intros H. unfold match_here. cbn [rmatch]. destruct s as [|x s]; [done|].
  rewrite HasPrefix_char in H. by rewrite H.
Qed.

Lemma match_here_Rep1 (c : ascii) (pos : nat) (s : string) :
  HasPrefix s (String c EmptyString) = false ->
  match_here (Rep true 1 (chr c)) pos s = None.
Proof.
  intros H. unfold match_here. cbn [rmatch].
  destruct s as [|x s]; cbn [rep_greedy]; [done|].
  rewrite HasPrefix_char in H. unfold chr. by rewrite H.
Qed.

Lemma match_here_heading (pos : nat) (s : string) :
  (pos = O -> HasPrefix s "#" = false) ->
  match_here (seq_of [Bol; Rep true 1 (chr "#"); Rep true 1 perl_space]) pos s = None.
Proof.
  intros H. unfold match_here. cbn [seq_of rmatch].
  destruct pos as [|pos]; [|done]. specialize (H eq_refl).
  destruct s as [|x s]; cbn [rep_greedy]; [done|].
  rewrite HasPrefix_char in H. unfold chr. by rewrite H.
Qed.

(** X9.  A text without asterisks, opening square brackets and backticks,
    that does not start with ["#"], goes through
    [stripMarkdownFormatting] unchanged, so that [CountWords] counts its
    white-space separated fields.  The pattern for headings is anchored at
    the start of the text, not of a line: the marks of a heading further
    down stay in the text and count as a word. *)
Theorem X9_plain_text_unchanged (text : string) :
  Contains text "*" = false -> Contains text "[" = false ->
  Contains text "`" = false -> HasPrefix text "#" = false ->
  stripMarkdownFormatting text = text /\
  CountWords text = Z.of_nat (length (Fields text)).
Proof.
  intros Hstar Hbracket Htick Hhash.
  assert (stripMarkdownFormatting text = text) as Hid.
  { unfold stripMarkdownFormatting.
    rewrite (ReplaceAllString_none (Rep true 1 (chr "*")) text)
      by (intros k; by apply match_here_Rep1, Contains_char_drop).
    rewrite (ReplaceAllString_none _ text "$1")
      by (intros k; by apply match_here_Lit, Contains_char_drop).
    rewrite (ReplaceAllString_none
               (seq_of [Bol; Rep true 1 (chr "#"); Rep true 1 perl_space]) text)
      by (intros k; apply match_here_heading; by intros ->).
    rewrite (ReplaceAllString_none
               (seq_of [lit "```"; Rep true 0 (none_of "`"); lit "```"]) text)
      by (intros k; by apply match_here_Lit2, Contains_char_drop).
    apply ReplaceAllString_none.
    intros k. by apply match_here_Lit, Contains_char_drop. }
  split; [exact Hid|]. unfold CountWords. by rewrite Hid.
Qed.

Lemma X9_plain_text_unchanged_witness :
  stripMarkdownFormatting ("Intro" +:+ nl +:+ "## History of Go")
  = "Intro" +:+ nl +:+ "## History of Go" /\
  CountWords ("Intro" +:+ nl +:+ "## History of Go") = 5.
Proof.
  destruct (X9_plain_text_unchanged ("Intro" +:+ nl +:+ "## History of Go"))
    as [H1 H2]; try (vm_compute; reflexivity).
  split; [exact H1|]. rewrite H2. vm_compute. reflexivity.
Defined.

End PlainTextProps.

(** ** [cleanupMarkdown] only deletes *)

Module CleanupProps.
Import GoStrings Regexp Go Markdown MarkdownSpec.
Import StringFacts SqueezeFacts TrimFacts SqueezeProps.

Lemma list_ascii_app (a b : string) :
  list_ascii_of_string (a +:+ b) = list_ascii_of_string a ++ list_ascii_of_string b.
Proof. induction a as [|x a IH]; [done|]. simpl. by rewrite IH. Qed.

Lemma length_list_ascii (s : string) :
  length (list_ascii_of_string s) = String.length s.
Proof. induction s as [|x s IH]; [done|]. simpl. by rewrite IH. Qed.

Lemma squeeze_go_sublist (s : string) :
  forall seen,
    (list_ascii_of_string (squeeze_go s seen)) `sublist_of` (list_ascii_of_string s).
Proof.
  induction s as [|c s IH]; intros seen; [constructor|].
  cbn [squeeze_go]. destruct (chr LF c).
  - destruct (seen <? 2)%nat; simpl; [by apply sublist_skip | by apply sublist_cons].
  - simpl. by apply sublist_skip.
Qed.

Lemma TrimSpace_sublist (s : string) :
  (list_ascii_of_string (TrimSpace s)) `sublist_of` (list_ascii_of_string s).
Proof.
  destruct (TrimSpace_slice s) as (a & b & Hab). rewrite Hab at 2.
  rewrite !list_ascii_app. by apply sublist_inserts_l, sublist_inserts_r.
Qed.

(** X10.  [cleanupMarkdown] only deletes: the bytes of its result are
    bytes of its argument, in their order, so the result is never longer
    than the argument.  Cleaning up twice gives what cleaning up once
    gives. *)
Theorem X10_cleanupMarkdown_deletes (md : string) :
  (list_ascii_of_string (cleanupMarkdown md)) `sublist_of` (list_ascii_of_string md) /\
  (String.length (cleanupMarkdown md) <= String.length md)%nat /\
  cleanupMarkdown (cleanupMarkdown md) = cleanupMarkdown md.
Proof.
  assert (forall s, cleanupMarkdown s = TrimSpace (squeeze_newlines s)) as Hdef.
  { intros s. unfold cleanupMarkdown. by rewrite ReplaceAllString_newlines. }
  assert ((list_ascii_of_string (cleanupMarkdown md))
            `sublist_of` (list_ascii_of_string md)) as Hsub.
  { rewrite Hdef. etrans; [apply TrimSpace_sublist | apply squeeze_go_sublist]. }
  split; [exact Hsub|]. split.
  - rewrite <- !length_list_ascii. by apply sublist_length.
  - rewrite (Hdef (cleanupMarkdown md)). unfold squeeze_newlines at 1.
    rewrite squeeze_go_id.
    + apply TrimSpace_id. rewrite Hdef. apply TrimSpace_trimmed.
    + lia.
    + apply Contains_false_iff. rewrite Hdef.
      destruct (TrimSpace_slice (squeeze_newlines md)) as (a & b & Hab).
      apply (Contains_slice _ _ _ _ _ Hab).
      apply Contains_false_iff. apply squeeze_no_triple.
Qed.

End CleanupProps.

(** ** Infobox: keys and values of the map *)

Module InfoboxMapProps.
Import GoStrings Regexp Go Infobox MarkdownSpec Examples.
Import StringFacts TrimFacts CharFacts InfoboxSpec.

Lemma save_good (result : gmap string string) (key value : string) :
  good_map result -> key = EmptyString \/ good_key key ->
  good_map (save result key value).
Proof.
  intros Hmap Hkey k v. unfold save. destruct (isEmpty key) eqn:E; [apply Hmap|].
  destruct (decide (key = k)) as [<-|Hne].
  - rewrite lookup_insert_eq. intros [= <-].
    destruct Hkey as [->|Hkey]; [done|]. split; [done | by eexists].
  - rewrite lookup_insert_ne by done. apply Hmap.
Qed.

Lemma TrimSpace_key (s : string) :
  Contains s "=" = false ->
  TrimSpace s = EmptyString \/ good_key (TrimSpace s).
Proof.
  intros H. destruct (TrimSpace s) as [|c k] eqn:E; [by left|]. right.
  rewrite <- E. split; [by rewrite E|]. split; [apply TrimSpace_trimmed|].
  destruct (TrimSpace_slice s) as (a & b & Hab).
  by apply (Contains_slice _ _ _ _ _ Hab).
Qed.

Lemma parse_line_good (result : gmap string string) (key value line : string) :
  good_map result -> key = EmptyString \/ good_key key ->
  good_map (parse_line (result, key, value) line).1.1 /\
  ((parse_line (result, key, value) line).1.2 = EmptyString \/
   good_key (parse_line (result, key, value) line).1.2).
Proof.
  intros Hmap Hkey. unfold parse_line.
  destruct (isEmpty (TrimSpace line)); [done|].
  destruct (HasPrefix (TrimSpace line) "|").
  - unfold SplitN2.
    destruct (Index (TrimPrefix (TrimSpace line) "|") "=") as [i|] eqn:Hi.
    + cbn [fst snd]. split; [by apply save_good|].
      by apply TrimSpace_key, Index_char_take.
    + unfold continuation. destruct (isEmpty key); cbn [fst snd];
        (split; [by apply save_good | done]).
  - unfold continuation. by destruct (isEmpty key).
Qed.

Lemma fold_parse_line_good (lines : list string) :
  forall result key value,
    good_map result -> key = EmptyString \/ good_key key ->
    good_map (fold_left parse_line lines (result, key, value)).1.1 /\
    ((fold_left parse_line lines (result, key, value)).1.2 = EmptyString \/
     good_key (fold_left parse_line lines (result, key, value)).1.2).
Proof.
  induction lines as [|line lines IH]; intros result key value Hmap Hkey; [done|].
  cbn [fold_left].
  destruct (parse_line_good result key value line Hmap Hkey) as [H1 H2].
  destruct (parse_line (result, key, value) line) as [[result' key'] value'].
  by apply IH.
Qed.

(** X11.  The map [ExtractInfobox] returns is never empty (the nil map is
    returned instead), and each of its entries has a key that is not
    empty, has no white space at either end and contains no ["="], and a
    value that went through [cleanInfoboxValue]. *)
Theorem X11_infobox_entries (wikitext : string) (m : gmap string string) :
  ExtractInfobox wikitext = Some m ->
  m <> ∅ /\
  forall k v, m !! k = Some v ->
    k <> EmptyString /\ trimmed k = true /\ Contains k "=" = false /\
    exists raw, v = cleanInfoboxValue raw.
Proof.
  unfold ExtractInfobox.
  destruct (FindStringSubmatch infoboxRegex 1 wikitext) as [[|x [|content rest]]|];
    try done.
  pose proof (fold_parse_line_good (Split content nl) ∅ EmptyString EmptyString) as H.
  destruct (fold_left parse_line (Split content nl) (∅, EmptyString, EmptyString))
    as [[result key] value].
  cbn [fst snd] in H. destruct H as [Hmap Hkey]; [done | by left |].
  destruct (size (save result key value) =? 0)%nat eqn:Hsize; [done|].
  intros [= <-]. split.
  - apply map_size_non_empty_iff. by apply Nat.eqb_neq.
  - intros k v Hkv.
    destruct (save_good result key value Hmap Hkey k v Hkv) as ((H1 & H2 & H3) & H4).
    by repeat split.
Qed.

Lemma X11_infobox_entries_witness :
  exists m, ExtractInfobox ada = Some m /\ m <> ∅ /\
    forall k v, m !! k = Some v -> k <> EmptyString /\ trimmed k = true.
Proof.
  eexists. split; [vm_compute; reflexivity|].
  edestruct (X11_infobox_entries ada) as [Hne Hall]; [vm_compute; reflexivity|].
  split; [exact Hne|]. intros k v Hkv.
  destruct (Hall k v Hkv) as (H1 & H2 & _). by split.
Defined.

End InfoboxMapProps.

(** ** Infobox: white space in values *)

Module InfoboxSpaceProps.
Import GoStrings Regexp Go Infobox MarkdownSpec SpaceSpec.
Import StringFacts SqueezeFacts TrimFacts CharFacts.

Lemma Contains_cons (x : ascii) (s p : string) :
  Contains (String x s) p = HasPrefix (String x s) p || Contains s p.
Proof.
  unfold Contains. cbn [Index]. destruct (HasPrefix (String x s) p); [done|].
  by destruct (Index s p).
Qed.

Local Abbreviation spaces := (Rep true 1 perl_space).
Local Abbreviation space_repl :=
  (fun (m : string) (caps : captures) => expand ((O, m) :: caps) " ").

Lemma match_here_spaces (pos : nat) (s : string) :
  match_here spaces pos s
  = if (1 <=? String.length (take_while perl_space s))%nat
    then Some ((pos + String.length (take_while perl_space s))%nat, [])
    else None.
Proof.
  unfold match_here. cbn [rmatch].
  by rewrite (rep_greedy_accept perl_space (fun e => (e, @nil (nat * string)))).
Qed.

(** Replacing [\s+] by a space is the collapse of the runs. *)
Lemma replace_loop_collapse (s : string) :
  forall pos adj,
    replace_loop spaces space_repl pos s O adj = collapse_go s false /\
    replace_loop spaces space_repl pos s
      (String.length (take_while perl_space s)) adj = collapse_go s true.
Proof.
  induction s as [|c s IH]; intros pos adj.
  - split; cbn [take_while String.length replace_loop];
      rewrite match_here_spaces; reflexivity.
  - assert (replace_loop spaces space_repl pos (String c s) 0 adj
            = collapse_go (String c s) false) as Hpart1.
    { cbn [replace_loop]. rewrite match_here_spaces.
      cbn [take_while collapse_go]. destruct (perl_space c) eqn:Hc.
      - cbn [String.length Nat.leb].
        replace (pos + S (String.length (take_while perl_space s)) - pos)%nat
          with (S (String.length (take_while perl_space s))) by lia.
        destruct (IH (S pos) (String.length (take_while perl_space s) =? 0)%nat)
          as [_ IH2].
        rewrite IH2. reflexivity.
      - cbn [String.length Nat.leb]. destruct (IH (S pos) false) as [IH1 _].
        by rewrite IH1. }
    split; [exact Hpart1|].
    cbn [take_while]. destruct (perl_space c) eqn:Hc.
    + cbn [String.length replace_loop collapse_go]. rewrite Hc.
      destruct (IH (S pos) (String.length (take_while perl_space s) =? 0)%nat)
        as [_ IH2].
      exact IH2.
    + cbn [String.length]. rewrite Hpart1. cbn [collapse_go]. by rewrite Hc.
Qed.

Lemma ReplaceAllString_spaces (s : string) :
  ReplaceAllString spaces s " " = collapse_go s false.
Proof. apply (replace_loop_collapse s O false). Qed.

(** What comes out of the collapse: no two spaces in a row, no space at
    the start when the text before was white space, and none of the other
    characters [\s] matches. *)
Lemma collapse_go_spaced (s : string) :
  forall in_run,
    Contains (collapse_go s in_run) "  " = false /\
    (in_run = true -> HasPrefix (collapse_go s in_run) " " = false) /\
    (forall c, perl_space c = true -> c <> " "%char ->
       Contains (collapse_go s in_run) (String c EmptyString) = false).
Proof.
  induction s as [|x s IH]; intros in_run; [by repeat split|].
  cbn [collapse_go]. destruct (perl_space x) eqn:Hx.
  - destruct (IH true) as (IH1 & IH2 & IH3). destruct in_run.
    + by repeat split.
    + split; [|split; [done|]].
      * rewrite Contains_cons, IH1.
        change (HasPrefix (String " " (collapse_go s true)) "  ")
          with (HasPrefix (collapse_go s true) " ").
        by rewrite IH2.
      * intros c Hc Hne. apply Contains_char_cons. split; [done | by apply IH3].
  - destruct (IH false) as (IH1 & _ & IH3).
    assert (x <> " "%char) as Hsp by (intros ->; done).
    split; [|split].
    + rewrite Contains_cons, IH1. cbn [HasPrefix].
      destruct (Ascii.eqb " " x) eqn:E; [|done].
      apply Ascii.eqb_eq in E. congruence.
    + intros _. rewrite HasPrefix_char. apply Ascii.eqb_neq. congruence.
    + intros c Hc Hne. apply Contains_char_cons. split; [|by apply IH3].
      intros ->. congruence.
Qed.

Lemma collapse_go_head (s : string) :
  HasPrefix (collapse_go s false) " "
  = match s with String c _ => perl_space c | EmptyString => false end.
Proof.
  destruct s as [|c s]; [done|]. cbn [collapse_go]. destruct (perl_space c) eqn:Hc.
  - reflexivity.
  - rewrite HasPrefix_char. apply Ascii.eqb_neq. intros <-. done.
Qed.

Lemma collapse_go_snoc (s : string) (c : ascii) :
  perl_space c = false ->
  forall in_run,
    collapse_go (s +:+ String c EmptyString) in_run
    = collapse_go s in_run +:+ String c EmptyString.
Proof.
  intros Hc. induction s as [|x s IH]; intros in_run.
  - cbn [String.append collapse_go]. by rewrite Hc.
  - cbn [String.append collapse_go]. destruct (perl_space x).
    + destruct in_run; cbn [String.append]; by rewrite IH.
    + cbn [String.append]. by rewrite IH.
Qed.

(** The characters [\s] matches are white space for [TrimSpace], too. *)
Lemma perl_space_width (c : ascii) (s : string) :
  perl_space c = true ->
  space_width (String c s) <> None /\ space_width_rev (String c s) <> None.
Proof.
  destruct c as [[] [] [] [] [] [] [] []]; intros H; try discriminate H;
    split; vm_compute; discriminate.
Qed.

Lemma rev_string_cons (c : ascii) (r : string) :
  rev_string (String c r) = rev_string r +:+ String c EmptyString.
Proof.
  unfold rev_string. cbn [list_ascii_of_string rev].
  generalize (rev (list_ascii_of_string r)). intros l.
  induction l as [|x l IH]; [done|]. simpl. by rewrite IH.
Qed.

Lemma app_last_inj (a b : string) (x y : ascii) :
  a +:+ String x EmptyString = b +:+ String y EmptyString -> x = y.
Proof.
  revert b. induction a as [|c a IH]; intros [|d b] H; simpl in H.
  - by injection H.
  - injection H as _ H. by destruct b.
  - injection H as _ H. by destruct a.
  - injection H as _ H. by apply (IH b).
Qed.

(** A trimmed text is empty or ends with a character that [\s] does not
    match. *)
Lemma trimmed_last (t : string) :
  trimmed t = true ->
  t = EmptyString \/
  exists s c, t = s +:+ String c EmptyString /\ perl_space c = false.
Proof.
  unfold trimmed. intros [_ Hr]%andb_true_iff. apply bool_decide_eq_true in Hr.
  rewrite <- (rev_string_involutive t).
  destruct (rev_string t) as [|c r]; [by left|]. right.
  exists (rev_string r), c. split; [apply rev_string_cons|].
  destruct (perl_space c) eqn:Hc; [|done].
  by destruct (perl_space_width c r Hc) as [_ H].
Qed.

(** X12.  A value that went through [cleanInfoboxValue] is single-spaced:
    it contains no tab, newline, form feed or carriage return, no two
    spaces in a row, and no space at its start or at its end. *)
Theorem X12_value_single_spaced (value : string) :
  Contains (cleanInfoboxValue value) "  " = false /\
  (forall c, perl_space c = true -> c <> " "%char ->
     Contains (cleanInfoboxValue value) (String c EmptyString) = false) /\
  HasPrefix (cleanInfoboxValue value) " " = false /\
  (forall a, cleanInfoboxValue value <> a +:+ " ").
Proof.
  unfold cleanInfoboxValue. cbv zeta.
  match goal with
  | |- context [ReplaceAllString spaces (TrimSpace ?x) " "] => generalize x
  end.
  intros v. rewrite ReplaceAllString_spaces.
  pose proof (TrimSpace_trimmed v) as Htrim.
  destruct (collapse_go_spaced (TrimSpace v) false) as (H1 & _ & H3).
  split; [done|]. split; [done|]. split.
  - rewrite collapse_go_head. destruct (TrimSpace v) as [|c t] eqn:E; [done|].
    destruct (perl_space c) eqn:Hc; [|done].
    destruct (perl_space_width c t Hc) as [H _].
    unfold trimmed in Htrim. apply andb_true_iff in Htrim as [Hl _].
    by apply bool_decide_eq_true in Hl.
  - intros a. destruct (trimmed_last _ Htrim) as [->|(s & c & -> & Hc)].
    + by destruct a.
    + rewrite collapse_go_snoc by done. intros Heq.
      apply app_last_inj in Heq. by subst c.
Qed.

End InfoboxSpaceProps.

(** ** Nesting of the section tree *)

Module NestFacts.
Import Go Wiki Tools TreeSpec TreeFacts NestSpec.
Import WikiSection.

Lemma level_at_old (h : heap) (s : WikiSection.t) (p : ptr) :
  (p < length h)%nat -> level_at (h ++ [s]) p = level_at h p.
Proof. intros H. unfold level_at. by rewrite deref_old. Qed.

Lemma level_at_append_child (h : heap) (q c p : ptr) :
  level_at (append_child h q c) p = level_at h p.
Proof.
  pose proof (view_append_child h q c p) as H. unfold view in H.
  unfold level_at. congruence.
Qed.

Lemma WordCount_append_child (h : heap) (q c p : ptr) :
  WordCount (deref (append_child h q c) p) = WordCount (deref h p).
Proof.
  destruct (decide (p = q)) as [->|Hne].
  - unfold deref, append_child. rewrite list_lookup_alter_eq. by destruct (h !! q).
  - by rewrite deref_append_child_ne.
Qed.

Lemma Subsections_beyond (h : heap) (p : ptr) :
  (length h <= p)%nat -> Subsections (deref h p) = [].
Proof. intros H. unfold deref. by rewrite lookup_ge_None_2. Qed.

Lemma WordCount_beyond (h : heap) (p : ptr) :
  (length h <= p)%nat -> WordCount (deref h p) = 0.
Proof. intros H. unfold deref. by rewrite lookup_ge_None_2. Qed.

(** Facts about levels move to a heap that has the same levels below
    [n]. *)
Section Transfer.
Variables (h h' : heap) (n : nat).
Hypothesis same : forall j, (j < n)%nat -> level_at h' j = level_at h j.

Lemma nearest_lower_transfer (p c : ptr) :
  (c < n)%nat -> nearest_lower h p c -> nearest_lower h' p c.
Proof.
  intros Hc (H1 & H2 & H3). split; [done|]. split.
  - rewrite !same by lia. done.
  - intros j Hj. rewrite !same by lia. by apply H3.
Qed.

Lemma none_lower_transfer (c : ptr) :
  (c < n)%nat -> none_lower h c -> none_lower h' c.
Proof. intros Hc H j Hj. rewrite !same by lia. by apply H. Qed.

Lemma chain_transfer (stack : list ptr) :
  forall above, (above < n)%nat -> chain h above stack -> chain h' above stack.
Proof.
  induction stack as [|q rest IH]; intros above Ha; cbn [chain].
  - by apply none_lower_transfer.
  - intros (H1 & H2 & H3). split; [done|]. split.
    + by apply nearest_lower_transfer.
    + apply IH; [|done]. destruct H2 as [H2 _]. lia.
Qed.

End Transfer.

(** What the loop that pops the stack leaves on top: the nearest section
    with a lower level, if there is one after the lead. *)
Lemma pop_stack_chain (h : heap) (level : Z) (n : nat) (rest : list ptr) :
  forall top,
    (0 < top < n)%nat -> chain h top rest ->
    (forall j, (top < j < n)%nat -> level <= level_at h j) ->
    match pop_stack h (top :: rest) level with
    | [] => forall j, (0 < j < n)%nat -> level <= level_at h j
    | q :: rest' =>
        (0 < q < n)%nat /\ level_at h q < level /\
        (forall j, (q < j < n)%nat -> level <= level_at h j) /\
        chain h q rest'
    end.
Proof.
  induction rest as [|q rest IH]; intros top Htop Hchain Habove.
  - cbn [pop_stack]. fold (level_at h top).
    destruct (Z.leb_spec level (level_at h top)) as [Hle|Hgt].
    + intros j Hj. destruct (decide (j < top)%nat) as [Hlt|Hge].
      * cbn [chain] in Hchain. specialize (Hchain j ltac:(lia)). lia.
      * destruct (decide (j = top)) as [->|Hne]; [done|]. apply Habove. lia.
    + split; [lia|]. split; [lia|]. by split.
  - cbn [pop_stack]. fold (level_at h top).
    destruct (Z.leb_spec level (level_at h top)) as [Hle|Hgt].
    + cbn [chain] in Hchain. destruct Hchain as (Hq & (Hlt & Hlvl & Hbetween) & Hrest).
      apply IH; [lia | done |].
      intros j Hj. destruct (decide (j < top)%nat) as [Hlt'|Hge].
      * specialize (Hbetween j ltac:(lia)). lia.
      * destruct (decide (j = top)) as [->|Hne]; [done|]. apply Habove. lia.
    + split; [lia|]. split; [lia|]. by split.
Qed.

Lemma nested_step (wc : Z) (st : heap * list ptr * list ptr) (e : MWSection.t) :
  nested wc st -> nested wc (add_section st e).
Proof.
  destruct st as [[h sections] stack].
  intros (Hsub & (tops & -> & Htops) & Hstack & Hwc & Hlead & Hzero).
  rewrite add_section_unfold.
  set (new := section_of e). set (n := length h). set (h1 := h ++ [new]).
  assert (0 < n)%nat as Hn by (unfold n; destruct stack; lia).
  assert (length h1 = S n) as Hlen1 by (unfold h1; rewrite length_app; simpl; lia).
  assert (forall j, (j < n)%nat -> level_at h1 j = level_at h j) as Hsame1
    by (intros j Hj; by apply level_at_old).
  assert (level_at h1 n = Level new) as Hnew
    by (unfold level_at, h1, n; by rewrite deref_new).
  assert (forall p, Subsections (deref h1 p)
                    = if decide (p < n)%nat then Subsections (deref h p) else []) as Hsubs1.
  { intros p. destruct (decide (p < n)%nat) as [Hp|Hp].
    - unfold h1. by rewrite deref_old.
    - destruct (decide (p = n)) as [->|Hne].
      + unfold h1, n. by rewrite deref_new.
      + apply Subsections_beyond. lia. }
  assert (forall p, (0 < p)%nat -> WordCount (deref h1 p) = 0) as Hzero1.
  { intros p Hp. destruct (decide (p < n)%nat) as [Hlt|Hge].
    - unfold h1. rewrite deref_old by done. by apply Hzero.
    - destruct (decide (p = n)) as [->|Hne].
      + unfold h1, n. by rewrite deref_new.
      + apply WordCount_beyond. lia. }
  assert (forall p c, c ∈ Subsections (deref h p) ->
            (0 < p)%nat /\ (c < S n)%nat /\ nearest_lower h1 p c) as Hsub1.
  { intros p c Hc. destruct (Hsub p c Hc) as (H1 & H2 & H3).
    split; [done|]. split; [lia|]. by apply (nearest_lower_transfer h h1 n). }
  assert (Forall (fun c => (0 < c < S n)%nat /\ none_lower h1 c) tops) as Htops1.
  { eapply Forall_impl; [exact Htops|]. intros c [Hc Hnone]. split; [lia|].
    apply (none_lower_transfer h h1 n); [done | lia | done]. }
  assert (match pop_stack h1 stack (Level new) with
          | [] => none_lower h1 n
          | q :: rest' =>
              (0 < q < n)%nat /\ nearest_lower h1 q n /\ chain h1 q rest'
          end) as Hpop.
  { destruct stack as [|top rest].
    - cbn [pop_stack]. intros j Hj. lia.
    - destruct Hstack as (Htop & Htop0 & Hchain).
      pose proof (pop_stack_chain h1 (Level new) n rest top ltac:(lia)
                    (chain_transfer h h1 n Hsame1 rest top ltac:(lia) Hchain)
                    ltac:(intros j Hj; lia)) as H.
      destruct (pop_stack h1 (top :: rest) (Level new)) as [|q rest'].
      + intros j Hj. rewrite Hnew. by apply H.
      + destruct H as (Hq & Hlvl & Hbetween & Hrest).
        split; [done|]. split; [|done].
        split; [lia|]. rewrite Hnew. split; [done|]. done. }
  destruct (pop_stack h1 stack (Level new)) as [|q rest'].
  - (* a new top-level section *)
    split; [|split; [|split; [|split; [|split]]]].
    + intros p c. rewrite Hsubs1. destruct (decide (p < n)%nat); [|by intros H%not_elem_of_nil].
      rewrite Hlen1. by apply Hsub1.
    + exists (tops ++ [n]). split; [done|]. rewrite Hlen1.
      apply Forall_app. split; [done|]. constructor; [|constructor].
      split; [lia | done].
    + rewrite Hlen1. by repeat split.
    + unfold h1. by rewrite deref_old.
    + rewrite Hsame1 by done. done.
    + exact Hzero1.
  - (* a subsection of [q] *)
    destruct Hpop as (Hq & Hnear & Hrest).
    set (h2 := append_child h1 q n).
    assert (length h2 = S n) as Hlen2 by (unfold h2; by rewrite length_append_child).
    assert (forall j, (j < S n)%nat -> level_at h2 j = level_at h1 j) as Hsame2
      by (intros j _; apply level_at_append_child).
    split; [|split; [|split; [|split; [|split]]]].
    + intros p c Hc. rewrite Hlen2.
      destruct (decide (p = q)) as [->|Hne].
      * unfold h2 in Hc. rewrite Subsections_append_child in Hc by lia.
        rewrite Hsubs1 in Hc. destruct (decide (q < n)%nat); [|lia].
        apply elem_of_app in Hc as [Hc|Hc%list_elem_of_singleton].
        -- destruct (Hsub1 q c Hc) as (H1 & H2 & H3).
           split; [done|]. split; [done|].
           by apply (nearest_lower_transfer h1 h2 (S n)).
        -- subst c. split; [lia|]. split; [lia|].
           apply (nearest_lower_transfer h1 h2 (S n)); [done | lia | done].
      * unfold h2 in Hc. rewrite deref_append_child_ne in Hc by done.
        rewrite Hsubs1 in Hc.
        destruct (decide (p < n)%nat); [|by apply not_elem_of_nil in Hc].
        destruct (Hsub1 p c Hc) as (H1 & H2 & H3).
        split; [done|]. split; [done|].
        by apply (nearest_lower_transfer h1 h2 (S n)).
    + exists tops. split; [done|]. rewrite Hlen2.
      eapply Forall_impl; [exact Htops1|]. intros c [Hc Hnone]. split; [done|].
      apply (none_lower_transfer h1 h2 (S n)); [done | lia | done].
    + rewrite Hlen2. split; [done|]. split; [done|]. cbn [chain].
      split; [lia|]. split.
      * apply (nearest_lower_transfer h1 h2 (S n)); [done | lia | done].
      * apply (chain_transfer h1 h2 (S n)); [done | lia | done].
    + unfold h2. rewrite WordCount_append_child. unfold h1. by rewrite deref_old.
    + unfold h2. rewrite level_at_append_child. by rewrite Hsame1.
    + intros p Hp. unfold h2. rewrite WordCount_append_child. by apply Hzero1.
Qed.

Lemma nested_fold (wc : Z) (entries : list MWSection.t) :
  forall st, nested wc st -> nested wc (fold_left add_section entries st).
Proof.
  induction entries as [|e entries IH]; intros st H; [done|].
  cbn [fold_left]. by apply IH, nested_step.
Qed.

(** The invariant holds of what [buildSectionsTree] returns for a table of
    contents that is not empty. *)
Lemma nested_buildSectionsTree (mwSections : list MWSection.t)
    (wikiURL title leadContent : string) :
  mwSections <> [] ->
  exists stack,
    nested (Markdown.CountWords leadContent)
      (buildSectionsTree mwSections wikiURL title leadContent, stack).
Proof.
  intros Hne. unfold buildSectionsTree.
  destruct mwSections as [|e0 rest]; [done|]. unfold alloc. cbn [app length].
  assert (nested (Markdown.CountWords leadContent)
            ([leadSection leadContent], [O], [])) as H0.
  { split; [|split; [|split; [|split; [|split]]]].
    - intros p c Hc. destruct p as [|p]; [by apply not_elem_of_nil in Hc|].
      rewrite Subsections_beyond in Hc by (simpl; lia). by apply not_elem_of_nil in Hc.
    - exists []. by split.
    - reflexivity.
    - reflexivity.
    - reflexivity.
    - intros p Hp. apply WordCount_beyond. simpl. lia. }
  apply (nested_fold _ (e0 :: rest)) in H0.
  destruct (fold_left add_section (e0 :: rest) _) as [[h sections] stack].
  by exists stack.
Qed.

(** The search backwards from position [x] of the list [0, 1, ..., n-1]. *)
Lemma find_rev_seq (f : nat -> bool) (x : nat) :
  forall p, (p < x)%nat -> f p = true ->
    (forall j, (p < j < x)%nat -> f j = false) ->
    List.find f (rev (seq 0 x)) = Some p.
Proof.
  induction x as [|x IH]; intros p Hp Hf Hnone; [lia|].
  rewrite seq_S, rev_app_distr. cbn [Nat.add rev app List.find].
  destruct (decide (p = x)) as [->|Hne]; [by rewrite Hf|].
  rewrite Hnone by lia. apply IH; [lia | done |]. intros j Hj. apply Hnone. lia.
Qed.

Lemma find_rev_seq_none (f : nat -> bool) (x : nat) :
  (forall j, (j < x)%nat -> f j = false) -> List.find f (rev (seq 0 x)) = None.
Proof.
  induction x as [|x IH]; intros Hnone; [done|].
  rewrite seq_S, rev_app_distr. cbn [Nat.add rev app List.find].
  rewrite Hnone by lia. apply IH. intros j Hj. apply Hnone. lia.
Qed.

Lemma firstn_seq (x n : nat) : (x <= n)%nat -> firstn x (seq 0 n) = seq 0 x.
Proof.
  intros H. replace n with (x + (n - x))%nat by lia.
  rewrite seq_app, take_app_length'; [done|]. by rewrite length_seq.
Qed.

End NestFacts.

(** ** The section tree for any table of contents *)

Module TreeProps.
Import Go Strconv Wiki Markdown Tools TreeSpec TreeFacts NestSpec NestFacts.
Import WikiSection.

(** X13.  Whatever the levels in the table of contents are (they need not
    be a proper pre-order: levels may jump, repeat, or be zero or
    negative), flattening what [buildSectionsTree] returns gives the
    sections in the order of the table: none is lost, none comes twice.
    For a table that is not empty these are the lead and one section for
    each entry, with the index read from the entry, its line as title and
    its level plus one; for the empty table there are none. *)
Theorem X13_flatten_inverts_build (mwSections : list MWSection.t)
    (wikiURL title leadContent : string) :
  let r := buildSectionsTree mwSections wikiURL title leadContent in
  exists flat,
    flattenSections (fst r) (snd r) = Some flat /\
    NoDup flat /\
    map (view (fst r)) flat
    = match mwSections with
      | [] => []
      | _ :: _ => (0, "Lead", 1) :: map view_of_entry mwSections
      end /\
    length flat
    = match mwSections with [] => O | _ :: _ => S (length mwSections) end.
Proof.
  intros r. destruct mwSections as [|e rest] eqn:E.
  - exists []. repeat split; constructor.
  - destruct (flatten_buildSectionsTree (e :: rest) wikiURL title leadContent
                ltac:(discriminate)) as [Hfl Hviews].
    fold r in Hfl, Hviews. exists (seq 0 (length (fst r))).
    split; [done|]. split; [apply NoDup_seq|]. split; [done|].
    apply (f_equal (@length _)) in Hviews.
    rewrite length_map in Hviews. rewrite Hviews. cbn [length]. by rewrite length_map.
Qed.

(** X14.  In the tree [buildSectionsTree] returns, a subsection always
    has a strictly higher level than the section it is listed under, and
    comes after it in the table of contents; the lead section never has
    subsections; and every section other than the lead was created with a
    word count of zero. *)
Theorem X14_subsections_deeper (mwSections : list MWSection.t)
    (wikiURL title leadContent : string) (p c : ptr) :
  let h := fst (buildSectionsTree mwSections wikiURL title leadContent) in
  c ∈ Subsections (deref h p) ->
  Level (deref h p) < Level (deref h c) /\
  (0 < p < c)%nat /\ (c < length h)%nat /\
  WordCount (deref h c) = 0.
Proof.
  intros h Hc. destruct mwSections as [|e rest] eqn:E.
  - subst h. cbn in Hc. by apply not_elem_of_nil in Hc.
  - destruct (nested_buildSectionsTree (e :: rest) wikiURL title leadContent
                ltac:(discriminate)) as [stack Hnested].
    destruct (buildSectionsTree (e :: rest) wikiURL title leadContent)
      as [h' sections]. cbn [fst] in h. subst h.
    destruct Hnested as (Hsub & _ & _ & _ & _ & Hzero).
    destruct (Hsub p c Hc) as (Hp & Hlen & Hlt & Hlvl & _).
    split; [exact Hlvl|]. split; [lia|]. split; [done|]. apply Hzero. lia.
Qed.

Lemma X14_subsections_deeper_witness :
  let h := fst (buildSectionsTree [Mock.toc 1 "Life" "1"; Mock.toc 2 "Childhood" "2"]
                  "https://en.wikipedia.org" "Ada Lovelace" "Countess of Lovelace") in
  Level (deref h 1%nat) < Level (deref h 2%nat).
Proof.
  apply (X14_subsections_deeper
           [Mock.toc 1 "Life" "1"; Mock.toc 2 "Childhood" "2"]
           "https://en.wikipedia.org" "Ada Lovelace" "Countess of Lovelace"
           1%nat 2%nat).
  vm_compute. apply list_elem_of_here.
Defined.

(** X15.  The parent that [GetPageSection] looks for in the flattened
    list, the nearest section before the target with a lower level, is the
    section the target is a subsection of in the tree.  For a section at
    the top of the tree (other than the lead) the search ends at the lead
    section, which has level 1: the lead is found as parent when the level
    of the section is above 1, and nothing is found otherwise. *)
Theorem X15_find_parent_is_tree_parent (mwSections : list MWSection.t)
    (wikiURL title leadContent : string) :
  let r := buildSectionsTree mwSections wikiURL title leadContent in
  let h := fst r in
  let flat := seq 0 (length h) in
  (mwSections <> [] -> flattenSections h (snd r) = Some flat) /\
  (forall p c, c ∈ Subsections (deref h p) ->
     find_parent h flat c (Level (deref h c)) = Some p) /\
  (forall c, c ∈ snd r -> c <> O ->
     find_parent h flat c (Level (deref h c))
     = if 1 <? Level (deref h c) then Some O else None).
Proof.
  intros r h flat. destruct mwSections as [|e rest] eqn:E.
  - subst r h flat. cbn. split; [done|]. split.
    + intros p c Hc. by apply not_elem_of_nil in Hc.
    + intros c Hc. by apply not_elem_of_nil in Hc.
  - destruct (flatten_buildSectionsTree (e :: rest) wikiURL title leadContent
                ltac:(discriminate)) as [Hfl _].
    destruct (nested_buildSectionsTree (e :: rest) wikiURL title leadContent
                ltac:(discriminate)) as [stack Hnested].
    fold r in Hfl, Hnested. destruct r as [h' sections]. cbn [fst snd] in *.
    subst h flat.
    destruct Hnested as (Hsub & (tops & -> & Htops) & _ & _ & Hlead & _).
    split; [done|]. split.
    + intros p c Hc. destruct (Hsub p c Hc) as (Hp & Hlen & Hlt & Hlvl & Hbetween).
      unfold find_parent. rewrite firstn_seq by lia.
      apply find_rev_seq; [done | by apply Z.ltb_lt |].
      intros j Hj. apply Z.ltb_ge. by apply Hbetween.
    + intros c Hc Hc0. apply elem_of_cons in Hc as [->|Hc]; [done|].
      destruct (proj1 (Forall_forall _ _) Htops c Hc) as [Hlen Hnone].
      unfold find_parent. rewrite firstn_seq by lia.
      fold (level_at h' c).
      destruct (Z.ltb_spec 1 (level_at h' c)) as [Hgt|Hle].
      * apply find_rev_seq; [lia | apply Z.ltb_lt; fold (level_at h' O); lia |].
        intros j Hj. apply Z.ltb_ge. by apply Hnone.
      * apply find_rev_seq_none. intros j Hj. apply Z.ltb_ge.
        destruct j as [|j]; [fold (level_at h' O); lia|].
        apply Hnone. lia.
Qed.

Lemma X15_find_parent_is_tree_parent_witness :
  let r := buildSectionsTree [Mock.toc 1 "Life" "1"; Mock.toc 2 "Childhood" "2"]
             "https://en.wikipedia.org" "Ada Lovelace" "Countess of Lovelace" in
  find_parent (fst r) (seq 0 (length (fst r))) 2 (Level (deref (fst r) 2%nat))
  = Some 1%nat /\
  find_parent (fst r) (seq 0 (length (fst r))) 1 (Level (deref (fst r) 1%nat))
  = Some O.
Proof.
  destruct (X15_find_parent_is_tree_parent
              [Mock.toc 1 "Life" "1"; Mock.toc 2 "Childhood" "2"]
              "https://en.wikipedia.org" "Ada Lovelace" "Countess of Lovelace")
    as (_ & Hsub & Htop).
  split.
  - apply Hsub. vm_compute. apply list_elem_of_here.
  - rewrite Htop; [reflexivity | vm_compute; apply list_elem_of_further, list_elem_of_here
                  | discriminate].
Defined.

End TreeProps.

(** ** Running the operations: what a successful run went through *)

Module RunFacts.
Import GoStrings Go Strconv Wiki Markdown Infobox Cache Tools TreeSpec TreeFacts.
Import ToolsProps.
Import WikiSection.

Lemma wrap_Fail_inv {A} (prefix : string) (m : M A) (w w1 : World) (e : error) :
  wrap prefix m w = (Fail e, w1) -> exists e0, e = wrapError prefix e0.
Proof.
  unfold wrap, attempt, bind, ret, fail.
  destruct (m w) as [[x|e0|r] w2]; simpl; intros [= <- <-]. by exists e0.
Qed.

Lemma bind_Fail_inv {A B} (m : M A) (k : A -> M B) (w w' : World) (e : error) :
  bind m k w = (Fail e, w') ->
  m w = (Fail e, w') \/ exists a w1, m w = (Ret a, w1) /\ k a w1 = (Fail e, w').
Proof.
  unfold bind. destruct (m w) as [[a|e0|r] w1]; intros H.
  - right. by exists a, w1.
  - left. by injection H as -> ->.
  - done.
Qed.

Lemma convert_inv `{HtmlLib} (prefix html : string) (w w1 : World) (markdown : string) :
  wrap prefix (liftR (HTMLToMarkdown html)) w = (Ret markdown, w1) ->
  exists md, ConvertString html = Ok md /\ markdown = cleanupMarkdown md /\ w1 = w.
Proof.
  intros Hrun%wrap_inv. unfold liftR, HTMLToMarkdown in Hrun.
  destruct (ConvertString html) as [md|e]; [|done].
  injection Hrun as <- <-. by exists md.
Qed.

(** What a run of [GetPageOutline] that missed the cache and returned an
    outline went through. *)
Lemma GetPageOutline_inv `{HtmlLib} (client : Client) (wikiURL title : string)
    (w w' : World) (outline : PageOutline.t) :
  Get (items w) (PageCacheKey wikiURL (title +:+ ":outline")) (now w) = None ->
  GetPageOutline client wikiURL title w = (Ret outline, w') ->
  exists parse lead wc,
    let r := buildSectionsTree (mwParse.Sections parse) wikiURL title lead in
    PageOutline.Heap outline = fst r /\
    PageOutline.Sections outline = snd r /\
    total_words (fst r) (snd r) (CountWords lead)
    = Some (PageOutline.TotalWordCount outline) /\
    PageOutline.Summary outline = ExtractPreview lead 100 /\
    PageOutline.Title outline = mwParse.Title parse /\
    PageOutline.SeeAlso outline = extractSeeAlsoLinks (mwParse.Links parse) /\
    w' = {| items := Set_ (items wc) (PageCacheKey wikiURL (title +:+ ":outline"))
                       (CachedOutline outline) (cacheTTL client) (now wc);
            now := now wc; requests := requests wc |}.
Proof.
  intros Hmiss Hrun. unfold GetPageOutline in Hrun.
  rewrite (bind_Ret _ _ _ _ _ (cacheGet_run _ w)), Hmiss in Hrun.
  unfold bind at 1 in Hrun.
  destruct (wrap _ _ w) as [[resp|e|p] wa]; [|done|done].
  destruct (mwResponse.Parse resp) as [parse|]; [|done].
  unfold bind at 1 in Hrun.
  destruct (wrap _ _ wa) as [[leadResp|e|p] wb]; [|done|done].
  destruct (mwResponse.Parse leadResp) as [leadParse|]; [|done].
  unfold bind at 1 in Hrun.
  destruct (wrap _ _ wb) as [[leadMarkdown|e|p] wc]; [|done|done].
  destruct (buildSectionsTree (mwParse.Sections parse) wikiURL title leadMarkdown)
    as [h sections] eqn:Hb.
  destruct (total_words h sections _) as [totalWords|] eqn:Htotal; [|done].
  unfold bind at 1 in Hrun.
  destruct (attempt _ wc) as [[wikitext|e|p] wd]; [|done|done].
  unfold bind, cacheSet, ret in Hrun. injection Hrun as <- <-.
  exists parse, leadMarkdown, wd. rewrite Hb. cbn [fst snd].
  by repeat split.
Qed.


Lemma GetCategory_stored (client : Client) (wikiURL category : string)
    (limit : Z) (w w' : World) (categoryResp : CategoryResponse.t) :
  Get (items w) (CategoryCacheKey wikiURL (category +:+ ":" +:+ Itoa limit)) (now w)
  = None ->
  GetCategory client wikiURL category limit w = (Ret categoryResp, w') ->
  items w' !! CategoryCacheKey wikiURL (category +:+ ":" +:+ Itoa limit)
  = Some {| value := CachedCategory categoryResp;
            expiration := now w' + cacheTTL client |} /\
  CategoryResponse.Category categoryResp
  = TrimPrefix (categoryTitle category) "Category:" /\
  Forall (fun member => CategoryMember.Type_ member = "page" \/
                        CategoryMember.Type_ member = "subcat")
    (CategoryResponse.Members categoryResp) /\
  CategoryResponse.TotalMembers categoryResp
  = Z.of_nat (length (CategoryResponse.Members categoryResp)).
Proof.
  intros Hmiss Hrun. unfold GetCategory in Hrun.
  rewrite (bind_Ret _ _ _ _ _ (cacheGet_run _ w)), Hmiss in Hrun.
  unfold bind at 1 in Hrun.
  destruct (wrap _ _ w) as [[resp|e|p] wa]; [|done|done].
  destruct (mwResponse.Query resp) as [q|]; [|done].
  unfold bind at 1 in Hrun.
  destruct (attempt _ wa) as [[parents|e|p] wb]; [|done|done].
  unfold bind, cacheSet, ret in Hrun. injection Hrun as <- <-.
  cbn [items now CategoryResponse.Category CategoryResponse.Members
       CategoryResponse.TotalMembers].
  split; [unfold Set_; by rewrite lookup_insert_eq|]. split; [done|]. split; [|done].
  apply Forall_forall. intros member Hin.
  apply list_elem_of_In, in_map_iff in Hin as (m & <- & _).
  cbn [CategoryMember.Type_]. destruct (String.eqb _ "subcat"); [by right | by left].
Qed.

End RunFacts.

(** ** Word counts *)

Module WordCountProps.
Import GoStrings Go Strconv Wiki Markdown Infobox Cache Tools TreeSpec TreeFacts.
Import NestSpec NestFacts ToolsProps RunFacts.
Import WikiSection.

Lemma wrap64_range (z : Z) : - 2 ^ 63 <= wrap64 z < 2 ^ 63.
Proof. unfold wrap64. pose proof (Z.mod_pos_bound (z + 2 ^ 63) (2 ^ 64)). lia. Qed.

Lemma wrap64_small (z : Z) : - 2 ^ 63 <= z < 2 ^ 63 -> wrap64 z = z.
Proof. intros H. unfold wrap64. rewrite Z.mod_small; lia. Qed.

Lemma add_0_r_wrapped (a b : Z) : add (add a b) 0 = add a b.
Proof.
  unfold add. rewrite Z.add_0_r. apply wrap64_small, wrap64_range.
Qed.

Lemma fold_None {A} (f : option Z -> A -> option Z) (l : list A) :
  (forall x, f None x = None) -> fold_left f l None = None.
Proof. intros Hf. induction l as [|x l IH]; [done|]. cbn [fold_left]. by rewrite Hf. Qed.

(** Adding up sections that all count zero words changes nothing. *)
Lemma fold_zero (g : ptr -> option Z) (wcount : ptr -> Z) (l : list ptr) :
  Forall (fun s => wcount s = 0 /\ forall b, g s = Some b -> b = 0) l ->
  forall acc v,
    - 2 ^ 63 <= acc < 2 ^ 63 ->
    fold_left
      (fun count sub =>
         match count, g sub with
         | Some count, Some below => Some (add (add count (wcount sub)) below)
         | _, _ => None
         end)
      l (Some acc) = Some v ->
    v = acc.
Proof.
  induction 1 as [|s l [Hs Hg] _ IH]; intros acc v Hacc; cbn [fold_left].
  - by intros [= <-].
  - destruct (g s) as [b|] eqn:E.
    + rewrite Hs, (Hg b eq_refl).
      replace (add (add acc 0) 0) with acc.
      * by apply IH.
      * unfold add. rewrite !Z.add_0_r.
        by rewrite (wrap64_small acc Hacc), (wrap64_small acc Hacc).
    + rewrite fold_None; [done|]. by intros x.
Qed.

Lemma countSubsectionWords_zero (h : heap) :
  (forall p c, c ∈ Subsections (deref h p) -> (0 < c)%nat) ->
  (forall p, (0 < p)%nat -> WordCount (deref h p) = 0) ->
  forall fuel x v, countSubsectionWords fuel h x = Some v -> v = 0.
Proof.
  intros Hsub Hzero. induction fuel as [|fuel IH]; intros x v; [done|].
  cbn [countSubsectionWords]. intros Hv.
  apply (fold_zero (countSubsectionWords fuel h) (fun s => WordCount (deref h s))
           (Subsections (deref h x))) in Hv; [done | | lia].
  apply Forall_forall. intros c Hc. split.
  - apply Hzero. by apply (Hsub x).
  - intros b. apply IH.
Qed.

(** The sum that [GetPageOutline] computes over a built tree. *)
Lemma total_words_value (mwSections : list MWSection.t)
    (wikiURL title leadContent : string) (start : Z) :
  mwSections <> [] ->
  let r := buildSectionsTree mwSections wikiURL title leadContent in
  total_words (fst r) (snd r) start = Some (add start (CountWords leadContent)).
Proof.
  intros Hne r.
  destruct (total_words_built mwSections wikiURL title leadContent start) as [v Hv].
  fold r in Hv. rewrite Hv. f_equal.
  destruct (nested_buildSectionsTree mwSections wikiURL title leadContent Hne)
    as [stack Hnested].
  fold r in Hnested. destruct r as [h sections]. cbn [fst snd] in *.
  destruct Hnested as (Hsub & (tops & -> & Htops) & _ & Hwc & _ & Hzero).
  assert (forall p c, c ∈ Subsections (deref h p) -> (0 < c)%nat) as Hpos.
  { intros p c Hc. destruct (Hsub p c Hc) as (Hp & _ & Hlt & _). lia. }
  unfold total_words in Hv. cbn [fold_left] in Hv.
  destruct (countSubsectionWords (S (length h)) h 0) as [b|] eqn:Hb.
  - rewrite (countSubsectionWords_zero h Hpos Hzero _ _ _ Hb), Hwc in Hv.
    apply (fold_zero (countSubsectionWords (S (length h)) h)
             (fun s => WordCount (deref h s)) tops) in Hv.
    + rewrite Hv. apply add_0_r_wrapped.
    + apply Forall_forall. intros c Hc. split.
      * apply Hzero. destruct (proj1 (Forall_forall _ _) Htops c Hc) as [Hc' _]. lia.
      * intros b'. apply (countSubsectionWords_zero h Hpos Hzero).
    + apply wrap64_range.
  - rewrite fold_None in Hv; [done|]. by intros x.
Qed.

(** The two responses a run of [GetPageOutline] that missed the cache
    and returned an outline was built from, and the lead it converted. *)
Lemma GetPageOutline_lead `{HtmlLib} (client : Client) (wikiURL title : string)
    (w w' : World) (outline : PageOutline.t) :
  Get (items w) (PageCacheKey wikiURL (title +:+ ":outline")) (now w) = None ->
  GetPageOutline client wikiURL title w = (Ret outline, w') ->
  exists resp parse wa leadResp leadParse wb lead,
    MakeRequest client wikiURL (outlineParams title) w = (Ret resp, wa) /\
    mwResponse.Parse resp = Some parse /\
    MakeRequest client wikiURL (leadParams title) wa = (Ret leadResp, wb) /\
    mwResponse.Parse leadResp = Some leadParse /\
    HTMLToMarkdown (mwParse.Text leadParse) = Ok lead /\
    PageOutline.Sections outline
    = snd (buildSectionsTree (mwParse.Sections parse) wikiURL title lead) /\
    total_words (fst (buildSectionsTree (mwParse.Sections parse) wikiURL title lead))
      (snd (buildSectionsTree (mwParse.Sections parse) wikiURL title lead))
      (CountWords lead)
    = Some (PageOutline.TotalWordCount outline) /\
    PageOutline.Summary outline = ExtractPreview lead 100.
Proof.
  intros Hmiss Hrun. unfold GetPageOutline in Hrun.
  rewrite (bind_Ret _ _ _ _ _ (cacheGet_run _ w)), Hmiss in Hrun.
  unfold bind at 1 in Hrun.
  destruct (wrap _ _ w) as [[resp|e|p] wa] eqn:Hreq; [|done|done].
  apply wrap_inv in Hreq.
  destruct (mwResponse.Parse resp) as [parse|] eqn:Hparse; [|done].
  unfold bind at 1 in Hrun.
  destruct (wrap _ _ wa) as [[leadResp|e|p] wb] eqn:Hlead; [|done|done].
  apply wrap_inv in Hlead.
  destruct (mwResponse.Parse leadResp) as [leadParse|] eqn:HleadParse; [|done].
  unfold bind at 1 in Hrun.
  destruct (wrap _ _ wb) as [[leadMarkdown|e|p] wc] eqn:Hconv; [|done|done].
  apply wrap_inv in Hconv. unfold liftR in Hconv.
  destruct (HTMLToMarkdown (mwParse.Text leadParse)) as [md|e] eqn:Hmd; [|done].
  injection Hconv as -> <-.
  destruct (buildSectionsTree (mwParse.Sections parse) wikiURL title leadMarkdown)
    as [h sections] eqn:Hb.
  destruct (total_words h sections _) as [totalWords|] eqn:Htotal; [|done].
  unfold bind at 1 in Hrun.
  destruct (attempt _ wb) as [[wikitext|e|p] wd]; [|done|done].
  unfold bind, cacheSet, ret in Hrun. injection Hrun as <- <-.
  exists resp, parse, wa, leadResp, leadParse, wb, leadMarkdown.
  rewrite Hb. cbn [fst snd]. by repeat split.
Qed.

(** X16.  The summary and the total word count of an outline that
    [GetPageOutline] has just built come from the lead alone: the lead is
    the text of the response to the second request (section 0 of the
    page), converted to markdown; the summary is its preview of 100 words.
    Every section of the table of contents is created with a word count of
    zero, and for a page with headings the lead is counted twice, once as
    the start of the sum and once as the first section of the list; for a
    page without headings the outline has no sections and the lead is
    counted once. *)
Theorem X16_total_word_count `{HtmlLib} (client : Client) (wikiURL title : string)
    (w w' : World) (outline : PageOutline.t) :
  Get (items w) (PageCacheKey wikiURL (title +:+ ":outline")) (now w) = None ->
  GetPageOutline client wikiURL title w = (Ret outline, w') ->
  exists resp parse wa leadResp leadParse wb lead,
    MakeRequest client wikiURL (outlineParams title) w = (Ret resp, wa) /\
    mwResponse.Parse resp = Some parse /\
    MakeRequest client wikiURL (leadParams title) wa = (Ret leadResp, wb) /\
    mwResponse.Parse leadResp = Some leadParse /\
    HTMLToMarkdown (mwParse.Text leadParse) = Ok lead /\
    PageOutline.Summary outline = ExtractPreview lead 100 /\
    (PageOutline.Sections outline = [] <-> mwParse.Sections parse = []) /\
    PageOutline.TotalWordCount outline
    = match mwParse.Sections parse with
      | [] => CountWords lead
      | _ :: _ => add (CountWords lead) (CountWords lead)
      end.
Proof.
  intros Hmiss Hrun.
  destruct (GetPageOutline_lead client wikiURL title w w' outline Hmiss Hrun)
    as (resp & parse & wa & leadResp & leadParse & wb & lead
        & Hreq & Hparse & Hlead & HleadParse & Hmd & Hsections & Htotal & Hsummary).
  exists resp, parse, wa, leadResp, leadParse, wb, lead.
  do 6 (split; [done|]).
  destruct (mwParse.Sections parse) as [|e rest] eqn:E.
  - cbn in Htotal, Hsections. split; [done|]. congruence.
  - rewrite (total_words_value (e :: rest) wikiURL title lead (CountWords lead))
      in Htotal by done.
    injection Htotal as <-.
    destruct (nested_buildSectionsTree (e :: rest) wikiURL title lead
                ltac:(discriminate)) as [stack Hnested].
    destruct (buildSectionsTree (e :: rest) wikiURL title lead) as [h sections].
    destruct Hnested as (_ & (tops & -> & _) & _). cbn [snd] in *.
    split; [|reflexivity]. rewrite Hsections. split; done.
Qed.

Lemma X16_total_word_count_witness :
  exists outline w',
    @GetPageOutline Mock.html_lines Mock.client "https://en.wikipedia.org"
      "Ada Lovelace" Mock.start = (Ret outline, w') /\
    PageOutline.Summary outline = "<p>Some text</p>" /\
    PageOutline.TotalWordCount outline = 4.
Proof.
  destruct (@GetPageOutline Mock.html_lines Mock.client "https://en.wikipedia.org"
              "Ada Lovelace" Mock.start) as [[outline|e|p] w'] eqn:E;
    [|vm_compute in E; discriminate|vm_compute in E; discriminate].
  exists outline, w'. split; [reflexivity|].
  destruct (X16_total_word_count (H := Mock.html_lines) Mock.client
              "https://en.wikipedia.org" "Ada Lovelace" Mock.start w' outline)
    as (resp & parse & wa & leadResp & leadParse & wb & lead
        & Hreq & Hparse & Hlead & HleadParse & Hmd & Hsummary & _ & Htotal);
    [vm_compute; reflexivity | exact E |].
  vm_compute in Hreq. injection Hreq as <- <-.
  cbn in Hparse. injection Hparse as <-.
  vm_compute in Hlead. injection Hlead as <- <-.
  cbn in HleadParse. injection HleadParse as <-.
  vm_compute in Hmd. injection Hmd as <-.
  split; [rewrite Hsummary; vm_compute; reflexivity|].
  rewrite Htotal. vm_compute. reflexivity.
Defined.

End WordCountProps.

(** ** The operations and the cache *)

Module CachedToolsProps.
Import GoStrings Go Strconv Wiki Markdown Infobox Cache Tools TreeSpec TreeFacts.
Import NestSpec NestFacts CacheProps ToolsProps RunFacts StringFacts.
Import WikiSection.




Lemma find_target_none (h : heap) (flat : list ptr) (sectionIndex : Z) :
  (forall p, p ∈ flat -> Index (deref h p) <> sectionIndex) ->
  forall i, find_target h flat sectionIndex i = None.
Proof.
  induction flat as [|sec flat IH]; intros Hno i; [done|].
  cbn [find_target].
  rewrite (proj2 (Z.eqb_neq _ _)) by (apply Hno; by left).
  apply IH. intros p Hp. apply Hno. by right.
Qed.

(** X18.  For an outline that [GetPageOutline] has just built, a request
    for an index that no section of the outline has fails with
    [SectionNotFoundError], which carries the index and the number of
    sections of the outline, the lead included; no request for the section
    is made.  For a page without headings the outline has no sections at
    all, not even the lead: every index, 0 included, is reported as not
    found, with a count of 0. *)
Theorem X18_section_not_found `{HtmlLib} (client : Client) (wikiURL title : string)
    (w w1 : World) (outline : PageOutline.t) :
  Get (items w) (PageCacheKey wikiURL (title +:+ ":outline")) (now w) = None ->
  GetPageOutline client wikiURL title w = (Ret outline, w1) ->
  (forall sectionIndex,
      Get (items w) (SectionCacheKey wikiURL title (Itoa sectionIndex)) (now w) = None ->
      (forall p, (p < length (PageOutline.Heap outline))%nat ->
         Index (deref (PageOutline.Heap outline) p) <> sectionIndex) ->
      GetPageSection client wikiURL title sectionIndex w
      = (Fail (SectionNotFoundError sectionIndex
                 (Z.of_nat (length (PageOutline.Heap outline)))), w1)) /\
  (PageOutline.Sections outline = [] ->
   forall sectionIndex,
     Get (items w) (SectionCacheKey wikiURL title (Itoa sectionIndex)) (now w) = None ->
     GetPageSection client wikiURL title sectionIndex w
     = (Fail (SectionNotFoundError sectionIndex 0), w1)).
Proof.
  intros Hmiss Hrun.
  pose proof (GetPageOutline_flattens client wikiURL title w w1 outline Hmiss Hrun)
    as Hflat.
  assert (forall sectionIndex,
      Get (items w) (SectionCacheKey wikiURL title (Itoa sectionIndex)) (now w) = None ->
      (forall p, (p < length (PageOutline.Heap outline))%nat ->
         Index (deref (PageOutline.Heap outline) p) <> sectionIndex) ->
      GetPageSection client wikiURL title sectionIndex w
      = (Fail (SectionNotFoundError sectionIndex
                 (Z.of_nat (length (PageOutline.Heap outline)))), w1)) as Hgeneral.
  { intros sectionIndex Hmiss' Hno. unfold GetPageSection.
    rewrite (bind_Ret _ _ _ _ _ (cacheGet_run _ w)), Hmiss'.
    rewrite (bind_Ret _ _ _ _ _ (wrap_Ret _ _ _ _ _ Hrun)).
    cbv zeta. rewrite Hflat. rewrite find_target_none.
    - by rewrite length_seq.
    - intros p Hp. apply Hno. apply elem_of_seq in Hp. lia. }
  split; [exact Hgeneral|].
  intros Hempty sectionIndex Hmiss'.
  destruct (GetPageOutline_inv client wikiURL title w w1 outline Hmiss Hrun)
    as (parse & lead & wc & Hheap & Hsections & _).
  assert (PageOutline.Heap outline = []) as Hnil.
  { rewrite Hheap. rewrite Hsections in Hempty.
    destruct (mwParse.Sections parse) as [|e rest] eqn:E; [done|].
    destruct (nested_buildSectionsTree (e :: rest) wikiURL title lead
                ltac:(discriminate)) as [stack Hnested].
    destruct (buildSectionsTree (e :: rest) wikiURL title lead) as [h sections].
    destruct Hnested as (_ & (tops & -> & _) & _). done. }
  rewrite (Hgeneral sectionIndex Hmiss'); rewrite Hnil; [done|].
  intros p Hp. simpl in Hp. lia.
Qed.

Lemma X18_section_not_found_witness :
  fst (@GetPageSection Mock.html_lines Mock.client "https://en.wikipedia.org"
         "Ada Lovelace" 9 Mock.start)
  = Fail (SectionNotFoundError 9 4).
Proof.
  destruct (@GetPageOutline Mock.html_lines Mock.client "https://en.wikipedia.org"
              "Ada Lovelace" Mock.start) as [[outline|e|p] w1] eqn:E;
    [|vm_compute in E; discriminate|vm_compute in E; discriminate].
  destruct (X18_section_not_found (H := Mock.html_lines) Mock.client
              "https://en.wikipedia.org" "Ada Lovelace" Mock.start w1 outline)
    as [Hgeneral _]; [vm_compute; reflexivity | exact E |].
  vm_compute in E. injection E as Ho _.
  assert (forall p, (p < 4)%nat -> Index (deref (PageOutline.Heap outline) p) <> 9)
    as Hno.
  { subst outline. intros p Hp.
    destruct p as [|[|[|[|p]]]]; vm_compute; discriminate. }
  subst outline. rewrite (Hgeneral 9 eq_refl Hno). reflexivity.
Defined.

(** X19.  Once the wiki has answered a search with a query result,
    [SearchWiki] succeeds, whatever the snippets are: a snippet that cannot
    be converted is returned as it came.  The results are the hits in their
    order, with title and word count as they came; [TotalHits] is their
    number; the suggestion is never the empty string; and the one request
    is the only one made. *)
Theorem X19_SearchWiki_results `{HtmlLib} (client : Client) (wikiURL query : string)
    (limit : Z) (w w1 : World) (resp : mwResponse.t) (q : mwQuery.t) :
  Get (items w) (SearchCacheKey wikiURL (query +:+ ":" +:+ Itoa limit)) (now w) = None ->
  MakeRequest client wikiURL (searchParams query limit) w = (Ret resp, w1) ->
  mwResponse.Query resp = Some q ->
  exists r w2,
    SearchWiki client wikiURL query limit w = (Ret r, w2) /\
    map SearchResult.Title (SearchResponse.Results r)
    = map mwSearchResult.Title (mwQuery.Search q) /\
    map SearchResult.WordCount (SearchResponse.Results r)
    = map mwSearchResult.WordCount (mwQuery.Search q) /\
    map SearchResult.Snippet (SearchResponse.Results r)
    = map (fun hit =>
             match ConvertString (mwSearchResult.Snippet hit) with
             | Ok md => cleanupMarkdown md
             | Err _ => mwSearchResult.Snippet hit
             end) (mwQuery.Search q) /\
    SearchResponse.TotalHits r = Z.of_nat (length (SearchResponse.Results r)) /\
    SearchResponse.Suggestion r <> Some EmptyString /\
    requests w2 = requests w ++ [(wikiURL, searchParams query limit)] /\
    now w2 = now w1.
Proof.
  intros Hmiss Hreq Hq. unfold SearchWiki.
  rewrite (bind_Ret _ _ _ _ _ (cacheGet_run _ w)), Hmiss.
  rewrite (bind_Ret _ _ _ _ _ (wrap_Ret _ _ _ _ _ Hreq)), Hq.
  unfold bind, cacheSet, ret. eexists _, _. split; [reflexivity|].
  cbn [SearchResponse.Results SearchResponse.TotalHits SearchResponse.Suggestion
       requests now].
  rewrite !map_map, length_map. cbn [SearchResult.Title SearchResult.WordCount
                                     SearchResult.Snippet].
  split; [done|]. split; [done|]. split.
  - apply map_ext. intros hit. unfold HTMLToMarkdown.
    by destruct (ConvertString (mwSearchResult.Snippet hit)).
  - split; [done|]. split.
    + destruct (mwQuery.SearchInfo q) as [[|c s]|]; done.
    + unfold MakeRequest in Hreq.
      destruct (respond client w wikiURL (searchParams query limit)) as [[r0|e0] elapsed];
        [|done].
      injection Hreq as _ <-. by split.
Qed.

Lemma X19_SearchWiki_results_witness :
  exists r w2,
    @SearchWiki Mock.html_lines Mock.client "https://en.wikipedia.org" "ada" 10 Mock.start
    = (Ret r, w2) /\
    SearchResponse.TotalHits r = Z.of_nat (length (SearchResponse.Results r)).
Proof.
  edestruct (X19_SearchWiki_results (H := Mock.html_lines) Mock.client
               "https://en.wikipedia.org" "ada" 10 Mock.start)
    as (r & w2 & Hrun & _ & _ & _ & Hhits & _);
    [vm_compute; reflexivity | vm_compute; reflexivity | reflexivity |].
  exists r, w2. by split.
Defined.

Lemma categoryTitle_prefixed (category : string) :
  categoryTitle ("Category:" +:+ category) = "Category:" +:+ category.
Proof. unfold categoryTitle. by rewrite (HasPrefix_app "Category:" category). Qed.

Lemma TrimPrefix_categoryTitle (category : string) :
  TrimPrefix (categoryTitle category) "Category:" = TrimPrefix category "Category:".
Proof.
  unfold categoryTitle. destruct (HasPrefix category "Category:") eqn:E; [done|].
  unfold TrimPrefix at 1. rewrite (HasPrefix_app "Category:" category).
  rewrite (drop_app_length "Category:" category).
  unfold TrimPrefix. by rewrite E.
Qed.

(** Two continuations that give the same result and make the same
    requests do so after the same first step. *)
Lemma bind_same {A B} (m : M A) (k1 k2 : A -> M B) (w : World) :
  (forall a w1,
     fst (k1 a w1) = fst (k2 a w1) /\
     requests (snd (k1 a w1)) = requests (snd (k2 a w1))) ->
  fst (bind m k1 w) = fst (bind m k2 w) /\
  requests (snd (bind m k1 w)) = requests (snd (bind m k2 w)).
Proof. intros Hk. unfold bind. destruct (m w) as [[a|e|p] w1]; [apply Hk|done|done]. Qed.

(** X20.  [GetCategory] takes the name of a category with or without the
    prefix [Category:].  Both forms lead to the same requests and the same
    result (they are cached under different keys).  In the response the
    name comes without one such prefix, every member has the type ["page"]
    or ["subcat"], and the total is the number of members listed. *)
Theorem X20_category_prefix (client : Client) (wikiURL category : string)
    (limit : Z) (w : World) :
  (HasPrefix category "Category:" = false ->
   Get (items w) (CategoryCacheKey wikiURL (category +:+ ":" +:+ Itoa limit)) (now w)
   = None ->
   Get (items w) (CategoryCacheKey wikiURL
                    (("Category:" +:+ category) +:+ ":" +:+ Itoa limit)) (now w)
   = None ->
   fst (GetCategory client wikiURL ("Category:" +:+ category) limit w)
   = fst (GetCategory client wikiURL category limit w) /\
   requests (snd (GetCategory client wikiURL ("Category:" +:+ category) limit w))
   = requests (snd (GetCategory client wikiURL category limit w))) /\
  (forall categoryResp w',
     Get (items w) (CategoryCacheKey wikiURL (category +:+ ":" +:+ Itoa limit)) (now w)
     = None ->
     GetCategory client wikiURL category limit w = (Ret categoryResp, w') ->
     CategoryResponse.Category categoryResp = TrimPrefix category "Category:" /\
     Forall (fun member => CategoryMember.Type_ member = "page" \/
                           CategoryMember.Type_ member = "subcat")
       (CategoryResponse.Members categoryResp) /\
     CategoryResponse.TotalMembers categoryResp
     = Z.of_nat (length (CategoryResponse.Members categoryResp))).
Proof.
  split.
  - intros Hno Hmiss Hmiss'. unfold GetCategory.
    rewrite !(bind_Ret _ _ _ _ _ (cacheGet_run _ w)), Hmiss, Hmiss'.
    rewrite categoryTitle_prefixed.
    replace (categoryTitle category) with ("Category:" +:+ category)
      by (unfold categoryTitle; by rewrite Hno).
    apply bind_same. intros resp wa.
    destruct (mwResponse.Query resp) as [q|]; [|done].
    apply bind_same. intros parents wb. done.
  - intros categoryResp w' Hmiss Hrun.
    destruct (GetCategory_stored client wikiURL category limit w w' categoryResp
                Hmiss Hrun) as (_ & Hname & Htypes & Htotal).
    split; [|by split]. by rewrite Hname, TrimPrefix_categoryTitle.
Qed.

Lemma X20_category_prefix_witness :
  fst (GetCategory Mock.client "https://en.wikipedia.org" "Category:Mathematicians" 5
         Mock.start)
  = fst (GetCategory Mock.client "https://en.wikipedia.org" "Mathematicians" 5
           Mock.start).
Proof.
  apply (X20_category_prefix Mock.client "https://en.wikipedia.org" "Mathematicians" 5
           Mock.start); vm_compute; reflexivity.
Defined.

End CachedToolsProps.

(** ** Errors of the operations, as the server reports them *)

Module ErrorProps.
Import GoStrings Go Strconv Wiki Markdown Infobox Cache Tools Mcp.
Import ToolsProps RunFacts.

(** An error made by [fmt.Errorf]: with or without a wrapped error. *)
Local Abbreviation formatted e :=
  ((exists msg, e = errorString msg) \/ (exists prefix e0, e = wrapError prefix e0)).

Lemma FormatError_formatted (e : error) :
  formatted e ->
  FormatError (Some e)
  = Some {| Error := "internal_error"; Message := Error_ e; Hint := EmptyString;
            Details := None |}.
Proof. by intros [[msg ->]|(prefix & e0 & ->)]. Qed.

Lemma GetPageOutline_error `{HtmlLib} (client : Client) (wikiURL title : string)
    (w w' : World) (e : error) :
  GetPageOutline client wikiURL title w = (Fail e, w') -> formatted e.
Proof.
  unfold GetPageOutline. rewrite (bind_Ret _ _ _ _ _ (cacheGet_run _ w)).
  destruct (Get _ _ _) as [[o|s|r|c|]|]; try done.
  unfold bind at 1.
  destruct (wrap _ _ w) as [[resp|e0|p] wa] eqn:Hw; [| |done].
  2:{ intros [= <- <-]. right. apply wrap_Fail_inv in Hw as [e1 ->]. by eexists _, _. }
  destruct (mwResponse.Parse resp) as [parse|]; [|intros [= <- <-]; left; by eexists].
  unfold bind at 1.
  destruct (wrap _ _ wa) as [[leadResp|e0|p] wb] eqn:Hw2; [| |done].
  2:{ intros [= <- <-]. right. apply wrap_Fail_inv in Hw2 as [e1 ->]. by eexists _, _. }
  destruct (mwResponse.Parse leadResp) as [leadParse|]; [|done].
  unfold bind at 1.
  destruct (wrap _ _ wb) as [[leadMarkdown|e0|p] wc] eqn:Hw3; [| |done].
  2:{ intros [= <- <-]. right. apply wrap_Fail_inv in Hw3 as [e1 ->]. by eexists _, _. }
  destruct (buildSectionsTree _ _ _ _) as [h sections].
  destruct (total_words h sections _) as [totalWords|]; [|done].
  unfold bind at 1.
  destruct (attempt _ wc) as [[wikitext|e0|p] wd] eqn:Hw4; [|
    unfold attempt in Hw4; destruct (getPageWikitext _ _ _ _) as [[?|?|?] ?]; done
    | done].
  done.
Qed.

Lemma GetPageSection_error `{HtmlLib} (client : Client) (wikiURL title : string)
    (sectionIndex : Z) (w w' : World) (e : error) :
  GetPageSection client wikiURL title sectionIndex w = (Fail e, w') ->
  formatted e \/ exists n, e = SectionNotFoundError sectionIndex n.
Proof.
  unfold GetPageSection. rewrite (bind_Ret _ _ _ _ _ (cacheGet_run _ w)).
  destruct (Get _ _ _) as [[o|s|r|c|]|]; try done.
  unfold bind at 1.
  destruct (wrap _ _ w) as [[outline|e0|p] wa] eqn:Hw; [| |done].
  2:{ intros [= <- <-]. left. right. apply wrap_Fail_inv in Hw as [e1 ->].
      by eexists _, _. }
  cbv zeta. destruct (flattenSections _ _) as [flat|]; [|done].
  destruct (find_target _ flat sectionIndex O) as [[i target]|];
    [|intros [= <- <-]; right; by eexists].
  unfold bind at 1.
  destruct (wrap _ _ wa) as [[resp|e0|p] wb] eqn:Hw2; [| |done].
  2:{ intros [= <- <-]. left. right. apply wrap_Fail_inv in Hw2 as [e1 ->].
      by eexists _, _. }
  destruct (mwResponse.Parse resp) as [parse|];
    [|intros [= <- <-]; left; left; by eexists].
  unfold bind at 1.
  destruct (wrap _ _ wb) as [[markdown|e0|p] wc] eqn:Hw3; [| |done].
  2:{ intros [= <- <-]. left. right. apply wrap_Fail_inv in Hw3 as [e1 ->].
      by eexists _, _. }
  done.
Qed.

Lemma SearchWiki_error `{HtmlLib} (client : Client) (wikiURL query : string)
    (limit : Z) (w w' : World) (e : error) :
  SearchWiki client wikiURL query limit w = (Fail e, w') -> formatted e.
Proof.
  unfold SearchWiki. rewrite (bind_Ret _ _ _ _ _ (cacheGet_run _ w)).
  destruct (Get _ _ _) as [[o|s|r|c|]|]; try done.
  unfold bind at 1.
  destruct (wrap _ _ w) as [[resp|e0|p] wa] eqn:Hw; [| |done].
  2:{ intros [= <- <-]. right. apply wrap_Fail_inv in Hw as [e1 ->]. by eexists _, _. }
  destruct (mwResponse.Query resp) as [q|]; [|intros [= <- <-]; left; by eexists].
  done.
Qed.

Lemma GetCategory_error (client : Client) (wikiURL category : string)
    (limit : Z) (w w' : World) (e : error) :
  GetCategory client wikiURL category limit w = (Fail e, w') -> formatted e.
Proof.
  unfold GetCategory. rewrite (bind_Ret _ _ _ _ _ (cacheGet_run _ w)).
  destruct (Get _ _ _) as [[o|s|r|c|]|]; try done.
  unfold bind at 1.
  destruct (wrap _ _ w) as [[resp|e0|p] wa] eqn:Hw; [| |done].
  2:{ intros [= <- <-]. right. apply wrap_Fail_inv in Hw as [e1 ->]. by eexists _, _. }
  destruct (mwResponse.Query resp) as [q|]; [|intros [= <- <-]; left; by eexists].
  unfold bind at 1.
  destruct (attempt _ wa) as [[parents|e0|p] wb] eqn:Hw2; [|
    unfold attempt in Hw2; destruct (getParentCategories _ _ _ _) as [[?|?|?] ?]; done
    | done].
  done.
Qed.

(** X21.  [FormatError] recognises an API error and a missing section by
    the type of the error itself.  The operations wrap every error of a
    request with [fmt.Errorf], so an API error of the wiki (a missing page,
    say) never reaches [FormatError] as such: whatever makes
    [GetPageOutline], [SearchWiki] or [GetCategory] fail is reported as
    ["internal_error"], with the text of the error as message and without
    a hint, and so is every failure of [GetPageSection] except the missing
    section, which it returns unwrapped and which is reported as
    ["section_not_found"] with the index and the number of sections. *)
Theorem X21_errors_as_reported `{HtmlLib} (client : Client) (wikiURL : string)
    (w w' : World) (e : error) :
  let internal :=
    FormatError (Some e)
    = Some {| Error := "internal_error"; Message := Error_ e; Hint := EmptyString;
              Details := None |} in
  (forall title, GetPageOutline client wikiURL title w = (Fail e, w') -> internal) /\
  (forall query limit, SearchWiki client wikiURL query limit w = (Fail e, w') -> internal) /\
  (forall category limit,
      GetCategory client wikiURL category limit w = (Fail e, w') -> internal) /\
  (forall title sectionIndex,
      GetPageSection client wikiURL title sectionIndex w = (Fail e, w') ->
      internal \/
      exists n,
        e = SectionNotFoundError sectionIndex n /\
        FormatError (Some e)
        = Some {| Error := "section_not_found";
                  Message := "section index " +:+ Itoa sectionIndex
                             +:+ " does not exist (page has " +:+ Itoa n +:+ " sections)";
                  Hint := "Call wiki_page_outline to get fresh section indices.";
                  Details := Some (<["available_sections" := n]>
                                     (<["section_index" := sectionIndex]> ∅)) |}) /\
  (forall prefix Code Message,
      FormatError (Some (wrapError prefix (APIError Code Message)))
      = Some {| Error := "internal_error";
                Message := prefix +:+ ": mediawiki api error: " +:+ Code +:+ ": "
                           +:+ Message;
                Hint := EmptyString; Details := None |}).
Proof.
  intros internal. subst internal. split; [|split; [|split; [|split]]].
  - intros title Hrun. by apply FormatError_formatted, (GetPageOutline_error _ _ _ _ _ _ Hrun).
  - intros query limit Hrun.
    by apply FormatError_formatted, (SearchWiki_error _ _ _ _ _ _ _ Hrun).
  - intros category limit Hrun.
    by apply FormatError_formatted, (GetCategory_error _ _ _ _ _ _ _ Hrun).
  - intros title sectionIndex Hrun.
    destruct (GetPageSection_error _ _ _ _ _ _ _ Hrun) as [Hf|[n ->]].
    + left. by apply FormatError_formatted.
    + right. exists n. by split.
  - reflexivity.
Qed.

Lemma X21_errors_as_reported_witness :
  exists e w',
    GetCategory
      {| cacheTTL := 0; cacheTTLInfo := 0;
         respond := fun _ _ _ => (Err (APIError "missingtitle" "no such page"), 0%N) |}
      "https://en.wikipedia.org" "Nothing" 5 Mock.start = (Fail e, w') /\
    FormatError (Some e)
    = Some {| Error := "internal_error";
              Message := "get category: mediawiki api error: missingtitle: no such page";
              Hint := EmptyString; Details := None |}.
Proof.
  eexists _, _. split; [vm_compute; reflexivity|].
  edestruct (X21_errors_as_reported (H := Mock.html_lines)
               {| cacheTTL := 0; cacheTTLInfo := 0;
                  respond := fun _ _ _ =>
                    (Err (APIError "missingtitle" "no such page"), 0%N) |}
               "https://en.wikipedia.org" Mock.start) as (_ & _ & Hcat & _).
  rewrite (Hcat "Nothing" 5); [reflexivity | vm_compute; reflexivity].
Defined.

End ErrorProps.

(** ** Decimal numbers: [strconv.Itoa] and [strconv.Atoi] *)

Module StrconvProps.
Import GoStrings Regexp Go Strconv Cache Wiki Tools.
Import StringFacts CharFacts CacheKeySpec CacheKeyProps.

(** [Atoi] at the ends of its range and on texts that are not numbers. *)
Lemma Atoi_corners :
  Atoi "12" = 12 /\ Atoi "-7" = -7 /\ Atoi "+7" = 7 /\ Atoi "T-1" = 0 /\
  Atoi EmptyString = 0 /\ Atoi "-" = 0 /\ Atoi "1_0" = 0 /\
  Atoi "9223372036854775808" = MaxInt64 /\
  Atoi "-9223372036854775808" = MinInt64 /\
  Atoi "18446744073709551615" = MaxInt64 /\
  Atoi "18446744073709551616" = MaxInt64 /\
  Atoi "-99999999999999999999" = MinInt64 /\
  Atoi "99999999999999999999x" = MaxInt64 /\
  Atoi "9999999999999999999x" = 0.
Proof. repeat split; vm_compute; reflexivity. Qed.

Lemma of_uint_acc_ge (u : Decimal.uint) :
  forall acc : positive, (acc <= Pos.of_uint_acc u acc)%positive.
Proof.
  induction u; intros acc; cbn [Pos.of_uint_acc]; [lia|..];
    (etrans; [|apply IHu]; lia).
Qed.

Lemma ParseUint_loop_acc (u : Decimal.uint) :
  forall acc : positive,
    Z.pos (Pos.of_uint_acc u acc) <= MaxUint64 ->
    ParseUint_loop (NilEmpty.string_of_uint u) (Z.pos acc)
    = Parsed (Z.pos (Pos.of_uint_acc u acc)).
Proof.
  induction u; intros acc Hmax;
    cbn [NilEmpty.string_of_uint ParseUint_loop Pos.of_uint_acc] in *;
    [done| |..];
    (change (digit _) with true; cbv iota zeta;
     match type of Hmax with
     | Z.pos (Pos.of_uint_acc _ ?a) <= _ =>
         pose proof (of_uint_acc_ge u a) as Hge
     end;
     change MaxUint64 with 18446744073709551615 in *;
     change cutoff with 1844674407370955162;
     vm_compute (Z.of_nat _ - 48);
     destruct (Z.leb_spec 1844674407370955162 (Z.pos acc)); [lia|];
     match goal with
     | |- context [18446744073709551615 <? ?n1] =>
         destruct (Z.ltb_spec 18446744073709551615 n1); [lia|]
     end;
     rewrite <- IHu by done; f_equal; lia).
Qed.

Lemma ParseUint_loop_of_uint (u : Decimal.uint) :
  Z.of_N (Pos.of_uint u) <= MaxUint64 ->
  ParseUint_loop (NilEmpty.string_of_uint u) 0 = Parsed (Z.of_N (Pos.of_uint u)).
Proof.
  induction u; intros Hmax;
    cbn [NilEmpty.string_of_uint ParseUint_loop Pos.of_uint] in *;
    [done| |..];
    change (digit _) with true; cbv iota zeta;
    change (cutoff <=? 0) with false; cbv iota;
    vm_compute (10 * 0 + (Z.of_nat _ - 48));
    match goal with
    | |- context [MaxUint64 <? ?n1] => change (MaxUint64 <? n1) with false
    end; cbv iota;
    [by apply IHu|..]; by apply ParseUint_loop_acc.
Qed.

(** The decimal writing of a positive number: not empty, digits only. *)
Lemma to_uint_string (p : positive) :
  NilZero.string_of_uint (Pos.to_uint p) = NilEmpty.string_of_uint (Pos.to_uint p).
Proof.
  pose proof (DecimalPos.Unsigned.to_uint_nonnil p) as H.
  by destruct (Pos.to_uint p).
Qed.

Lemma uint_string_head (u : Decimal.uint) :
  u <> Decimal.Nil ->
  exists c s, NilEmpty.string_of_uint u = String c s /\ digit c = true.
Proof. destruct u; [done|..]; intros _; eexists _, _; by split. Qed.

Lemma digit_not (c x : ascii) : digit c = true -> digit x = false -> c <> x.
Proof. intros Hc Hx ->. congruence. Qed.

Lemma uint_string_digits (x : ascii) (u : Decimal.uint) :
  digit x = false ->
  Contains (NilEmpty.string_of_uint u) (String x EmptyString) = false.
Proof.
  intros Hx.
  induction u; cbn [NilEmpty.string_of_uint]; [done|..];
    (apply Contains_char_cons; split; [by apply digit_not|exact IHu]).
Qed.

Lemma digits_of_pos (p : positive) :
  Z.pos p <= MaxUint64 ->
  ParseUint_loop (NilZero.string_of_uint (Pos.to_uint p)) 0 = Parsed (Z.pos p).
Proof.
  intros Hmax. rewrite to_uint_string, ParseUint_loop_of_uint.
  - by rewrite DecimalPos.Unsigned.of_to.
  - by rewrite DecimalPos.Unsigned.of_to.
Qed.

Lemma Atoi_Itoa (n : Z) : MinInt64 <= n <= MaxInt64 -> Atoi (Itoa n) = n.
Proof.
  intros Hn.
  assert (MaxInt64 < MaxUint64) as Hpos by (vm_compute; reflexivity).
  assert (- MinInt64 < MaxUint64) as Hneg by (vm_compute; reflexivity).
  unfold Itoa. destruct n as [|p|p]; cbn [Z.to_int NilZero.string_of_int].
  - reflexivity.
  - pose proof (digits_of_pos p ltac:(lia)) as Hd. rewrite to_uint_string in *.
    destruct (uint_string_head (Pos.to_uint p)) as (c & s & Hs & Hc);
      [apply DecimalPos.Unsigned.to_uint_nonnil|].
    rewrite Hs in *. unfold Atoi.
    assert (HasPrefix (String c s) "-" = false) as ->.
    { rewrite HasPrefix_char. apply Ascii.eqb_neq. intros <-. done. }
    assert (HasPrefix (String c s) "+" = false) as ->.
    { rewrite HasPrefix_char. apply Ascii.eqb_neq. intros <-. done. }
    cbn [orb]. rewrite Hd. lia.
  - pose proof (digits_of_pos p ltac:(lia)) as Hd. rewrite to_uint_string in *.
    destruct (uint_string_head (Pos.to_uint p)) as (c & s & Hs & Hc);
      [apply DecimalPos.Unsigned.to_uint_nonnil|].
    rewrite Hs in *. unfold Atoi.
    change (HasPrefix (String "-" (String c s)) "-") with true.
    cbn [orb drop]. rewrite Hd. lia.
Qed.

Lemma Itoa_inj (i j : Z) : Itoa i = Itoa j -> i = j.
Proof.
  unfold Itoa. intros H.
  assert (forall z, NilZero.int_of_string (NilZero.string_of_int (Z.to_int z))
                    = Some (Z.to_int z)) as Hisi.
  { intros z. apply NilZero.isi.
    - destruct z as [|p|p]; cbn [Z.to_int]; [done| |done].
      intros [= Hp]. by apply (DecimalPos.Unsigned.to_uint_nonnil p).
    - destruct z as [|p|p]; cbn [Z.to_int]; [done|done|].
      intros [= Hp]. by apply (DecimalPos.Unsigned.to_uint_nonnil p). }
  pose proof (Hisi i) as Hi. rewrite H, Hisi in Hi. injection Hi as Hi.
  by rewrite <- (DecimalZ.of_to i), <- (DecimalZ.of_to j), Hi.
Qed.

Lemma Itoa_no_colon (n : Z) : Contains (Itoa n) ":" = false.
Proof.
  unfold Itoa. destruct n as [|p|p]; cbn [Z.to_int NilZero.string_of_int].
  - reflexivity.
  - rewrite to_uint_string. by apply uint_string_digits.
  - rewrite to_uint_string. apply Contains_char_cons. split; [done|].
    by apply uint_string_digits.
Qed.

Lemma app_inv_head (a x y : string) : a +:+ x = a +:+ y -> x = y.
Proof. induction a as [|c a IH]; [done|]. simpl. intros [= H]. by apply IH. Qed.

(** Where the parts after the last colon have no colon, the last colon
    is found again. *)
Lemma last_colon (a b x y : string) :
  Contains x ":" = false -> Contains y ":" = false ->
  a +:+ ":" +:+ x = b +:+ ":" +:+ y -> a = b /\ x = y.
Proof.
  intros Hx Hy. revert b.
  induction a as [|c a IH]; intros [|d b]; simpl.
  - by intros [= ->].
  - intros [= <- ->]. exfalso.
    by apply (proj1 (Contains_false_iff _ _) Hx b y).
  - intros [= -> <-]. exfalso.
    by apply (proj1 (Contains_false_iff _ _) Hy a x).
  - intros [= -> H]. apply IH in H as [-> ->]. done.
Qed.

(** X22.  [strconv.Atoi] reads back what [strconv.Itoa] writes: for every
    [int] the number comes back, so a section whose index MediaWiki
    writes in decimal gets that index.  [Itoa] writes different numbers
    differently. *)
Theorem X22_Atoi_reads_Itoa (n : Z) :
  MinInt64 <= n <= MaxInt64 ->
  Atoi (Itoa n) = n /\
  (forall mwSec,
     MWSection.Index mwSec = Itoa n -> WikiSection.Index (section_of mwSec) = n) /\
  (forall m, Itoa m = Itoa n -> m = n).
Proof.
  intros Hn. split; [by apply Atoi_Itoa|]. split.
  - intros mwSec Hindex. cbn [section_of WikiSection.Index]. rewrite Hindex.
    by apply Atoi_Itoa.
  - intros m. apply Itoa_inj.
Qed.

Lemma X22_Atoi_reads_Itoa_witness :
  Atoi (Itoa (-1203)) = -1203 /\ Atoi (Itoa MaxInt64) = MaxInt64.
Proof.
  destruct (X22_Atoi_reads_Itoa (-1203)) as [H1 _];
    [vm_compute; split; discriminate|].
  destruct (X22_Atoi_reads_Itoa MaxInt64) as [H2 _];
    [vm_compute; split; discriminate|].
  exact (conj H1 H2).
Defined.

(** X23.  On one wiki, the cache keys of [GetPageSection], [SearchWiki]
    and [GetCategory] tell their arguments apart: two requests with the
    same key have the same title and section index, the same query and
    limit, the same category and limit. *)
Theorem X23_keys_tell_requests_apart (wikiURL : string) :
  (forall title title' i j,
     SectionCacheKey wikiURL title (Itoa i) = SectionCacheKey wikiURL title' (Itoa j) ->
     title = title' /\ i = j) /\
  (forall query query' i j,
     SearchCacheKey wikiURL (query +:+ ":" +:+ Itoa i)
     = SearchCacheKey wikiURL (query' +:+ ":" +:+ Itoa j) ->
     query = query' /\ i = j) /\
  (forall category category' i j,
     CategoryCacheKey wikiURL (category +:+ ":" +:+ Itoa i)
     = CategoryCacheKey wikiURL (category' +:+ ":" +:+ Itoa j) ->
     category = category' /\ i = j).
Proof.
  assert (forall a b i j, a +:+ ":" +:+ Itoa i = b +:+ ":" +:+ Itoa j ->
                          a = b /\ i = j) as Hlast.
  { intros a b i j H. apply last_colon in H as [-> H]; try apply Itoa_no_colon.
    split; [done|]. by apply Itoa_inj. }
  split; [|split].
  - intros title title' i j. unfold SectionCacheKey. rewrite !CacheKey_cons.
    intros H. apply app_inv_head in H. cbn [key_tail] in H.
    rewrite !app_nil_r in H.
    apply (app_inv_head ":"), (app_inv_head wikiURL), (app_inv_head ":") in H.
    by apply Hlast.
  - intros query query' i j. unfold SearchCacheKey. rewrite !CacheKey_cons.
    intros H. apply app_inv_head in H. cbn [key_tail] in H.
    rewrite !app_nil_r in H.
    apply (app_inv_head ":"), (app_inv_head wikiURL), (app_inv_head ":") in H.
    by apply Hlast.
  - intros category category' i j. unfold CategoryCacheKey. rewrite !CacheKey_cons.
    intros H. apply app_inv_head in H. cbn [key_tail] in H.
    rewrite !app_nil_r in H.
    apply (app_inv_head ":"), (app_inv_head wikiURL), (app_inv_head ":") in H.
    by apply Hlast.
Qed.

End StrconvProps.

(** ** [getAPIPath] *)

Module ApiPathProps.
Import GoStrings Go ApiPath ApiPathExamples.

Section WithHttp.
Context `{Http Net}.

(** What the loop over the paths does to the client. *)
Lemma try_paths_spec (wikiURL : string) (rest : list string) :
  forall (c c' : PathClient Net) (r : option string),
    try_paths wikiURL rest c = (r, c') ->
    (exists asked,
       sent c' = sent c ++ asked /\
       asked `sublist_of` (map (testURL wikiURL) rest) /\
       match r with
       | Some path =>
           path ∈ rest /\ apiPaths c' = <[wikiURL := path]> (apiPaths c) /\
           last asked = Some (testURL wikiURL path)
       | None =>
           apiPaths c' = apiPaths c /\
           asked = List.filter valid (map (testURL wikiURL) rest)
       end).
Proof.
  induction rest as [|path rest IH]; intros c c' r; cbn [try_paths].
  - intros [= <- <-]. exists []. by rewrite app_nil_r.
  - destruct (valid (testURL wikiURL path)) eqn:Hvalid; cbn [negb].
    + destruct (Do (testURL wikiURL path) (net c)) as [resp n] eqn:HDo.
      assert (forall c1,
                sent c1 = sent c ++ [testURL wikiURL path] ->
                apiPaths c1 = apiPaths c ->
                try_paths wikiURL rest c1 = (r, c') ->
                exists asked,
                  sent c' = sent c ++ asked /\
                  asked `sublist_of` (map (testURL wikiURL) (path :: rest)) /\
                  match r with
                  | Some path0 =>
                      path0 ∈ path :: rest /\
                      apiPaths c' = <[wikiURL := path0]> (apiPaths c) /\
                      last asked = Some (testURL wikiURL path0)
                  | None =>
                      apiPaths c' = apiPaths c /\
                      asked = List.filter valid (map (testURL wikiURL) (path :: rest))
                  end) as Hnext.
      { intros c1 Hsent Hpaths Hrun.
        destruct (IH _ _ _ Hrun) as (asked & Hs & Hsub & Hr).
        exists (testURL wikiURL path :: asked). split; [|split].
        - rewrite Hs, Hsent. by rewrite <- app_assoc.
        - cbn [map]. by apply sublist_skip.
        - destruct r as [path0|].
          + destruct Hr as (Hin & Hmap & Hlast). split; [by right|].
            split; [by rewrite Hmap, Hpaths|].
            destruct asked; [done|exact Hlast].
          + destruct Hr as (Hmap & Hasked). split; [by rewrite Hmap, Hpaths|].
            cbn [map List.filter]. by rewrite Hvalid, Hasked. }
      destruct resp as [StatusCode|]; [|by apply Hnext].
      destruct (StatusCode =? StatusOK); [|by apply Hnext].
      intros [= <- <-]. exists [testURL wikiURL path]. cbn.
      split; [done|]. split; [apply sublist_skip, sublist_nil_l|].
      split; [by left|done].
    + intros Hrun. destruct (IH _ _ _ Hrun) as (asked & Hs & Hsub & Hr).
      exists asked. split; [done|]. split; [by apply sublist_cons|].
      destruct r as [path0|].
      * destruct Hr as (Hin & Hmap & Hlast). split; [by right|done].
      * destruct Hr as (Hmap & Hasked). split; [done|].
        cbn [map List.filter]. by rewrite Hvalid.
Qed.

(** X24.  A path that [getAPIPath] has found is remembered: it is in the
    map afterwards, the entries of other wikis are as before, and the next
    call for the wiki answers with it and sends nothing.  When the map had
    no entry, the path is [/api.php] or [/w/api.php], at most one request
    per path was sent, in that order, and the last one asked for the path
    returned. *)
Theorem X24_path_remembered (wikiURL path : string) (c c' : PathClient Net) :
  getAPIPath wikiURL c = (Ok path, c') ->
  apiPaths c' !! wikiURL = Some path /\
  (forall other, other <> wikiURL -> apiPaths c' !! other = apiPaths c !! other) /\
  getAPIPath wikiURL c' = (Ok path, c') /\
  (apiPaths c !! wikiURL = None ->
   path ∈ paths /\
   exists asked,
     sent c' = sent c ++ asked /\
     asked `sublist_of` (map (testURL wikiURL) paths) /\
     last asked = Some (testURL wikiURL path)).
Proof.
  unfold getAPIPath. destruct (apiPaths c !! wikiURL) as [p|] eqn:Hc.
  - intros [= <- <-]. rewrite Hc. done.
  - destruct (try_paths wikiURL paths c) as [[p|] c1] eqn:Hrun; [|done].
    intros [= <- <-].
    destruct (try_paths_spec _ _ _ _ _ Hrun) as (asked & Hs & Hsub & Hin & Hmap & Hl).
    rewrite Hmap, lookup_insert_eq. split; [done|]. split.
    { intros other Hother. by rewrite lookup_insert_ne. }
    split; [done|]. intros _. split; [done|]. by exists asked.
Qed.

(** X25.  A wiki for which no path answers with status 200 is not
    remembered: the error names the wiki and the two paths, the map is as
    before, and the call has sent one request for every path whose URL
    could be built, so that the next call tries them all again. *)
Theorem X25_no_endpoint (wikiURL : string) (e : error) (c c' : PathClient Net) :
  getAPIPath wikiURL c = (Err e, c') ->
  e = errorString ("could not find valid API endpoint for " +:+ wikiURL +:+
                   " (tried [/api.php /w/api.php])") /\
  apiPaths c !! wikiURL = None /\
  apiPaths c' = apiPaths c /\
  sent c' = sent c ++ List.filter valid
                        [wikiURL +:+ "/api.php?action=query&meta=siteinfo&format=json";
                         wikiURL +:+ "/w/api.php?action=query&meta=siteinfo&format=json"].
Proof.
  unfold getAPIPath. destruct (apiPaths c !! wikiURL) as [p|] eqn:Hc; [done|].
  destruct (try_paths wikiURL paths c) as [[p|] c1] eqn:Hrun; [done|].
  intros [= <- <-].
  destruct (try_paths_spec _ _ _ _ _ Hrun) as (asked & Hs & _ & Hmap & Hasked).
  split; [done|]. split; [done|]. split; [done|].
  rewrite Hs, Hasked. cbn [paths map]. unfold testURL.
  by rewrite !StringFacts.app_assoc.
Qed.

End WithHttp.

Lemma X24_path_remembered_witness :
  let c' := snd (getAPIPath "https://w.example" fresh) in
  apiPaths c' !! "https://w.example" = Some "/w/api.php" /\
  getAPIPath "https://w.example" c' = (Ok "/w/api.php", c') /\
  length (sent c') = 2%nat.
Proof.
  destruct (X24_path_remembered "https://w.example" "/w/api.php" fresh
              (snd (getAPIPath "https://w.example" fresh)))
    as (H1 & _ & H2 & _); [vm_compute; reflexivity|].
  split; [exact H1|]. split; [exact H2|]. vm_compute. reflexivity.
Defined.

Lemma X25_no_endpoint_witness :
  let c' := snd (getAPIPath "https://down.example" fresh) in
  apiPaths c' = ∅ /\
  sent c' = ["https://down.example/api.php?action=query&meta=siteinfo&format=json";
             "https://down.example/w/api.php?action=query&meta=siteinfo&format=json"].
Proof.
  destruct (X25_no_endpoint "https://down.example" (no_endpoint "https://down.example")
              fresh (snd (getAPIPath "https://down.example" fresh)))
    as (_ & _ & H1 & H2); [vm_compute; reflexivity|].
  split; [exact H1|]. exact H2.
Defined.


End ApiPathProps.
